(** * pumpfinder: the mint-event decoder and the fetch / batch pipeline

    A shallow embedding of [src/MintUtils.ts] and [src/pumpfinder.ts].
    The first half of the file holds the definitions, in the order of
    the sources; the second half holds the lemmas about them.

    JavaScript values are modelled as the code uses them:
    - a [number] is an integer or [NaN] (the offsets of [decodeMint]
      become [NaN] once a length byte is read past the end);
    - a [Buffer] is a [list byte];
    - the text of log lines, signatures, addresses and timestamps is a
      [string] (these are ASCII in the program);
    - the text produced by [TextDecoder] is a list of Unicode scalar
      values, [text];
    - a promise that is awaited is a node of an interaction tree
      ([proc]), the answer of the outside world being the argument of
      its continuation. *)

From Stdlib Require Import ZArith NArith List String Ascii Bool Lia.
From Stdlib Require Import Strings.Byte.
From Stdlib Require Import Permutation Sorted Arith.
From Stdlib Require Import QArith_base Qround.
From Equations Require Import Equations.
Import ListNotations.

Close Scope Q_scope.
Local Open Scope string_scope.
Local Open Scope list_scope.

(* ===================================================================== *)
(** * Part I. Definitions *)
(* ===================================================================== *)

(** ** JavaScript numbers, typed arrays and strings *)

Module JS.

(** The numbers the program computes with: integers, and [NaN] (which
    arises from [offset + undefined]). *)
Inductive number : Type :=
| Int (z : Z)
| NaN.

(** [a + b] on numbers. *)
Definition add (a b : number) : number :=
  match a, b with
  | Int x, Int y => Int (x + y)
  | _, _ => NaN
  end.

(** [a - b] on numbers. *)
Definition sub (a b : number) : number :=
  match a, b with
  | Int x, Int y => Int (x - y)
  | _, _ => NaN
  end.

(** [a < b]: false as soon as one side is [NaN]. *)
Definition lt (a b : number) : bool :=
  match a, b with
  | Int x, Int y => (x <? y)%Z
  | _, _ => false
  end.

(** [ToNumber] of the value read from a typed array: the byte, or
    [undefined], which [+] turns into [NaN]. *)
Definition ToNumber (v : option byte) : number :=
  match v with
  | Some b => Int (Z.of_N (Byte.to_N b))
  | None => NaN
  end.

(** [data[offset]] on a [Uint8Array]: [undefined] when [offset] is not
    an index of the array (past the end, negative, or [NaN]). *)
Definition get (data : list byte) (offset : number) : option byte :=
  match offset with
  | Int z => if (z <? 0)%Z then None else nth_error data (Z.to_nat z)
  | NaN => None
  end.

(** The clamping [Buffer.prototype.slice] applies to each bound:
    [NaN] counts as 0, a negative bound counts from the end, a bound
    past the end is the end. *)
Definition adjustOffset (offset : number) (length : Z) : Z :=
  match offset with
  | NaN => 0
  | Int z =>
      if (z =? 0)%Z then 0
      else if (z <? 0)%Z then Z.max (z + length) 0
      else if (z <? length)%Z then z
      else length
  end%Z.

(** [data.slice(start, end)]: never raises; the result is empty when
    the clamped bounds cross. *)
Definition slice (data : list byte) (start end_ : number) : list byte :=
  let srcLength := Z.of_nat (List.length data) in
  let s := adjustOffset start srcLength in
  let e := adjustOffset end_ srcLength in
  let newLength := if (s <? e)%Z then (e - s)%Z else 0%Z in
  firstn (Z.to_nat newLength) (skipn (Z.to_nat s) data).

(** [s.startsWith(p)]. *)
Definition startsWith (s p : string) : bool := String.prefix p s.

(** [s.endsWith(p)]: the last [p.length] characters of [s] are [p]. *)
Definition endsWith (s p : string) : bool :=
  let n := String.length s in
  let m := String.length p in
  (m <=? n)%nat && String.eqb (String.substring (n - m) m s) p.

(** [s.replace(pat, repl)] with a string pattern: the first occurrence
    of [pat] is replaced, the rest of [s] is kept. *)
Fixpoint replace (s pat repl : string) {struct s} : string :=
  if String.prefix pat s then
    repl ++ String.substring (String.length pat) (String.length s - String.length pat) s
  else
    match s with
    | EmptyString => EmptyString
    | String c s' => String c (replace s' pat repl)
    end.

(** The white space [trim] removes, among the characters a [string]
    holds: TAB, LF, VT, FF, CR, space and NBSP. *)
Definition isWhiteSpace (c : ascii) : bool :=
  let n := nat_of_ascii c in
  ((9 <=? n) && (n <=? 13) || (n =? 32) || (n =? 160))%nat.

Fixpoint trimStart (s : string) : string :=
  match s with
  | EmptyString => EmptyString
  | String c s' => if isWhiteSpace c then trimStart s' else s
  end.

Fixpoint trimEnd (s : string) : string :=
  match s with
  | EmptyString => EmptyString
  | String c s' =>
      match trimEnd s' with
      | EmptyString => if isWhiteSpace c then EmptyString else String c EmptyString
      | t => String c t
      end
  end.

(** [s.trim()]. *)
Definition trim (s : string) : string := trimEnd (trimStart s).

(** Truthiness of a string: [""] is falsy. *)
Definition truthy (s : string) : bool :=
  match s with
  | EmptyString => false
  | String _ _ => true
  end.

End JS.

(** ** The platform functions [decodeMint] calls

    [Buffer.from(s, "base64")], [TextDecoder] and [bs58] belong to the
    platform and to an imported package, not to the repository; they
    are modelled here after their documented behaviour so that the
    decoder can be run on concrete payloads. *)

Definition byte_of_N (n : N) : byte :=
  match Byte.of_N (n mod 256) with
  | Some b => b
  | None => x00
  end.

Module Base64.

(** The value of one base64 character; both the standard and the
    URL-safe alphabet are accepted. *)
Definition unbase64 (c : ascii) : option N :=
  let n := N_of_ascii c in
  (if (65 <=? n) && (n <=? 90) then Some (n - 65)
   else if (97 <=? n) && (n <=? 122) then Some (n - 71)
   else if (48 <=? n) && (n <=? 57) then Some (n + 4)
   else if (n =? 43) || (n =? 45) then Some 62
   else if (n =? 47) || (n =? 95) then Some 63
   else None)%N.

(** The 6-bit values of the text: decoding stops at the first [=],
    and a character outside the alphabet is skipped. *)
Fixpoint sextets (s : string) : list N :=
  match s with
  | EmptyString => []
  | String c s' =>
      if Ascii.eqb c "="%char then []
      else match unbase64 c with
           | Some v => v :: sextets s'
           | None => sextets s'
           end
  end.

(** Four 6-bit values make three bytes; a tail of three makes two
    bytes, a tail of two makes one, a tail of one makes none. *)
Fixpoint pack (l : list N) : list byte :=
  match l with
  | a :: b :: c :: d :: rest =>
      byte_of_N (a * 4 + b / 16)
      :: byte_of_N ((b mod 16) * 16 + c / 4)
      :: byte_of_N ((c mod 4) * 64 + d)
      :: pack rest
  | [a; b; c] =>
      [byte_of_N (a * 4 + b / 16); byte_of_N ((b mod 16) * 16 + c / 4)]
  | [a; b] => [byte_of_N (a * 4 + b / 16)]
  | _ => []
  end%N.

(** [Buffer.from(data, "base64")]: it never raises on a string. *)
Definition decode (data : string) : list byte := pack (sextets data).

End Base64.

(** Text as [TextDecoder] yields it: a sequence of Unicode scalar
    values. *)
Definition text : Type := list N.

Module Utf8.

(** U+FFFD, emitted for every malformed sequence. *)
Definition REPLACEMENT : N := 65533.

(** U+FEFF, the byte order mark. *)
Definition BOM : N := 65279.

(** The UTF-8 decoder of the Encoding standard, non-fatal mode.
    [needed] counts the continuation bytes still expected, [cp] is the
    code point under construction, [lower] and [upper] bound the next
    continuation byte.  A byte that cannot continue a sequence ends it
    with U+FFFD and is then read again as the start of a sequence. *)
Fixpoint decode_from (bytes : list byte) (needed : nat) (cp lower upper : N)
  {struct bytes} : text :=
  match bytes with
  | [] =>
      match needed with
      | O => []
      | S _ => [REPLACEMENT]
      end
  | byte :: rest =>
      let b := Byte.to_N byte in
      let start :=
        (if b <=? 127 then b :: decode_from rest 0 0 128 191
         else if (194 <=? b) && (b <=? 223) then
           decode_from rest 1 (b - 192) 128 191
         else if (224 <=? b) && (b <=? 239) then
           decode_from rest 2 (b - 224)
             (if b =? 224 then 160 else 128) (if b =? 237 then 159 else 191)
         else if (240 <=? b) && (b <=? 244) then
           decode_from rest 3 (b - 240)
             (if b =? 240 then 144 else 128) (if b =? 244 then 143 else 191)
         else REPLACEMENT :: decode_from rest 0 0 128 191)%N in
      match needed with
      | O => start
      | S k =>
          if ((lower <=? b) && (b <=? upper))%N then
            let cp' := (cp * 64 + (b - 128))%N in
            match k with
            | O => cp' :: decode_from rest 0 0 128 191
            | S _ => decode_from rest k cp' 128 191
            end
          else REPLACEMENT :: start
      end
  end.

(** [new TextDecoder("utf-8").decode(bytes)]: the decoder is created
    with its defaults, so malformed input is replaced (never an error)
    and a byte order mark at the start of the output is dropped. *)
Definition decode (bytes : list byte) : text :=
  match decode_from bytes 0 0 128 191 with
  | c :: out => if (c =? BOM)%N then out else c :: out
  | [] => []
  end.

(** The UTF-8 bytes of one scalar value. *)
Definition encode_scalar (c : N) : list byte :=
  (if c <? 128 then [byte_of_N c]
   else if c <? 2048 then
     [byte_of_N (192 + c / 64); byte_of_N (128 + c mod 64)]
   else if c <? 65536 then
     [byte_of_N (224 + c / 4096); byte_of_N (128 + (c / 64) mod 64);
      byte_of_N (128 + c mod 64)]
   else
     [byte_of_N (240 + c / 262144); byte_of_N (128 + (c / 4096) mod 64);
      byte_of_N (128 + (c / 64) mod 64); byte_of_N (128 + c mod 64)])%N.

(** The UTF-8 bytes of a text, as a test builds a payload from its
    input strings. *)
Definition encode (t : text) : list byte := flat_map encode_scalar t.

(** Unicode scalar values: code points below 0x110000 that are not
    surrogates. *)
Definition scalar (c : N) : Prop :=
  (c < 55296 \/ 57344 <= c < 1114112)%N.

End Utf8.

Module Bs58.

Definition ALPHABET : string :=
  "123456789ABCDEFGHJKLMNPQRSTUVWXYZabcdefghijkmnopqrstuvwxyz".

Definition charAt (n : N) : ascii :=
  match String.get (N.to_nat n) ALPHABET with
  | Some c => c
  | None => "1"%char
  end.

Fixpoint zeroes (source : list byte) : nat :=
  match source with
  | x00 :: rest => S (zeroes rest)
  | _ => O
  end.

(** The bytes read as one big-endian number. *)
Definition toN (source : list byte) : N :=
  fold_left (fun acc b => acc * 256 + Byte.to_N b)%N source 0%N.

(** The base-58 digits of [n], most significant first, in front of
    [acc].  Two digits per byte are enough room for any buffer, which
    is what [fuel] counts. *)
Fixpoint digits (fuel : nat) (n : N) (acc : string) : string :=
  match fuel with
  | O => acc
  | S fuel' =>
      if (n =? 0)%N then acc
      else digits fuel' (n / 58)%N (String (charAt (n mod 58)%N) acc)
  end.

Fixpoint leader (n : nat) : string :=
  match n with
  | O => EmptyString
  | S n' => String "1"%char (leader n')
  end.

(** [bs58.encode(source)]: one ['1'] per leading zero byte, then the
    base-58 digits of the rest; the empty buffer gives [""]. *)
Definition encode (source : list byte) : string :=
  leader (zeroes source) ++ digits (2 * List.length source) (toN source) EmptyString.

End Bs58.

(** ** src/MintUtils.ts *)

(** The outcome of evaluating code that may raise. *)
Inductive completion (A : Type) : Type :=
| Normal (a : A)
| Throw.
Arguments Normal {A} a.
Arguments Throw {A}.

(** [class Mint]. *)
Record Mint : Type := mkMint {
  name : text;
  symbol : text;
  uri : text;
  mintAddress : string;
  bondingCurve : string;
  user : string
}.

(** The intermediate [result] object of [decodeMint]; each field holds
    the [data] of its entry. *)
Record decodedData : Type := mkDecodedData {
  d_program : string;
  d_name : text;
  d_symbol : text;
  d_uri : text;
  d_mint : string;
  d_bondingCurve : string;
  d_user : string
}.

(** [new Mint(decodedData)]. *)
Definition Mint_new (d : decodedData) : Mint :=
  {| name := d_name d; symbol := d_symbol d; uri := d_uri d;
     mintAddress := d_mint d; bondingCurve := d_bondingCurve d;
     user := d_user d |}.

(** The local function [readLengthPrefixedString]: the byte at
    [offset] is the length ([undefined] past the end), the next three
    bytes are skipped, and the returned offset is [offset + 4 + length]
    ([NaN] when the length was [undefined]). *)
Definition readLengthPrefixedString (data : list byte) (offset : JS.number)
  : text * JS.number :=
  let length := JS.ToNumber (JS.get data offset) in
  let offset := JS.add offset (JS.Int 4) in
  let stringData := Utf8.decode (JS.slice data offset (JS.add offset length)) in
  let offset := JS.add offset length in
  (stringData, offset).

(** The body of [decodeMint] after [Buffer.from]: the fields are read
    one after the other from the running [offset]. *)
Definition decodeBuffer (decoded : list byte) : Mint :=
  let offset := JS.Int 0 in
  let program := Bs58.encode (JS.slice decoded offset (JS.add offset (JS.Int 8))) in
  let offset := JS.add offset (JS.Int 8) in
  let name := readLengthPrefixedString decoded offset in
  let offset := snd name in
  let symbol := readLengthPrefixedString decoded offset in
  let offset := snd symbol in
  let uri := readLengthPrefixedString decoded offset in
  let offset := snd uri in
  let mint := Bs58.encode (JS.slice decoded offset (JS.add offset (JS.Int 32))) in
  let offset := JS.add offset (JS.Int 32) in
  let bondingCurve := Bs58.encode (JS.slice decoded offset (JS.add offset (JS.Int 32))) in
  let offset := JS.add offset (JS.Int 32) in
  let user := Bs58.encode (JS.slice decoded offset (JS.add offset (JS.Int 32))) in
  Mint_new
    {| d_program := program; d_name := fst name; d_symbol := fst symbol;
       d_uri := fst uri; d_mint := mint; d_bondingCurve := bondingCurve;
       d_user := user |}.

(** [decodeMint(data)].  No statement of its body can raise: the
    base64 reader skips what it does not know, [slice] clamps its
    bounds, the text decoder replaces malformed input and [bs58]
    accepts every buffer; so the completion is always [Normal]. *)
Definition decodeMint (data : string) : completion Mint :=
  let decoded := Base64.decode data in
  Normal (decodeBuffer decoded).

Definition dataPrefix : string := "Program data: G3KpTd7rY3".

Definition programSuccessLine : string :=
  "Program 6EF8rrecthR5Dkzon8Nwu78hRvfCKubJ14M5uBEwF6P success".

(** [processMintLog(logs)]: the loop over [i], written on the suffix
    [logs[i..]]; [nextLine] is [logs[i + 1]].  Only the first success
    line that is followed by a data line is decoded; the [catch] turns
    an error of [decodeMint] into [null]. *)
Fixpoint processMintLog (logs : list string) : option Mint :=
  match logs with
  | [] => None
  | line :: rest =>
      if String.eqb line programSuccessLine then
        match rest with
        | nextLine :: _ =>
            if JS.truthy nextLine && JS.startsWith nextLine dataPrefix then
              let encodedData :=
                JS.trim (JS.replace nextLine "Program data: " "") in
              match decodeMint encodedData with
              | Normal m => Some m
              | Throw => None
              end
            else processMintLog rest
        | [] => processMintLog rest
        end
      else processMintLog rest
  end.

(** [logs[i]] is the success line and [logs[i + 1]], which is [line],
    starts with the data prefix. *)
Definition mintPairAt (logs : list string) (i : nat) (line : string) : Prop :=
  nth_error logs i = Some programSuccessLine
  /\ nth_error logs (S i) = Some line
  /\ JS.startsWith line dataPrefix = true.

(** The buffer a test builds for the seven fields: the leading bytes,
    three strings each as a 4-byte little-endian length followed by
    the UTF-8 bytes, and three keys. *)
Definition u32le (n : N) : list byte :=
  [byte_of_N n; byte_of_N (n / 256); byte_of_N (n / 65536);
   byte_of_N (n / 16777216)]%N.

Definition lengthPrefixed (bytes : list byte) : list byte :=
  u32le (N.of_nat (List.length bytes)) ++ bytes.

Definition layout (lead : list byte) (name symbol uri : text)
  (mint bondingCurve user : list byte) : list byte :=
  lead ++ lengthPrefixed (Utf8.encode name) ++ lengthPrefixed (Utf8.encode symbol)
  ++ lengthPrefixed (Utf8.encode uri) ++ mint ++ bondingCurve ++ user.

(** An offset of [decodeMint] behind the eight leading bytes, or one
    that became [NaN]. *)
Definition behindLead (offset : JS.number) : Prop :=
  offset = JS.NaN \/ exists k, offset = JS.Int (Z.of_nat (8 + k)).

(** ** The platform's [Date]

    [new Date(ms).toISOString()] and [new Date(s).getTime()], after
    ECMAScript's date-time string format.  The parser reads the strings
    [toISOString] writes (the only ones the pipeline hands to it) and
    answers [NaN] on any other. *)

Module Date.

Local Open Scope Z_scope.

Definition msPerDay : Z := 86400000.

(** The largest time value of a valid [Date]. *)
Definition maxTime : Z := 8640000000000000.

Definition valid (ms : Z) : bool := (- maxTime <=? ms) && (ms <=? maxTime).

(** Year, month (1..12) and day of the month of a day number counted
    from 1970-01-01, in the proleptic Gregorian calendar. *)
Definition civil_from_days (z : Z) : Z * Z * Z :=
  let z := z + 719468 in
  let era := z / 146097 in
  let doe := z mod 146097 in
  let yoe := (doe - doe / 1460 + doe / 36524 - doe / 146096) / 365 in
  let doy := doe - (365 * yoe + yoe / 4 - yoe / 100) in
  let mp := (5 * doy + 2) / 153 in
  let d := doy - (153 * mp + 2) / 5 + 1 in
  let m := if mp <? 10 then mp + 3 else mp - 9 in
  let y := yoe + era * 400 + (if m <=? 2 then 1 else 0) in
  (y, m, d).

(** The day number of a calendar date. *)
Definition days_from_civil (y m d : Z) : Z :=
  let y := if m <=? 2 then y - 1 else y in
  let era := y / 400 in
  let yoe := y mod 400 in
  let doy := (153 * (if 2 <? m then m - 3 else m + 9) + 2) / 5 + d - 1 in
  let doe := yoe * 365 + yoe / 4 - yoe / 100 + doy in
  era * 146097 + doe - 719468.

Definition digit (n : Z) : ascii := ascii_of_nat (48 + Z.to_nat n).

(** The [k] low decimal digits of [n], most significant first. *)
Fixpoint pad (k : nat) (n : Z) : string :=
  match k with
  | O => EmptyString
  | S k' => String (digit ((n / 10 ^ Z.of_nat k') mod 10)) (pad k' n)
  end.

(** Four digits for the years 0 to 9999, a sign and six digits for
    the others. *)
Definition formatYear (y : Z) : string :=
  if (0 <=? y) && (y <=? 9999) then pad 4 y
  else if y <? 0 then String "-"%char (pad 6 (- y))
  else String "+"%char (pad 6 y).

(** The text [toISOString] writes for a valid time value. *)
Definition format (ms : Z) : string :=
  let '(y, m, d) := civil_from_days (ms / msPerDay) in
  let t := ms mod msPerDay in
  (formatYear y ++ String "-"%char (pad 2 m ++ String "-"%char (pad 2 d ++
   String "T"%char (pad 2 (t / 3600000) ++ String ":"%char (pad 2 ((t / 60000) mod 60) ++
   String ":"%char (pad 2 ((t / 1000) mod 60) ++ String "."%char (pad 3 (t mod 1000) ++
   "Z")))))))%string.

(** [new Date(ms).toISOString()]: a [RangeError] when the date is
    invalid, that is when [ms] is out of the range of time values. *)
Definition toISOString (ms : Z) : completion string :=
  if valid ms then Normal (format ms) else Throw.

Definition digitVal (c : ascii) : option Z :=
  let n := Z.of_nat (nat_of_ascii c) in
  if (48 <=? n) && (n <=? 57) then Some (n - 48) else None.

Fixpoint readDigits (k : nat) (s : string) (acc : Z) : option (Z * string) :=
  match k with
  | O => Some (acc, s)
  | S k' =>
      match s with
      | String c s' =>
          match digitVal c with
          | Some v => readDigits k' s' (acc * 10 + v)
          | None => None
          end
      | EmptyString => None
      end
  end.

Definition expect (c : ascii) (s : string) : option string :=
  match s with
  | String c' s' => if Ascii.eqb c c' then Some s' else None
  | EmptyString => None
  end.

Definition readYear (s : string) : option (Z * string) :=
  match s with
  | String "+"%char s' => readDigits 6 s' 0
  | String "-"%char s' =>
      match readDigits 6 s' 0 with
      | Some (y, r) => if y =? 0 then None else Some (- y, r)
      | None => None
      end
  | _ => readDigits 4 s 0
  end.

Definition bind {A B : Type} (x : option A) (f : A -> option B) : option B :=
  match x with
  | Some a => f a
  | None => None
  end.

Local Notation "' p <- x ;; k" := (bind x (fun p => k))
  (at level 61, p pattern, x at next level, right associativity).

(** The fields of a date-time string, when it has the form
    [YYYY-MM-DDTHH:mm:ss.sssZ] (or the six-digit year form). *)
Definition fields (s : string) : option (Z * Z * Z * Z * Z * Z * Z) :=
  '(y, s) <- readYear s ;;
  's <- expect "-"%char s ;;
  '(m, s) <- readDigits 2 s 0 ;;
  's <- expect "-"%char s ;;
  '(d, s) <- readDigits 2 s 0 ;;
  's <- expect "T"%char s ;;
  '(h, s) <- readDigits 2 s 0 ;;
  's <- expect ":"%char s ;;
  '(mi, s) <- readDigits 2 s 0 ;;
  's <- expect ":"%char s ;;
  '(sec, s) <- readDigits 2 s 0 ;;
  's <- expect "."%char s ;;
  '(milli, s) <- readDigits 3 s 0 ;;
  's <- expect "Z"%char s ;;
  match s with
  | EmptyString => Some (y, m, d, h, mi, sec, milli)
  | String _ _ => None
  end.

(** [new Date(s).getTime()]: the time value, or [NaN] for an invalid
    date. *)
Definition parse (s : string) : JS.number :=
  match fields s with
  | Some (y, m, d, h, mi, sec, milli) =>
      if (1 <=? m) && (m <=? 12) && (1 <=? d) && (d <=? 31)
         && ((h <=? 23) || ((h =? 24) && (mi =? 0) && (sec =? 0) && (milli =? 0)))
         && (mi <=? 59) && (sec <=? 59)
      then
        let ms := days_from_civil y m d * msPerDay
                  + h * 3600000 + mi * 60000 + sec * 1000 + milli in
        if valid ms then JS.Int ms else JS.NaN
      else JS.NaN
  | None => JS.NaN
  end.

(** The calendar functions on one 400-year era, for the proof that
    [days_from_civil] undoes [civil_from_days]: the fields of the day
    [doe] of the era, and the day of the era of a date. *)
Definition eraFields (doe : Z) : Z * Z * Z :=
  let yoe := (doe - doe / 1460 + doe / 36524 - doe / 146096) / 365 in
  let doy := doe - (365 * yoe + yoe / 4 - yoe / 100) in
  let mp := (5 * doy + 2) / 153 in
  let d := doy - (153 * mp + 2) / 5 + 1 in
  let m := if mp <? 10 then mp + 3 else mp - 9 in
  (yoe, m, d).

Definition eraDay (yoe m d : Z) : Z :=
  let doy := (153 * (if 2 <? m then m - 3 else m + 9) + 2) / 5 + d - 1 in
  yoe * 365 + yoe / 4 - yoe / 100 + doy.

Definition eraOk (doe : Z) : bool :=
  let '(yoe, m, d) := eraFields doe in
  (0 <=? yoe) && (yoe <=? 399) && (1 <=? m) && (m <=? 12) && (1 <=? d) && (d <=? 31)
  && (eraDay yoe m d =? doe).

(** [p] holds of the [n] integers from [z] on. *)
Fixpoint allFrom (n : nat) (z : Z) (p : Z -> bool) : bool :=
  match n with
  | O => true
  | S n' => p z && allFrom n' (z + 1) p
  end.

End Date.

(** ** Awaited promises

    An [async] function is a tree: it either returns, or awaits an
    operation of the outside world and goes on with the answer.  The
    tree is inductive, so an operation that is awaited is always
    answered and a handler always settles.  A handler settles with a
    value: a rejected promise has no counterpart here.  This is the
    case of [extractTransactionInfo], whose body is one [try] block
    that catches every error, the handler the program passes to
    [withConcurrency]. *)

Section Proc.

Context {E : Type} {Ans : E -> Type}.

Inductive proc (R : Type) : Type :=
| Ret (r : R)
| Await (e : E) (k : Ans e -> proc R).

(** [returns p r]: some sequence of answers makes [p] return [r]. *)
Inductive returns {R : Type} : proc R -> R -> Prop :=
| returns_Ret : forall r, returns (Ret R r) r
| returns_Await : forall e k a r, returns (k a) r -> returns (Await R e k) r.

(** One execution of [p]: the [n]-th operation awaited since the start
    is answered by [env n].  The result comes with the operations that
    were awaited, in order. *)
Fixpoint run {R : Type} (p : proc R) (env : nat -> forall e : E, Ans e) (n : nat)
  : R * list E :=
  match p with
  | Ret _ r => (r, [])
  | Await _ e k =>
      let '(r, trace) := run (k (env n e)) env (S n) in
      (r, e :: trace)
  end.

End Proc.

Arguments proc {E} Ans R.
Arguments Ret {E Ans R} r.
Arguments Await {E Ans R} e k.

(** ** src/pumpfinder.ts *)

Module Config.

(** [CONFIG.CONCURRENCY || 25], as the number of workers the pool of
    [main] gets from it.  The setting is a number of [config.json] or
    is missing.  A missing setting and 0 are falsy and give 25; every
    other number is kept by [||], also a negative one and a fraction,
    and [Array.from({ length: CONCURRENCY }, ...)] starts as many
    workers as its integer part says, none when the number is below
    1. *)
Definition CONCURRENCY (configured : option Q) : nat :=
  match configured with
  | Some q => if Qeq_bool q 0 then 25 else Z.to_nat (Qfloor q)
  | None => 25
  end.

Definition START_BEFORE_SIGNATURE : string :=
  "nQWNjnJMVGFaqA7CzQQQMzM6gqacJTnzzFZHyKk1PM4H2axjR973jtMjvnVjVW7KjBPU1p7vBTZrAgsKtwozJZS".

Definition BATCH_SIZE : nat := 1000.

#[warnings="-abstract-large-number"] Definition TOTAL : nat := 20000.

End Config.

(** [ParsedTransactionWithMeta], as far as the program reads it. *)
Record ParsedTransactionMeta : Type := mkMeta {
  logMessages : option (list string)
}.

Record ParsedTransactionWithMeta : Type := mkTx {
  meta : option ParsedTransactionMeta;
  blockTime : option Z
}.

(** The resolved case of [ExtractedResult]. *)
Record Extracted : Type := mkExtracted {
  signature : string;
  tokenAddress : string;
  timestamp : option string
}.

(** [type ExtractedResult]: a resolved record, [{ skipped: true }], or
    [null]. *)
Inductive ExtractedResult : Type :=
| Resolved (tx : Extracted)
| Skipped
| Null.

(** The operations [extractTransactionInfo] awaits. *)
Inductive rpc : Type :=
| getParsedTransaction (signature : string)
| setTimeout (ms : Z).

(** What each operation answers: the RPC call fulfils with a
    transaction or [null], or rejects; the timer just fires. *)
Definition rpc_answer (e : rpc) : Type :=
  match e with
  | getParsedTransaction _ => completion (option ParsedTransactionWithMeta)
  | setTimeout _ => unit
  end.

(** [tx?.meta?.logMessages]. *)
Definition logMessagesOf (tx : option ParsedTransactionWithMeta)
  : option (list string) :=
  match tx with
  | Some t =>
      match meta t with
      | Some m => logMessages m
      | None => None
      end
  | None => None
  end.

(** Lines 53-64: what the [try] block does once the log messages are
    there.  The time stamp is computed before the mint is looked at,
    and only for a truthy [blockTime] (so not for 0); [toISOString]
    may raise. *)
Definition resolve (signature : string) (tx : ParsedTransactionWithMeta)
  (logs : list string) : completion ExtractedResult :=
  let mint := processMintLog logs in
  let blockTime :=
    match blockTime tx with
    | Some t =>
        if (t =? 0)%Z then Normal None
        else match Date.toISOString (t * 1000) with
             | Normal s => Normal (Some s)
             | Throw => Throw
             end
    | None => Normal None
    end in
  match blockTime with
  | Throw => Throw
  | Normal blockTime =>
      match mint with
      | Some m =>
          if JS.truthy (mintAddress m) then
            Normal (Resolved {| signature := signature;
                                tokenAddress := mintAddress m;
                                timestamp := blockTime |})
          else Normal Skipped
      | None => Normal Skipped
      end
  end.

(** One attempt: the call, then either a result or [retry], which
    stands for the block [if (attempt < 3) { ... } else { return null }]
    that the source writes twice, once for missing log messages and
    once in [catch]. *)
Definition attemptOnce (signature : string) (retry : proc rpc_answer ExtractedResult)
  : proc rpc_answer ExtractedResult :=
  Await (getParsedTransaction signature) (fun answer =>
    match answer with
    | Throw => retry
    | Normal tx =>
        match logMessagesOf tx, tx with
        | Some logs, Some t =>
            match resolve signature t logs with
            | Normal r => Ret r
            | Throw => retry
            end
        | _, _ => retry
        end
    end).

(** [extractTransactionInfo(signature, attempt)].  The recursion ends
    because [3 - attempt] decreases. *)
Equations extractTransactionInfo (signature : string) (attempt : nat)
  : proc rpc_answer ExtractedResult by wf (3 - attempt) lt :=
extractTransactionInfo signature attempt :=
  attemptOnce signature
    (match lt_dec attempt 3 with
     | left _ =>
         Await (setTimeout 100) (fun _ =>
           extractTransactionInfo signature (attempt + 1))
     | right _ => Ret Null
     end).
Next Obligation.
destruct attempt as [|[|[|n]]]; simpl; lia.
Qed.

(** What one answer of [getParsedTransaction] leads to: a result, or
    [None] when the attempt is to be made again. *)
Definition attemptResult (signature : string)
  (answer : completion (option ParsedTransactionWithMeta)) : option ExtractedResult :=
  match answer with
  | Throw => None
  | Normal tx =>
      match logMessagesOf tx, tx with
      | Some logs, Some t =>
          match resolve signature t logs with
          | Normal r => Some r
          | Throw => None
          end
      | _, _ => None
      end
  end.

(** The answer carries no log messages, or the call raised. *)
Definition missing (answer : completion (option ParsedTransactionWithMeta)) : Prop :=
  match answer with
  | Throw => True
  | Normal tx => logMessagesOf tx = None
  end.

(** The operations of [n] attempts: the calls, with a pause of 100 ms
    between two of them. *)
Fixpoint attempts (signature : string) (n : nat) : list rpc :=
  match n with
  | O => []
  | 1 => [getParsedTransaction signature]
  | S n' => getParsedTransaction signature :: setTimeout 100 :: attempts signature n'
  end.

Definition isFetch (e : rpc) : bool :=
  match e with
  | getParsedTransaction _ => true
  | setTimeout _ => false
  end.

(** The time stamp of a resolved record, when there is one, is the
    text [toISOString] writes for a valid time value. *)
Definition wellStamped (r : ExtractedResult) : Prop :=
  match r with
  | Resolved tx =>
      match timestamp tx with
      | Some ts => exists ms, Date.valid ms = true /\ ts = Date.format ms
      | None => True
      end
  | Skipped | Null => True
  end.

(** The time stamp [extractTransactionInfo] writes for the execution
    time [blockTime] when the conversion does not raise. *)
Definition timestampOf (blockTime : option Z) : option string :=
  match blockTime with
  | Some t => if (t =? 0)%Z then None else Some (Date.format (t * 1000))
  | None => None
  end.

(** *** [withConcurrency]

    The state of one call: the shared [index] and [results], and for
    each of the [concurrency] workers either the promise it awaits
    (with the index [i] it claimed) or the fact that its loop ended.
    JavaScript runs one worker at a time, from one [await] to the
    next, so a step is one worker being resumed. *)

Section WithConcurrency.

Context {E : Type} {Ans : E -> Type} {T R : Type}.
Variable items : list T.
Variable handler : T -> proc Ans R.
Variable concurrency : nat.

Inductive worker : Type :=
| Awaiting (i : nat) (promise : proc Ans R)
| Exited.

Record pool : Type := mkPool {
  index : nat;
  results : list R;
  workers : list worker
}.

(** The loop head of [worker]: while [index < items.length], take
    [i = index++] and call [handler(items[i])]; otherwise return. *)
Definition claim (index : nat) : nat * worker :=
  match nth_error items index with
  | Some item => (S index, Awaiting index (handler item))
  | None => (index, Exited)
  end.

(** [Array.from({ length: n }, () => worker())]: the workers are
    started one after the other, each running up to its first
    [await]. *)
Fixpoint launch (n : nat) (index : nat) : nat * list worker :=
  match n with
  | O => (index, [])
  | S n' =>
      let '(index, w) := claim index in
      let '(index, ws) := launch n' index in
      (index, w :: ws)
  end.

Definition start : pool :=
  let '(index, ws) := launch concurrency 0 in
  {| index := index; results := []; workers := ws |}.

Fixpoint setWorker (n : nat) (w : worker) (ws : list worker) : list worker :=
  match ws, n with
  | [], _ => []
  | _ :: ws', O => w :: ws'
  | w' :: ws', S n' => w' :: setWorker n' w ws'
  end.

(** A step of the event loop.  [step_answer]: the operation a worker's
    handler awaits is answered, and the handler runs on to its next
    [await] or to its end.  [step_resume]: the handler of worker [n]
    has returned [r]; the worker pushes [r] and goes round its loop. *)
Inductive step : pool -> pool -> Prop :=
| step_answer : forall st n i e k (a : Ans e),
    nth_error (workers st) n = Some (Awaiting i (Await e k)) ->
    step st {| index := index st;
               results := results st;
               workers := setWorker n (Awaiting i (k a)) (workers st) |}
| step_resume : forall st n i r,
    nth_error (workers st) n = Some (Awaiting i (Ret r)) ->
    step st {| index := fst (claim (index st));
               results := results st ++ [r];
               workers := setWorker n (snd (claim (index st))) (workers st) |}.

(** The states a call can be in. *)
Inductive reachable : pool -> Prop :=
| reachable_start : reachable start
| reachable_step : forall st st', reachable st -> step st st' -> reachable st'.

(** [Promise.all] is fulfilled: every worker has returned, and
    [withConcurrency] returns [results]. *)
Definition settled (st : pool) : Prop :=
  forall w, In w (workers st) -> w = Exited.

(** Every execution from [st] is finite. *)
Inductive halts : pool -> Prop :=
| halts_intro : forall st, (forall st', step st st' -> halts st') -> halts st.

Definition isAwaiting (w : worker) : bool :=
  match w with
  | Awaiting _ _ => true
  | Exited => false
  end.

(** The number of handler calls that have not settled yet. *)
Definition inFlight (st : pool) : nat :=
  List.length (filter isAwaiting (workers st)).

(** The indices whose handler call has not settled. *)
Definition awaited (ws : list worker) : list nat :=
  flat_map (fun w => match w with Awaiting i _ => [i] | Exited => [] end) ws.

(** [r] is a value [handler(items[i])] can settle with. *)
Definition answers (i : nat) (r : R) : Prop :=
  exists x, nth_error items i = Some x /\ returns (handler x) r.

(** A worker that awaits holds an index of [items], and what its
    promise can still settle with is a value of the handler on that
    item. *)
Definition pending (w : worker) : Prop :=
  match w with
  | Awaiting i p =>
      exists x, nth_error items i = Some x
                /\ forall r, returns p r -> returns (handler x) r
  | Exited => True
  end.

(** The invariant of a call: [done] lists the indices whose results
    were pushed, in the order of [results]; with the indices that are
    awaited they are exactly the indices claimed so far; and a worker
    has returned only if nothing was left to claim. *)
Record invariant (st : pool) (done : list nat) : Prop := {
  inv_workers : List.length (workers st) = concurrency;
  inv_index : index st <= List.length items;
  inv_results : Forall2 answers done (results st);
  inv_claimed : Permutation (done ++ awaited (workers st)) (seq 0 (index st));
  inv_pending : Forall pending (workers st);
  inv_exited : In Exited (workers st) -> index st = List.length items
}.

(** [wsAcc ws]: the handlers of [ws] settle, in whatever order the
    answers come, when no new item is claimed. *)
Inductive wsAcc : list worker -> Prop :=
| wsAcc_intro : forall ws,
    (forall n i e k (a : Ans e),
        nth_error ws n = Some (Awaiting i (Await e k)) ->
        wsAcc (setWorker n (Awaiting i (k a)) ws)) ->
    (forall n i r,
        nth_error ws n = Some (Awaiting i (Ret r)) ->
        wsAcc (setWorker n Exited ws)) ->
    wsAcc ws.

(** [q] is [p] one answer later. *)
Definition after (p q : proc Ans R) : Prop :=
  match p with
  | Ret _ => False
  | Await e k => exists a, q = k a
  end.

(** With one worker: the worker holds the index before [index], and
    the results so far are values of the handler on the items before
    that index, in their order. *)
Definition inOrder (st : pool) : Prop :=
  match workers st with
  | [Awaiting i p] =>
      index st = S i
      /\ (exists x, nth_error items i = Some x
                    /\ forall r, returns p r -> returns (handler x) r)
      /\ Forall2 (fun x r => returns (handler x) r) (firstn i items) (results st)
  | [Exited] =>
      index st = List.length items
      /\ Forall2 (fun x r => returns (handler x) r) items (results st)
  | _ => False
  end.

End WithConcurrency.

Arguments Awaiting {E Ans R} i promise.
Arguments Exited {E Ans R}.

(** The worker awaits the answer of the node to a call of
    [getParsedTransaction]. *)
Definition isFetching {R : Type} (w : @worker rpc rpc_answer R) : bool :=
  match w with
  | Awaiting _ (Await (getParsedTransaction _) _) => true
  | _ => false
  end.

(** The number of calls of the node that are in flight. *)
Definition fetchesInFlight {R : Type} (st : @pool rpc rpc_answer R) : nat :=
  List.length (filter isFetching (workers st)).

(** *** [main]: collecting the signatures *)

Section Collect.

(** [TOTAL] and [BATCH_SIZE] of the source, left open here; [main]
    below fixes them. *)
Variables TOTAL BATCH_SIZE : nat.

(** The answer of the RPC node to the [k]-th call
    [getSignatures(before, limit)] of the run. *)
Variable getSignatures : nat -> string -> nat -> list string.

(** The [while] loop of [main], entered for the [k]-th time.  The
    result is [fetchedSignatures] at the end of the loop, with the
    [(before, limit)] of every call made. *)
Equations collect (k : nat) (before : string) (fetchedSignatures : list string)
  : list string * list (string * nat)
  by wf (TOTAL - List.length fetchedSignatures) lt :=
collect k before fetchedSignatures
  with lt_dec (List.length fetchedSignatures) TOTAL := {
  | right _ => (fetchedSignatures, [])
  | left _
      with getSignatures k before
             (Nat.min BATCH_SIZE (TOTAL - List.length fetchedSignatures)) := {
      | [] =>
          (fetchedSignatures,
           [(before, Nat.min BATCH_SIZE (TOTAL - List.length fetchedSignatures))])
      | s :: sigs =>
          let '(fetched, calls) :=
            collect (S k) (last (s :: sigs) before)
              (fetchedSignatures ++ s :: sigs) in
          (fetched,
           (before, Nat.min BATCH_SIZE (TOTAL - List.length fetchedSignatures))
           :: calls) } }.
Next Obligation.
rewrite length_app. simpl. lia.
Qed.

(** The pages the source gave to the calls [calls], the first of
    which is the [k]-th call of the run. *)
Fixpoint pagesOf (k : nat) (calls : list (string * nat)) : list (list string) :=
  match calls with
  | [] => []
  | (before, limit) :: rest => getSignatures k before limit :: pagesOf (S k) rest
  end.

(** What a run of the loop from the state [(k, before, fetched0)]
    satisfies. *)
Definition collected (k : nat) (before : string) (fetched0 : list string)
  (result : list string * list (string * nat)) : Prop :=
  let '(fetched, calls) := result in
  let pages := pagesOf k calls in
  fetched = fetched0 ++ List.concat pages
  /\ (forall j b l, nth_error calls j = Some (b, l) ->
        let sofar := fetched0 ++ List.concat (firstn j pages) in
        List.length sofar < TOTAL
        /\ l = Nat.min BATCH_SIZE (TOTAL - List.length sofar)
        /\ b = last (List.concat (firstn j pages)) before)
  /\ (forall j page, nth_error pages j = Some page ->
        S j < List.length pages -> page <> [])
  /\ (TOTAL <= List.length fetched \/ exists pre, pages = pre ++ [[]])
  /\ ((forall j b l, nth_error calls j = Some (b, l) ->
         List.length (getSignatures (k + j) b l) <= l) ->
      List.length fetched0 <= TOTAL -> List.length fetched <= TOTAL).

End Collect.

(** *** [main]: the batches *)

(** [Array.prototype.sort(cmp)]: the sort is stable and [cmp] is
    consistent here, so the result is the one insertion gives.  [x] is
    placed in front of the first element that is not smaller. *)
Fixpoint insertSorted {A : Type} (cmp : A -> A -> JS.number) (x : A) (l : list A)
  : list A :=
  match l with
  | [] => [x]
  | y :: l' =>
      if JS.lt (cmp y x) (JS.Int 0) then y :: insertSorted cmp x l'
      else x :: y :: l'
  end.

Definition sort {A : Type} (cmp : A -> A -> JS.number) (l : list A) : list A :=
  fold_right (insertSorted cmp) [] l.

(** [new Date(timestamp).getTime()]; [new Date(null)] is the epoch. *)
Definition getTime (timestamp : option string) : JS.number :=
  match timestamp with
  | Some s => Date.parse s
  | None => JS.Int 0
  end.

(** The comparison function handed to [sort]. *)
Definition byTime (a b : Extracted) : JS.number :=
  let aTime := getTime (timestamp a) in
  let bTime := getTime (timestamp b) in
  JS.sub aTime bTime.

(** The first [filter] of [validMints]: [tx !== null && !("skipped" in tx)]. *)
Fixpoint resolvedOnly (parsed : list ExtractedResult) : list Extracted :=
  match parsed with
  | [] => []
  | Resolved tx :: rest => tx :: resolvedOnly rest
  | _ :: rest => resolvedOnly rest
  end.

Definition hasTimestamp (tx : Extracted) : bool :=
  match timestamp tx with
  | Some _ => true
  | None => false
  end.

Definition validMintsOf (parsed : list ExtractedResult) : list Extracted :=
  sort byTime (filter hasTimestamp (resolvedOnly parsed)).

Definition isSkipped (tx : ExtractedResult) : bool :=
  match tx with
  | Skipped => true
  | _ => false
  end.

Definition isPump (tx : Extracted) : bool := JS.endsWith (tokenAddress tx) "pump".

(** [oldestPumpToken]'s value when it is not [null]. *)
Record PumpToken : Type := mkPumpToken {
  pt_tokenAddress : string;
  pt_timestamp : string
}.

(** The variables [main] keeps across the batches. *)
Record totals : Type := mkTotals {
  totalPumpCount : nat;
  totalValid : nat;
  totalSkipped : nat;
  oldestPumpToken : option PumpToken
}.

Definition initialTotals : totals :=
  {| totalPumpCount := 0; totalValid := 0; totalSkipped := 0;
     oldestPumpToken := None |}.

(** What [main] prints and writes, one constructor per statement. *)
Inductive output : Type :=
| BatchHeader (number totalBatches : nat)
| PumpTokensFound (n : nat)
| OldestInBatch (tokenAddress : string) (timestamp : option string)
| NoPumpInBatch
| SkippedInBatch (n : nat)
| WriteBatchFile (number : nat) (validMints : list Extracted)
| Summary (totalPumpCount totalValid : nat)
| SkippedTotal (totalSkipped : nat)
| FirstPumpToken (tokenAddress timestamp : string)
| NoPumpTokenFound.

(** One turn of [for (const tx of pumpCAs)]: the record replaces
    [oldestPumpToken] when there is none yet or when its time is
    strictly smaller. *)
Definition updateOldest (oldestPumpToken : option PumpToken) (tx : Extracted)
  : option PumpToken :=
  match timestamp tx with
  | Some ts =>
      if JS.truthy ts then
        match oldestPumpToken with
        | None => Some {| pt_tokenAddress := tokenAddress tx; pt_timestamp := ts |}
        | Some o =>
            if JS.lt (Date.parse ts) (Date.parse (pt_timestamp o))
            then Some {| pt_tokenAddress := tokenAddress tx; pt_timestamp := ts |}
            else oldestPumpToken
        end
      else oldestPumpToken
  | None => oldestPumpToken
  end.

(** The body of the [for] loop over the batches, from the results
    [parsed] of [withConcurrency] on: the new totals and what the turn
    prints and writes. *)
Definition processBatch (i totalBatches : nat) (t : totals)
  (parsed : list ExtractedResult) : totals * list output :=
  let validMints := validMintsOf parsed in
  let skippedCount := List.length (filter isSkipped parsed) in
  let pumpCAs := filter isPump validMints in
  let oldest := hd_error pumpCAs in
  ({| totalPumpCount := totalPumpCount t + List.length pumpCAs;
      totalValid := totalValid t + List.length validMints;
      totalSkipped := totalSkipped t + skippedCount;
      oldestPumpToken := fold_left updateOldest pumpCAs (oldestPumpToken t) |},
   [BatchHeader (i + 1) totalBatches; PumpTokensFound (List.length pumpCAs)]
   ++ match oldest with
      | Some o => [OldestInBatch (tokenAddress o) (timestamp o)]
      | None => [NoPumpInBatch]
      end
   ++ (if (0 <? skippedCount)%nat then [SkippedInBatch skippedCount] else [])
   ++ [WriteBatchFile (i + 1) validMints]).

(** The batches in turn; [batches] holds, for each turn of the loop,
    what [await withConcurrency(...)] gave. *)
Fixpoint batchLoop (i totalBatches : nat) (t : totals)
  (batches : list (list ExtractedResult)) : totals * list output :=
  match batches with
  | [] => (t, [])
  | parsed :: rest =>
      let '(t', out) := processBatch i totalBatches t parsed in
      let '(t'', out') := batchLoop (S i) totalBatches t' rest in
      (t'', out ++ out')
  end.

(** The lines [main] prints after the loop. *)
Definition finalReport (t : totals) : list output :=
  [Summary (totalPumpCount t) (totalValid t); SkippedTotal (totalSkipped t)]
  ++ match oldestPumpToken t with
     | Some o => [FirstPumpToken (pt_tokenAddress o) (pt_timestamp o)]
     | None => [NoPumpTokenFound]
     end.

(** The output is a file that is written. *)
Definition isWrite (o : output) : bool :=
  match o with
  | WriteBatchFile _ _ => true
  | _ => false
  end.

(** [pumpCAs] of a batch. *)
Definition pumpCAsOf (parsed : list ExtractedResult) : list Extracted :=
  filter isPump (validMintsOf parsed).

(** The matching records of a run: resolved, with a time stamp, and
    with a token address that ends in "pump". *)
Definition matching (batches : list (list ExtractedResult)) : list Extracted :=
  filter isPump (filter hasTimestamp (resolvedOnly (List.concat batches))).

(** The time stamp of [tx] is a text of the time value [ms]. *)
Definition stampedAt (tx : Extracted) (ms : Z) : Prop :=
  exists ts, timestamp tx = Some ts /\ Date.parse ts = JS.Int ms.

(** The time of [a] is not later than the time of [b]. *)
Definition notLater (a b : Extracted) : Prop :=
  exists ta tb, stampedAt a ta /\ stampedAt b tb /\ (ta <= tb)%Z.

(** [o] was taken from a record of [l], and no record of [l] is
    earlier. *)
Definition oldestOf (l : list Extracted) (o : PumpToken) : Prop :=
  exists tx ms,
    In tx l /\ tokenAddress tx = pt_tokenAddress o
    /\ timestamp tx = Some (pt_timestamp o)
    /\ Date.parse (pt_timestamp o) = JS.Int ms
    /\ forall tx', In tx' l -> exists ms', stampedAt tx' ms' /\ (ms <= ms')%Z.

(** The time of the oldest pump token. *)
Definition oldestTime (t : totals) : option JS.number :=
  option_map (fun o => Date.parse (pt_timestamp o)) (oldestPumpToken t).

(** [tx] is a record of some batch that is resolved with a time stamp
    and whose token address ends in "pump". *)
Definition matchingRecord (batches : list (list ExtractedResult)) (tx : Extracted)
  : Prop :=
  (exists parsed, In parsed batches /\ In (Resolved tx) parsed)
  /\ (exists ts, timestamp tx = Some ts)
  /\ JS.endsWith (tokenAddress tx) "pump" = true.

Section Main.

Variables TOTAL BATCH_SIZE CONCURRENCY : nat.

(** [Math.ceil(fetchedSignatures.length / BATCH_SIZE)], for a positive
    [BATCH_SIZE]. *)
Definition totalBatchesOf (fetchedSignatures : list string) : nat :=
  (List.length fetchedSignatures + BATCH_SIZE - 1) / BATCH_SIZE.

(** [fetchedSignatures.slice(i * BATCH_SIZE, (i + 1) * BATCH_SIZE)]. *)
Definition batchSigs (fetchedSignatures : list string) (i : nat) : list string :=
  firstn BATCH_SIZE (skipn (i * BATCH_SIZE) fetchedSignatures).

(** [parsed] is a value [withConcurrency(batchSigs, extractTransactionInfo,
    CONCURRENCY)] can return: the [results] of a settled state. *)
Definition withConcurrencyReturns (sigs : list string)
  (parsed : list ExtractedResult) : Prop :=
  exists st,
    reachable sigs (fun s => extractTransactionInfo s 1) CONCURRENCY st
    /\ settled st /\ results st = parsed.

(** [batches] are the results of the calls of [withConcurrency] in a
    run of the loop over [fetchedSignatures], from turn [i] on. *)
Fixpoint batchesFrom (fetchedSignatures : list string) (i : nat)
  (batches : list (list ExtractedResult)) : Prop :=
  match batches with
  | [] => True
  | parsed :: rest =>
      withConcurrencyReturns (batchSigs fetchedSignatures i) parsed
      /\ batchesFrom fetchedSignatures (S i) rest
  end.

(** A run of [main]: the signature source answers [getSignatures],
    the loop over the batches gets [batches] from [withConcurrency],
    and [out] is what is printed and written from the loop on. *)
Definition mainRun (getSignatures : nat -> string -> nat -> list string)
  (before : string) (batches : list (list ExtractedResult))
  (out : list output) : Prop :=
  let fetchedSignatures :=
    fst (collect TOTAL BATCH_SIZE getSignatures 0 before []) in
  let totalBatches := totalBatchesOf fetchedSignatures in
  List.length batches = totalBatches
  /\ batchesFrom fetchedSignatures 0 batches
  /\ out = (let '(t, out) := batchLoop 0 totalBatches initialTotals batches in
            out ++ finalReport t).

End Main.

(** [main], with the constants of the source and the configured
    concurrency. *)
Definition main (configured : option Q)
  (getSignatures : nat -> string -> nat -> list string) :=
  mainRun Config.TOTAL Config.BATCH_SIZE (Config.CONCURRENCY configured)
    getSignatures Config.START_BEFORE_SIGNATURE.

(** ** Sample inputs

    Payloads, log lines and transactions used by the examples of
    Part II. *)

Module Sample.

(** The discriminator of the event, the first eight bytes of every
    payload. *)
Definition lead : list byte := [x1b; x72; xa9; x4d; xde; xeb; x63; x76].

(** A whole event: "TokA", "TA", a 14-byte uri and three keys; the
    mint key is [7GCi...pump]. *)
Definition payloadA : string :=
  "G3KpTd7rY3YEAAAAVG9rQQIAAABUQQ4AAABodHRwczovL3guaW8vYV0LFZr/y8zxZcCbwvXUuvtKpjRa95O5syItqkApcsrvAQIDBAUGBwgJCgsMDQ4PEBESExQVFhcYGRobHB0eHyAhIiMkJSYnKCkqKywtLi8wMTIzNDU2Nzg5Ojs8PT4/QA==".

(** A second event, with the mint key [9BB6...pump]. *)
Definition payloadB : string :=
  "G3KpTd7rY3YEAAAAVG9rQgIAAABUQg4AAABodHRwczovL3guaW8vYnl4txRFPNPoeusfwJvwZ/ls0tTWm1cTlaqb8Yav+do/AQIDBAUGBwgJCgsMDQ4PEBESExQVFhcYGRobHB0eHyAhIiMkJSYnKCkqKywtLi8wMTIzNDU2Nzg5Ojs8PT4/QA==".

(** An event whose buffer stops 20 bytes early, inside the [user]
    key. *)
Definition payloadCut : string :=
  "G3KpTd7rY3YEAAAAVG9rQQIAAABUQQEAAAB1XQsVmv/LzPFlwJvC9dS6+0qmNFr3k7mzIi2qQClyyu8BAgMEBQYHCAkKCwwNDg8QERITFBUWFxgZGhscHR4fICEiIyQlJicoKSorLA==".

(** An event whose name is U+FEFF followed by "T". *)
Definition payloadBOM : string :=
  "G3KpTd7rY3YEAAAA77u/VAEAAABTAQAAAHUBAgMEBQYHCAkKCwwNDg8QERITFBUWFxgZGhscHR4fIAECAwQFBgcICQoLDA0ODxAREhMUFRYXGBkaGxwdHh8gAQIDBAUGBwgJCgsMDQ4PEBESExQVFhcYGRobHB0eHyA=".

(** The 32 bytes 1, 2, ..., 32. *)
Definition key : list byte :=
  [x01; x02; x03; x04; x05; x06; x07; x08; x09; x0a; x0b; x0c; x0d; x0e; x0f; x10;
   x11; x12; x13; x14; x15; x16; x17; x18; x19; x1a; x1b; x1c; x1d; x1e; x1f; x20].

(** The keys of [payloadA]. *)
Definition mintA : list byte :=
  [x5d; x0b; x15; x9a; xff; xcb; xcc; xf1; x65; xc0; x9b; xc2; xf5; xd4; xba; xfb;
   x4a; xa6; x34; x5a; xf7; x93; xb9; xb3; x22; x2d; xaa; x40; x29; x72; xca; xef].

Definition userA : list byte :=
  [x21; x22; x23; x24; x25; x26; x27; x28; x29; x2a; x2b; x2c; x2d; x2e; x2f; x30;
   x31; x32; x33; x34; x35; x36; x37; x38; x39; x3a; x3b; x3c; x3d; x3e; x3f; x40].

(** "TokA", "TA" and "https://x.io/a". *)
Definition nameA : text := [84; 111; 107; 65]%N.
Definition symbolA : text := [84; 65]%N.
Definition uriA : text :=
  [104; 116; 116; 112; 115; 58; 47; 47; 120; 46; 105; 111; 47; 97]%N.

(** The log messages of a transaction that emitted [payload]. *)
Definition logsOf (payload : string) : list string :=
  ["Program 6EF8rrecthR5Dkzon8Nwu78hRvfCKubJ14M5uBEwF6P invoke [1]";
   programSuccessLine;
   String.append "Program data: " payload].

Definition txOf (payload : string) (blockTime : option Z)
  : ParsedTransactionWithMeta :=
  {| meta := Some {| logMessages := Some (logsOf payload) |};
     blockTime := blockTime |}.

Definition addressA : string := "7GCihgDB8fe6KNjn2MYtkzZcRjQy3t9GHdC8uHYmpump".
Definition addressB : string := "9BB6NFEcjBCtnNLFko2FqVQBq8HHM13kCyYcdQbgpump".

(** The outside world of one call: every timer fires, and the [n]-th
    operation, when it is a call of the node, gets [answer n]. *)
Definition world (answer : nat -> completion (option ParsedTransactionWithMeta))
  (n : nat) (e : rpc) : rpc_answer e :=
  match e with
  | getParsedTransaction _ => answer n
  | setTimeout _ => tt
  end.

(** Three resolved records with pump addresses, at the times
    1700000100, 1700000000 and 1700000200 seconds. *)
Definition addressC : string := "CyVjkzsVENyJFj8QSUdaK6CP4kRDFVQuA5NS48m7pump".

Definition recordA : Extracted :=
  {| signature := "sigA"; tokenAddress := addressA;
     timestamp := Some "2023-11-14T22:15:00.000Z" |}.

Definition recordB : Extracted :=
  {| signature := "sigB"; tokenAddress := addressB;
     timestamp := Some "2023-11-14T22:13:20.000Z" |}.

Definition recordC : Extracted :=
  {| signature := "sigC"; tokenAddress := addressC;
     timestamp := Some "2023-11-14T22:16:40.000Z" |}.

(** Two batches that hold the three records and a skipped
    transaction. *)
Definition batch1 : list ExtractedResult := [Resolved recordA].
Definition batch2 : list ExtractedResult := [Resolved recordC; Skipped; Resolved recordB].

(** A source with two signatures, one per page. *)
Definition twoSignatures (k : nat) (before : string) (limit : nat) : list string :=
  nth k [["sigA"]; ["sigB"]] [].

(** What [main] prints and writes when the two signatures resolve to
    [recordA] and [recordB], one batch each. *)
Definition twoBatchesOutput : list output :=
  [BatchHeader 1 2; PumpTokensFound 1;
   OldestInBatch addressA (Some "2023-11-14T22:15:00.000Z");
   WriteBatchFile 1 [recordA];
   BatchHeader 2 2; PumpTokensFound 1;
   OldestInBatch addressB (Some "2023-11-14T22:13:20.000Z");
   WriteBatchFile 2 [recordB];
   Summary 2 2; SkippedTotal 0;
   FirstPumpToken addressB "2023-11-14T22:13:20.000Z"].

(** Every call of the node is answered with [null]. *)
Definition noTransaction : forall e : rpc, rpc_answer e :=
  world (fun _ => Normal None) 0.

(** The log messages of a transaction of another program. *)
Definition otherLogs : list string :=
  ["Program 11111111111111111111111111111111 invoke [1]";
   "Program 11111111111111111111111111111111 success"].

Definition transfer : ParsedTransactionWithMeta :=
  {| meta := Some {| logMessages := Some otherLogs |};
     blockTime := Some 1700000000%Z |}.

(** A node that answers every call with the transaction of [payloadA],
    executed at [seconds]. *)
Definition always (seconds : Z) : nat -> forall e : rpc, rpc_answer e :=
  world (fun _ => Normal (Some (txOf payloadA (Some seconds)))).

(** A handler that waits once for the first item and returns at once
    for the other. *)
Definition waitFirst (first : bool) : proc rpc_answer nat :=
  if first then Await (setTimeout 100) (fun _ => Ret 0) else Ret 1.

(** A source that fills every page, and one that has nothing. *)
Definition fullSource (k : nat) (before : string) (limit : nat) : list string :=
  repeat "sig" limit.

Definition emptySource (k : nat) (before : string) (limit : nat) : list string := [].

Definition emptyOutput : list output :=
  [Summary 0 0; SkippedTotal 0; NoPumpTokenFound].

(** The buffer of [payloadA] cut 16 bytes into the mint key, and cut
    right in front of the mint key. *)
Definition payloadHalfMint : string :=
  "G3KpTd7rY3YEAAAAVG9rQQIAAABUQQ4AAABodHRwczovL3guaW8vYV0LFZr/y8zxZcCbwvXUuvs=".

Definition payloadNoMint : string :=
  "G3KpTd7rY3YEAAAAVG9rQQIAAABUQQ4AAABodHRwczovL3guaW8vYQ==".

(** Three signatures: the mint of [recordA], a transaction of another
    program, and the mint of [recordB], which is the earlier one. *)
Definition threeSigs : list string := ["sigA"; "sigT"; "sigB"].

Definition threeOutcomes : list ExtractedResult :=
  [Resolved recordA; Skipped; Resolved recordB].

(** A source with the three signatures, two on the first page. *)
Definition threeSignatures (k : nat) (before : string) (limit : nat) : list string :=
  nth k [["sigA"; "sigT"]; ["sigB"]] [].

End Sample.

(* ===================================================================== *)
(** * Part II. Lemmas *)
(* ===================================================================== *)

(** ** Bytes and slices *)

Lemma to_N_byte_of_N (n : N) : (n < 256)%N -> Byte.to_N (byte_of_N n) = n.
Proof.
  intros H. unfold byte_of_N. rewrite N.mod_small by assumption.
  destruct (Byte.of_N n) as [b|] eqn:Hb.
  - apply Byte.to_of_N. assumption.
  - apply Byte.of_N_None_iff in Hb. lia.
Qed.
Lemma adjustOffset_inside (k : nat) (len : Z) :
  (Z.of_nat k <= len)%Z -> JS.adjustOffset (JS.Int (Z.of_nat k)) len = Z.of_nat k.
Proof.
  intros H. unfold JS.adjustOffset.
  destruct (Z.of_nat k =? 0)%Z eqn:H0; [apply Z.eqb_eq in H0; lia|].
  destruct (Z.of_nat k <? 0)%Z eqn:H1; [apply Z.ltb_lt in H1; lia|].
  destruct (Z.of_nat k <? len)%Z eqn:H2; [reflexivity|].
  apply Z.ltb_ge in H2. lia.
Qed.

Lemma slice_span (pre mid post : list byte) :
  JS.slice (pre ++ mid ++ post) (JS.Int (Z.of_nat (List.length pre)))
    (JS.Int (Z.of_nat (List.length pre + List.length mid))) = mid.
Proof.
  unfold JS.slice. rewrite !length_app.
  rewrite !adjustOffset_inside by lia.
  rewrite Nat2Z.id.
  rewrite skipn_app, skipn_all, Nat.sub_diag. cbn [skipn app].
  destruct (Z.of_nat (List.length pre) <? Z.of_nat (List.length pre + List.length mid))%Z eqn:H.
  - replace (Z.to_nat (Z.of_nat (List.length pre + List.length mid) - Z.of_nat (List.length pre)))
      with (List.length mid) by lia.
    rewrite firstn_app, firstn_all, Nat.sub_diag. cbn [firstn]. apply app_nil_r.
  - apply Z.ltb_ge in H. destruct mid; [reflexivity|simpl in H; lia].
Qed.

Lemma get_at (pre : list byte) (b : byte) (post : list byte) :
  JS.get (pre ++ b :: post) (JS.Int (Z.of_nat (List.length pre))) = Some b.
Proof.
  unfold JS.get.
  destruct (Z.of_nat (List.length pre) <? 0)%Z eqn:H; [apply Z.ltb_lt in H; lia|].
  rewrite Nat2Z.id, nth_error_app2, Nat.sub_diag by lia. reflexivity.
Qed.

Lemma readLengthPrefixedString_field (pre bytes post : list byte) :
  List.length bytes < 256 ->
  readLengthPrefixedString (pre ++ lengthPrefixed bytes ++ post)
    (JS.Int (Z.of_nat (List.length pre)))
  = (Utf8.decode bytes,
     JS.Int (Z.of_nat (List.length (pre ++ lengthPrefixed bytes)))).
Proof.
  intros Hlen. unfold readLengthPrefixedString, lengthPrefixed, u32le.
  cbn [app]. rewrite get_at. cbn [JS.ToNumber JS.add].
  rewrite to_N_byte_of_N by lia.
  set (b0 := byte_of_N (N.of_nat (List.length bytes))).
  set (b1 := byte_of_N _). set (b2 := byte_of_N _). set (b3 := byte_of_N _).
  replace (pre ++ b0 :: b1 :: b2 :: b3 :: bytes ++ post)
    with ((pre ++ [b0; b1; b2; b3]) ++ bytes ++ post)
    by (rewrite <- app_assoc; reflexivity).
  replace (Z.of_nat (List.length pre) + 4)%Z
    with (Z.of_nat (List.length (pre ++ [b0; b1; b2; b3])))
    by (rewrite length_app; simpl; lia).
  replace (Z.of_nat (List.length (pre ++ [b0; b1; b2; b3])) + Z.of_N (N.of_nat (List.length bytes)))%Z
    with (Z.of_nat (List.length (pre ++ [b0; b1; b2; b3]) + List.length bytes)) by lia.
  rewrite slice_span. f_equal. f_equal.
  rewrite !length_app. simpl. lia.
Qed.

Lemma slice_at (data pre mid post : list byte) (n : nat) :
  data = pre ++ mid ++ post -> List.length mid = n ->
  JS.slice data (JS.Int (Z.of_nat (List.length pre)))
    (JS.add (JS.Int (Z.of_nat (List.length pre))) (JS.Int (Z.of_nat n))) = mid.
Proof.
  intros -> <-. cbn [JS.add]. rewrite <- Nat2Z.inj_add. apply slice_span.
Qed.

Lemma read_at (data pre bytes post : list byte) :
  data = pre ++ lengthPrefixed bytes ++ post -> List.length bytes < 256 ->
  readLengthPrefixedString data (JS.Int (Z.of_nat (List.length pre)))
  = (Utf8.decode bytes, JS.Int (Z.of_nat (List.length (pre ++ lengthPrefixed bytes)))).
Proof. intros ->. apply readLengthPrefixedString_field. Qed.

Theorem decodeBuffer_layout (lead nb sb ub mint bondingCurve user : list byte) :
  List.length lead = 8 ->
  List.length nb < 256 -> List.length sb < 256 -> List.length ub < 256 ->
  List.length mint = 32 -> List.length bondingCurve = 32 -> List.length user = 32 ->
  decodeBuffer (lead ++ lengthPrefixed nb ++ lengthPrefixed sb ++ lengthPrefixed ub
                ++ mint ++ bondingCurve ++ user)
  = {| name := Utf8.decode nb; symbol := Utf8.decode sb; uri := Utf8.decode ub;
       mintAddress := Bs58.encode mint; bondingCurve := Bs58.encode bondingCurve;
       user := Bs58.encode user |}.
Proof.
  intros Hlead Hn Hs Hu Hm Hb Hus.
  set (data := lead ++ _).
  set (p1 := lead).
  set (p2 := p1 ++ lengthPrefixed nb).
  set (p3 := p2 ++ lengthPrefixed sb).
  set (p4 := p3 ++ lengthPrefixed ub).
  set (p5 := p4 ++ mint).
  set (p6 := p5 ++ bondingCurve).
  assert (E1 : data = p1 ++ lengthPrefixed nb ++
                 (lengthPrefixed sb ++ lengthPrefixed ub ++ mint ++ bondingCurve ++ user))
    by reflexivity.
  assert (E2 : data = p2 ++ lengthPrefixed sb ++
                 (lengthPrefixed ub ++ mint ++ bondingCurve ++ user))
    by (unfold data, p2, p1; rewrite <- !app_assoc; reflexivity).
  assert (E3 : data = p3 ++ lengthPrefixed ub ++ (mint ++ bondingCurve ++ user))
    by (unfold data, p3, p2, p1; rewrite <- !app_assoc; reflexivity).
  assert (E4 : data = p4 ++ mint ++ (bondingCurve ++ user))
    by (unfold data, p4, p3, p2, p1; rewrite <- !app_assoc; reflexivity).
  assert (E5 : data = p5 ++ bondingCurve ++ user)
    by (unfold data, p5, p4, p3, p2, p1; rewrite <- !app_assoc; reflexivity).
  assert (E6 : data = p6 ++ user ++ [])
    by (unfold data, p6, p5, p4, p3, p2, p1; rewrite <- !app_assoc, app_nil_r; reflexivity).
  unfold decodeBuffer. cbv zeta.
  change (JS.add (JS.Int 0) (JS.Int 8)) with (JS.Int (Z.of_nat 8)).
  rewrite <- Hlead. fold p1.
  rewrite (read_at data p1 nb _ E1 Hn). cbn [fst snd]. fold p2.
  rewrite (read_at data p2 sb _ E2 Hs). cbn [fst snd]. fold p3.
  rewrite (read_at data p3 ub _ E3 Hu). cbn [fst snd]. fold p4.
  change (JS.Int 32) with (JS.Int (Z.of_nat 32)).
  rewrite (slice_at data p4 mint _ 32 E4 Hm).
  assert (O5 : JS.add (JS.Int (Z.of_nat (List.length p4))) (JS.Int (Z.of_nat 32))
               = JS.Int (Z.of_nat (List.length p5))).
  { unfold p5. rewrite length_app, Hm. cbn [JS.add]. f_equal. lia. }
  rewrite O5.
  rewrite (slice_at data p5 bondingCurve _ 32 E5 Hb).
  assert (O6 : JS.add (JS.Int (Z.of_nat (List.length p5))) (JS.Int (Z.of_nat 32))
               = JS.Int (Z.of_nat (List.length p6))).
  { unfold p6. rewrite length_app, Hb. cbn [JS.add]. f_equal. lia. }
  rewrite O6.
  rewrite (slice_at data p6 user _ 32 E6 Hus).
  reflexivity.
Qed.

(** ** The UTF-8 decoder undoes the encoder *)

Module Utf8Facts.
Import Utf8.
Local Open Scope N_scope.

Ltac arith := zify; Z.to_euclidean_division_equations; lia.

Ltac bool_hyps :=
  repeat match goal with
  | H : (_ && _)%bool = true |- _ => apply andb_prop in H; destruct H
  | H : (_ && _)%bool = false |- _ => apply andb_false_iff in H; destruct H
  | H : (_ <=? _) = true |- _ => apply N.leb_le in H
  | H : (_ <=? _) = false |- _ => apply N.leb_gt in H
  | H : (_ <? _) = true |- _ => apply N.ltb_lt in H
  | H : (_ <? _) = false |- _ => apply N.ltb_ge in H
  | H : (_ =? _) = true |- _ => apply N.eqb_eq in H
  | H : (_ =? _) = false |- _ => apply N.eqb_neq in H
  end.

Ltac split_if :=
  match goal with
  | |- context [if ?b then _ else _] =>
      let H := fresh "Hb" in
      destruct b eqn:H; bool_hyps; try (exfalso; arith)
  end.

Lemma decode_ascii (byte : Byte.byte) (rest : list Byte.byte) (cp lower upper : N) :
  Byte.to_N byte <= 127 ->
  decode_from (byte :: rest) 0 cp lower upper
  = Byte.to_N byte :: decode_from rest 0 0 128 191.
Proof.
  intros H. cbn [decode_from]. cbv zeta. repeat split_if. reflexivity.
Qed.

Lemma decode_lead2 (byte : Byte.byte) (rest : list Byte.byte) (cp lower upper : N) :
  194 <= Byte.to_N byte <= 223 ->
  decode_from (byte :: rest) 0 cp lower upper
  = decode_from rest 1 (Byte.to_N byte - 192) 128 191.
Proof.
  intros H. cbn [decode_from]. cbv zeta. repeat split_if. reflexivity.
Qed.

Lemma decode_lead3 (byte : Byte.byte) (rest : list Byte.byte) (cp lower upper : N) :
  224 <= Byte.to_N byte <= 239 ->
  decode_from (byte :: rest) 0 cp lower upper
  = decode_from rest 2 (Byte.to_N byte - 224)
      (if Byte.to_N byte =? 224 then 160 else 128)
      (if Byte.to_N byte =? 237 then 159 else 191).
Proof.
  intros H. cbn [decode_from]. cbv zeta.
  destruct (Byte.to_N byte <=? 127) eqn:H1; bool_hyps; [arith|].
  destruct ((194 <=? Byte.to_N byte) && (Byte.to_N byte <=? 223))%bool eqn:H2;
    bool_hyps; try arith.
  all: destruct ((224 <=? Byte.to_N byte) && (Byte.to_N byte <=? 239))%bool eqn:H3;
    bool_hyps; try arith; reflexivity.
Qed.

Lemma decode_lead4 (byte : Byte.byte) (rest : list Byte.byte) (cp lower upper : N) :
  240 <= Byte.to_N byte <= 244 ->
  decode_from (byte :: rest) 0 cp lower upper
  = decode_from rest 3 (Byte.to_N byte - 240)
      (if Byte.to_N byte =? 240 then 144 else 128)
      (if Byte.to_N byte =? 244 then 143 else 191).
Proof.
  intros H. cbn [decode_from]. cbv zeta.
  destruct (Byte.to_N byte <=? 127) eqn:H1; bool_hyps; [arith|].
  destruct ((194 <=? Byte.to_N byte) && (Byte.to_N byte <=? 223))%bool eqn:H2;
    bool_hyps; try arith.
  all: destruct ((224 <=? Byte.to_N byte) && (Byte.to_N byte <=? 239))%bool eqn:H3;
    bool_hyps; try arith.
  all: destruct ((240 <=? Byte.to_N byte) && (Byte.to_N byte <=? 244))%bool eqn:H4;
    bool_hyps; try arith; reflexivity.
Qed.

Lemma decode_last (byte : Byte.byte) (rest : list Byte.byte) (cp lower upper : N) :
  lower <= Byte.to_N byte <= upper ->
  decode_from (byte :: rest) 1 cp lower upper
  = (cp * 64 + (Byte.to_N byte - 128)) :: decode_from rest 0 0 128 191.
Proof.
  intros H. cbn [decode_from]. cbv zeta.
  destruct ((lower <=? Byte.to_N byte) && (Byte.to_N byte <=? upper))%bool eqn:H1;
    bool_hyps; try arith. reflexivity.
Qed.

Lemma decode_continue (byte : Byte.byte) (rest : list Byte.byte) (k : nat)
  (cp lower upper : N) :
  lower <= Byte.to_N byte <= upper ->
  decode_from (byte :: rest) (S (S k)) cp lower upper
  = decode_from rest (S k) (cp * 64 + (Byte.to_N byte - 128)) 128 191.
Proof.
  intros H. cbn [decode_from]. cbv zeta.
  destruct ((lower <=? Byte.to_N byte) && (Byte.to_N byte <=? upper))%bool eqn:H1;
    bool_hyps; try arith. reflexivity.
Qed.

Lemma decode_from_scalar (c : N) (rest : list Byte.byte) :
  scalar c ->
  decode_from (encode_scalar c ++ rest) 0 0 128 191 = c :: decode_from rest 0 0 128 191.
Proof.
  intros Hc. unfold scalar in Hc. unfold encode_scalar.
  destruct (c <? 128) eqn:H1; [|destruct (c <? 2048) eqn:H2; [|destruct (c <? 65536) eqn:H3]];
    bool_hyps; cbn [app].
  - rewrite decode_ascii by (rewrite to_N_byte_of_N; arith).
    rewrite to_N_byte_of_N by arith. reflexivity.
  - rewrite decode_lead2 by (rewrite to_N_byte_of_N; arith).
    rewrite decode_last by (rewrite to_N_byte_of_N; arith).
    rewrite !to_N_byte_of_N by arith. f_equal. arith.
  - rewrite decode_lead3 by (rewrite to_N_byte_of_N; arith).
    rewrite (to_N_byte_of_N (224 + c / 4096)) by arith.
    rewrite decode_continue
      by (rewrite to_N_byte_of_N by arith; repeat split_if; arith).
    rewrite decode_last by (rewrite to_N_byte_of_N; arith).
    rewrite !to_N_byte_of_N by arith. f_equal. arith.
  - rewrite decode_lead4 by (rewrite to_N_byte_of_N; arith).
    rewrite (to_N_byte_of_N (240 + c / 262144)) by arith.
    rewrite decode_continue
      by (rewrite to_N_byte_of_N by arith; repeat split_if; arith).
    rewrite decode_continue by (rewrite to_N_byte_of_N; arith).
    rewrite decode_last by (rewrite to_N_byte_of_N; arith).
    rewrite !to_N_byte_of_N by arith. f_equal. arith.
Qed.

Lemma decode_from_encode (t : text) :
  Forall scalar t -> decode_from (encode t) 0 0 128 191 = t.
Proof.
  induction 1 as [|c t Hc Ht IH]; [reflexivity|].
  unfold encode in *. cbn [flat_map].
  rewrite decode_from_scalar by assumption. f_equal. assumption.
Qed.

(** Decoding the UTF-8 bytes of a text gives the text back, unless it
    starts with a byte order mark, which the decoder drops. *)
Lemma decode_encode (t : text) :
  Forall scalar t -> hd_error t <> Some BOM -> decode (encode t) = t.
Proof.
  intros Hs Hbom. unfold decode. rewrite decode_from_encode by assumption.
  destruct t as [|c t]; [reflexivity|].
  destruct (c =? BOM) eqn:Hc; [|reflexivity].
  apply N.eqb_eq in Hc. subst c. contradiction Hbom. reflexivity.
Qed.

Lemma decode_encode_BOM (t : text) :
  Forall scalar t -> decode (encode (BOM :: t)) = t.
Proof.
  intros Hs. unfold decode. rewrite decode_from_encode.
  - reflexivity.
  - constructor; [right; unfold BOM; lia | assumption].
Qed.
End Utf8Facts.

(** ** [Date]: parsing undoes [toISOString] *)

Module DateFacts.
Import Date.
Local Open Scope Z_scope.

Lemma allFrom_spec (p : Z -> bool) (n : nat) : forall z,
  allFrom n z p = true -> forall i, z <= i < z + Z.of_nat n -> p i = true.
Proof.
  induction n as [|n IH]; intros z H i Hi; [lia|].
  simpl in H. apply andb_prop in H as [H1 H2].
  destruct (Z.eq_dec i z) as [->|Hne]; [assumption|].
  apply (IH (z + 1)); [assumption|lia].
Qed.

Lemma eraOk_all : allFrom (Z.to_nat 146097) 0 eraOk = true.
Proof. vm_compute. reflexivity. Qed.

Lemma eraOk_true (doe : Z) : 0 <= doe < 146097 -> eraOk doe = true.
Proof.
  intros H. apply (allFrom_spec eraOk (Z.to_nat 146097) 0 eraOk_all). rewrite Z2Nat.id; lia.
Qed.

Lemma civil_from_days_eq (z : Z) :
  civil_from_days z =
  let '(yoe, m, d) := eraFields ((z + 719468) mod 146097) in
  (yoe + (z + 719468) / 146097 * 400 + (if m <=? 2 then 1 else 0), m, d).
Proof. reflexivity. Qed.

Lemma days_from_civil_eq (y m d : Z) :
  days_from_civil y m d =
  let y' := if m <=? 2 then y - 1 else y in
  y' / 400 * 146097 + eraDay (y' mod 400) m d - 719468.
Proof. reflexivity. Qed.

Lemma civil_roundtrip (z : Z) :
  let '(y, m, d) := civil_from_days z in
  days_from_civil y m d = z /\ 1 <= m <= 12 /\ 1 <= d <= 31
  /\ (z + 719468) / 146097 * 400 <= y <= (z + 719468) / 146097 * 400 + 400.
Proof.
  rewrite civil_from_days_eq.
  pose proof (Z.mod_pos_bound (z + 719468) 146097 ltac:(lia)) as Hdoe.
  pose proof (eraOk_true _ Hdoe) as Hok. unfold eraOk in Hok.
  destruct (eraFields ((z + 719468) mod 146097)) as [[yoe m] d].
  repeat (apply andb_prop in Hok as [Hok ?]).
  rewrite days_from_civil_eq. cbv zeta.
  set (era := (z + 719468) / 146097).
  assert (Hy : (if m <=? 2 then yoe + era * 400 + (if m <=? 2 then 1 else 0) - 1
                else yoe + era * 400 + (if m <=? 2 then 1 else 0)) = yoe + era * 400).
  { destruct (m <=? 2); lia. }
  rewrite Hy.
  assert (Hdiv : (yoe + era * 400) / 400 = era).
  { symmetry. apply (Z.div_unique _ _ _ yoe); lia. }
  assert (Hmod : (yoe + era * 400) mod 400 = yoe).
  { symmetry. apply (Z.mod_unique _ _ era); lia. }
  rewrite Hdiv, Hmod.
  pose proof (Z.div_mod (z + 719468) 146097 ltac:(lia)) as Hdm. fold era in Hdm.
  repeat split; try lia.
  destruct (m <=? 2); lia.
  destruct (m <=? 2); lia.
Qed.

Lemma digit_nat (n : Z) : 0 <= n < 10 -> exists k : nat, (k < 10)%nat /\ n = Z.of_nat k.
Proof. intros H. exists (Z.to_nat n). lia. Qed.

Ltac each_digit k Hk :=
  do 10 (destruct k as [|k]; [reflexivity|]); exfalso; clear - Hk; lia.

Lemma digitVal_digit (n : Z) : 0 <= n < 10 -> digitVal (digit n) = Some n.
Proof.
  intros H. destruct (digit_nat n H) as (k & Hk & ->). each_digit k Hk.
Qed.

Lemma pow10_pos (k : nat) : 0 < 10 ^ Z.of_nat k.
Proof. apply Z.pow_pos_nonneg; lia. Qed.

Lemma readDigits_pad (k : nat) : forall (n acc : Z) (rest : string),
  0 <= n ->
  readDigits k (pad k n ++ rest) acc = Some (acc * 10 ^ Z.of_nat k + n mod 10 ^ Z.of_nat k, rest).
Proof.
  induction k as [|k IH]; intros n acc rest Hn.
  - simpl. rewrite Z.mod_1_r. f_equal. f_equal. lia.
  - cbn [pad readDigits String.append].
    rewrite digitVal_digit by (apply Z.mod_pos_bound; lia).
    rewrite IH by assumption. f_equal. f_equal.
    rewrite Nat2Z.inj_succ, Z.pow_succ_r by lia.
    pose proof (pow10_pos k) as Hp.
    rewrite (Z.mul_comm 10), Z.rem_mul_r by lia.
    lia.
Qed.

Lemma readDigits_pad_small (k : nat) (n : Z) (rest : string) :
  0 <= n < 10 ^ Z.of_nat k ->
  readDigits k (pad k n ++ rest) 0 = Some (n, rest).
Proof.
  intros H. rewrite readDigits_pad by lia. rewrite Z.mod_small by lia.
  reflexivity.
Qed.

Lemma readYear_formatYear (y : Z) (rest : string) :
  -1000000 < y < 1000000 ->
  readYear (formatYear y ++ String "-"%char rest)%string = Some (y, String "-"%char rest).
Proof.
  intros Hy. unfold formatYear.
  destruct ((0 <=? y) && (y <=? 9999)) eqn:Hsmall.
  - apply andb_prop in Hsmall as [H0 H1].
    apply Z.leb_le in H0. apply Z.leb_le in H1.
    transitivity (readDigits 4 (pad 4 y ++ String "-"%char rest) 0).
    + change (pad 4 y) with (String (digit ((y / 10 ^ 3) mod 10)) (pad 3 y)).
      assert (Hd : 0 <= (y / 10 ^ 3) mod 10 < 10) by (apply Z.mod_pos_bound; lia).
      destruct (digit_nat _ Hd) as (k & Hk & ->). each_digit k Hk.
    + apply readDigits_pad_small. change (10 ^ Z.of_nat 4) with 10000. lia.
  - destruct (y <? 0) eqn:Hneg.
    + apply Z.ltb_lt in Hneg.
      cbn [String.append readYear].
      rewrite readDigits_pad_small by (change (10 ^ Z.of_nat 6) with 1000000; lia).
      destruct (- y =? 0) eqn:Hz; [apply Z.eqb_eq in Hz; lia|].
      f_equal. f_equal. lia.
    + cbn [String.append readYear].
      apply Z.ltb_ge in Hneg.
      rewrite readDigits_pad_small by (change (10 ^ Z.of_nat 6) with 1000000; lia).
      reflexivity.
Qed.

Lemma fields_format (y m d h mi sec milli : Z) :
  -1000000 < y < 1000000 -> 0 <= m < 100 -> 0 <= d < 100 -> 0 <= h < 100 ->
  0 <= mi < 100 -> 0 <= sec < 100 -> 0 <= milli < 1000 ->
  fields (formatYear y ++ String "-"%char (pad 2 m ++ String "-"%char (pad 2 d ++
   String "T"%char (pad 2 h ++ String ":"%char (pad 2 mi ++
   String ":"%char (pad 2 sec ++ String "."%char (pad 3 milli ++
   "Z")))))))%string = Some (y, m, d, h, mi, sec, milli).
Proof.
  intros Hy Hm Hd Hh Hmi Hs Hms. unfold fields.
  rewrite readYear_formatYear by assumption.
  cbn [bind expect Ascii.eqb Bool.eqb].
  repeat (rewrite readDigits_pad_small by (simpl; lia);
          cbn [bind expect Ascii.eqb Bool.eqb]).
  reflexivity.
Qed.

Lemma valid_range (ms : Z) : valid ms = true -> - maxTime <= ms <= maxTime.
Proof. unfold valid. intros H. apply andb_prop in H as [H1 H2]. lia. Qed.

Lemma timeOfDay_compose (t : Z) :
  0 <= t < 86400000 ->
  t / 3600000 * 3600000 + (t / 60000) mod 60 * 60000 + (t / 1000) mod 60 * 1000 + t mod 1000 = t
  /\ 0 <= t / 3600000 <= 23 /\ 0 <= (t / 60000) mod 60 <= 59
  /\ 0 <= (t / 1000) mod 60 <= 59 /\ 0 <= t mod 1000 <= 999.
Proof.
  intros H. Z.div_mod_to_equations. lia.
Qed.

Theorem parse_format (ms : Z) : valid ms = true -> parse (format ms) = JS.Int ms.
Proof.
  intros Hv. pose proof (valid_range ms Hv) as Hr. unfold maxTime in Hr.
  unfold parse, format.
  pose proof (civil_roundtrip (ms / msPerDay)) as Hc.
  destruct (civil_from_days (ms / msPerDay)) as [[y m] d].
  destruct Hc as (Hdays & Hm & Hd & Hy).
  set (t := ms mod msPerDay).
  assert (Ht : 0 <= t < 86400000) by (apply Z.mod_pos_bound; reflexivity).
  pose proof (Z.div_mod ms msPerDay ltac:(unfold msPerDay; lia)) as Hms.
  fold t in Hms. unfold msPerDay in *.
  destruct (timeOfDay_compose t Ht) as (Hsum & Hh & Hmi & Hsec & Hmilli).
  assert (Hera : -700 <= (ms / 86400000 + 719468) / 146097 <= 700).
  { split; [apply Z.div_le_lower_bound | apply Z.div_le_upper_bound];
      try lia; Z.div_mod_to_equations; lia. }
  rewrite fields_format by lia.
  replace ((1 <=? m) && (m <=? 12) && (1 <=? d) && (d <=? 31) &&
      ((t / 3600000 <=? 23)
       || (t / 3600000 =? 24) && ((t / 60000) mod 60 =? 0) && ((t / 1000) mod 60 =? 0) &&
          (t mod 1000 =? 0)) && ((t / 60000) mod 60 <=? 59) && ((t / 1000) mod 60 <=? 59))
      with true.
  - replace (days_from_civil y m d * 86400000 + t / 3600000 * 3600000
               + (t / 60000) mod 60 * 60000 + (t / 1000) mod 60 * 1000 + t mod 1000)
        with ms by lia.
    rewrite Hv. reflexivity.
  - symmetry. repeat (apply andb_true_intro; split); try (apply Z.leb_le; lia).
    apply orb_true_intro. left. apply Z.leb_le. lia.
Qed.

End DateFacts.

(** ** Base 58: the fuel of [digits] *)

Module Bs58Facts.
Import Bs58.
Local Open Scope N_scope.

Lemma digits_zero (fuel : nat) (acc : string) : digits fuel 0 acc = acc.
Proof. destruct fuel; reflexivity. Qed.

Lemma digits_more_fuel (fuel : nat) : forall (n : N) (acc : string) (extra : nat),
  n < 58 ^ N.of_nat fuel -> digits (fuel + extra) n acc = digits fuel n acc.
Proof.
  induction fuel as [|fuel IH]; intros n acc extra Hn.
  - simpl in Hn. assert (n = 0) by lia. subst n. apply digits_zero.
  - cbn [Nat.add digits]. destruct (n =? 0); [reflexivity|].
    apply IH. rewrite Nat2N.inj_succ, N.pow_succ_r' in Hn.
    apply N.Div0.div_lt_upper_bound. exact Hn.
Qed.

Lemma toN_from (source : list byte) : forall acc,
  fold_left (fun a b => a * 256 + Byte.to_N b) source acc
  < (acc + 1) * 256 ^ N.of_nat (List.length source).
Proof.
  induction source as [|b source IH]; intros acc.
  - simpl. lia.
  - cbn [fold_left List.length]. rewrite Nat2N.inj_succ, N.pow_succ_r'.
    eapply N.lt_le_trans; [apply IH|].
    pose proof (Byte.to_N_bounded b).
    set (P := 256 ^ N.of_nat (List.length source)). nia.
Qed.

Lemma pow_256_58 (k : nat) : 256 ^ N.of_nat k <= 58 ^ N.of_nat (2 * k).
Proof.
  induction k as [|k IH]; [simpl; lia|].
  replace (2 * S k)%nat with (S (S (2 * k))) by lia.
  rewrite !Nat2N.inj_succ, !N.pow_succ_r'. lia.
Qed.

(** The room [encode] gives to [digits] is enough: more fuel gives the
    same text. *)
Lemma encode_fuel (source : list byte) (extra : nat) :
  String.append (leader (zeroes source))
    (digits (2 * List.length source + extra) (toN source) EmptyString)
  = encode source.
Proof.
  unfold encode. f_equal. apply digits_more_fuel.
  eapply N.lt_le_trans; [|apply pow_256_58].
  pose proof (toN_from source 0) as H. unfold toN. lia.
Qed.

End Bs58Facts.

(** ** [extractTransactionInfo] *)

Lemma extractTransactionInfo_step (signature : string) (attempt : nat) :
  extractTransactionInfo signature attempt
  = attemptOnce signature
      (if (attempt <? 3)%nat
       then Await (setTimeout 100) (fun _ => extractTransactionInfo signature (attempt + 1))
       else Ret Null).
Proof.
  rewrite extractTransactionInfo_equation_1.
  destruct (lt_dec attempt 3) as [H|H].
  - apply Nat.ltb_lt in H. rewrite H. reflexivity.
  - apply Nat.ltb_nlt in H. rewrite H. reflexivity.
Qed.

Lemma returns_inv {E : Type} {Ans : E -> Type} {R : Type} (p : proc Ans R) (r : R) :
  returns p r ->
  match p with
  | Ret r' => r = r'
  | Await e k => exists a, returns (k a) r
  end.
Proof. intros H. destruct H; eauto. Qed.

(** The time stamp [resolve] writes. *)
Lemma resolve_timestamp (sg : string) (tx : ParsedTransactionWithMeta)
  (logs : list string) (r : Extracted) :
  resolve sg tx logs = Normal (Resolved r) ->
  sg = signature r
  /\ (exists m, processMintLog logs = Some m /\ tokenAddress r = mintAddress m
                /\ JS.truthy (mintAddress m) = true)
  /\ match blockTime tx with
     | Some t =>
         if (t =? 0)%Z then timestamp r = None
         else Date.valid (t * 1000) = true
              /\ timestamp r = Some (Date.format (t * 1000))
     | None => timestamp r = None
     end.
Proof.
  unfold resolve, Date.toISOString.
  destruct (blockTime tx) as [t|].
  - destruct (t =? 0)%Z.
    + destruct (processMintLog logs) as [m|]; [|discriminate].
      destruct (JS.truthy (mintAddress m)) eqn:Hm; [|discriminate].
      intros H. injection H as <-. simpl. eauto 6.
    + destruct (Date.valid (t * 1000)); [|discriminate].
      destruct (processMintLog logs) as [m|]; [|discriminate].
      destruct (JS.truthy (mintAddress m)) eqn:Hm; [|discriminate].
      intros H. injection H as <-. simpl. eauto 7.
  - destruct (processMintLog logs) as [m|]; [|discriminate].
    destruct (JS.truthy (mintAddress m)) eqn:Hm; [|discriminate].
    intros H. injection H as <-. simpl. eauto 6.
Qed.

Lemma attemptResult_wellStamped (signature : string) answer (r : ExtractedResult) :
  attemptResult signature answer = Some r -> wellStamped r.
Proof.
  unfold attemptResult. destruct answer as [tx|]; [|discriminate].
  destruct (logMessagesOf tx) as [logs|]; [|discriminate].
  destruct tx as [t|]; [|discriminate].
  destruct (resolve signature t logs) as [r'|] eqn:Hr; [|discriminate].
  intros H. injection H as ->.
  destruct r as [x| |]; simpl; auto.
  destruct (resolve_timestamp _ _ _ _ Hr) as (_ & _ & Hts).
  destruct (blockTime t) as [bt|].
  - destruct (bt =? 0)%Z.
    + rewrite Hts. exact I.
    + destruct Hts as [Hv ->]. eauto.
  - rewrite Hts. exact I.
Qed.

Lemma returns_attemptOnce (signature : string)
  (retry : proc rpc_answer ExtractedResult) (r : ExtractedResult) :
  returns (attemptOnce signature retry) r ->
  (exists answer, attemptResult signature answer = Some r) \/ returns retry r.
Proof.
  intros H. apply returns_inv in H. simpl in H. destruct H as [answer H].
  destruct answer as [tx|]; [|right; assumption].
  destruct (logMessagesOf tx) as [logs|] eqn:Hl; [|right; assumption].
  destruct tx as [t|]; [|right; assumption].
  destruct (resolve signature t logs) as [r'|] eqn:Hr; [|right; assumption].
  apply returns_inv in H. subst r'. left.
  exists (Normal (Some t)). unfold attemptResult. rewrite Hl, Hr. reflexivity.
Qed.

Lemma returns_wellStamped (signature : string) (n : nat) : forall attempt r,
  3 - attempt <= n ->
  returns (extractTransactionInfo signature attempt) r -> wellStamped r.
Proof.
  induction n as [|n IH]; intros attempt r Hn H;
    rewrite extractTransactionInfo_step in H;
    apply returns_attemptOnce in H as [[answer H]|H];
    try (eapply attemptResult_wellStamped; eassumption).
  - destruct (attempt <? 3)%nat eqn:Hlt.
    + apply Nat.ltb_lt in Hlt. lia.
    + apply returns_inv in H. subst r. exact I.
  - destruct (attempt <? 3)%nat eqn:Hlt.
    + apply Nat.ltb_lt in Hlt. apply returns_inv in H. destruct H as [_ H].
      apply (IH (attempt + 1)); [lia|assumption].
    + apply returns_inv in H. subst r. exact I.
Qed.

Lemma missing_attemptResult (signature : string) answer :
  missing answer -> attemptResult signature answer = None.
Proof.
  destruct answer as [tx|]; simpl; [|reflexivity].
  intros ->. reflexivity.
Qed.

Lemma run_attemptOnce (signature : string) (retry : proc rpc_answer ExtractedResult)
  (env : nat -> forall e, rpc_answer e) (n : nat) :
  run (attemptOnce signature retry) env n
  = match attemptResult signature (env n (getParsedTransaction signature)) with
    | Some r => (r, [getParsedTransaction signature])
    | None =>
        let '(r, trace) := run retry env (S n) in
        (r, getParsedTransaction signature :: trace)
    end.
Proof.
  unfold attemptOnce. cbn [run].
  unfold attemptResult.
  destruct (env n (getParsedTransaction signature)) as [tx|]; [|reflexivity].
  destruct (logMessagesOf tx) as [logs|]; [|reflexivity].
  destruct tx as [t|]; [|reflexivity].
  destruct (resolve signature t logs); reflexivity.
Qed.

(** The whole of a call, attempt by attempt. *)
Lemma run_extractTransactionInfo (signature : string)
  (env : nat -> forall e, rpc_answer e) :
  let a k := env (2 * k) (getParsedTransaction signature) in
  run (extractTransactionInfo signature 1) env 0
  = match attemptResult signature (a 0) with
    | Some r => (r, attempts signature 1)
    | None =>
        match attemptResult signature (a 1) with
        | Some r => (r, attempts signature 2)
        | None =>
            match attemptResult signature (a 2) with
            | Some r => (r, attempts signature 3)
            | None => (Null, attempts signature 3)
            end
        end
    end.
Proof.
  cbv zeta.
  rewrite extractTransactionInfo_step, run_attemptOnce. cbn [Nat.ltb Nat.leb Nat.mul Nat.add].
  destruct (attemptResult signature (env 0 (getParsedTransaction signature))); [reflexivity|].
  cbn [run].
  rewrite extractTransactionInfo_step, run_attemptOnce. cbn [Nat.ltb Nat.leb Nat.mul Nat.add].
  destruct (attemptResult signature (env 2 (getParsedTransaction signature))); [reflexivity|].
  cbn [run].
  rewrite extractTransactionInfo_step, run_attemptOnce. cbn [Nat.ltb Nat.leb Nat.mul Nat.add].
  destruct (attemptResult signature (env 4 (getParsedTransaction signature))); reflexivity.
Qed.


(** ** [withConcurrency] *)

Section PoolFacts.

Context {E : Type} {Ans : E -> Type} {T R : Type}.
Variable items : list T.
Variable handler : T -> proc Ans R.
Variable concurrency : nat.

Local Abbreviation worker := (@worker E Ans R).
Local Abbreviation pool := (@pool E Ans R).
Local Abbreviation claim := (claim items handler).
Local Abbreviation launch := (launch items handler).
Local Abbreviation start := (start items handler concurrency).
Local Abbreviation step := (step items handler).
Local Abbreviation reachable := (reachable items handler concurrency).
Local Abbreviation halts := (halts items handler).
Local Abbreviation answers := (answers items handler).
Local Abbreviation pending := (pending items handler).
Local Abbreviation invariant := (invariant items handler concurrency).

Lemma nth_error_setWorker (ws : list worker) : forall n w w',
  nth_error ws n = Some w ->
  exists l1 l2, ws = l1 ++ w :: l2 /\ setWorker n w' ws = l1 ++ w' :: l2.
Proof.
  induction ws as [|x ws IH]; intros [|n] w w' H; simpl in H; try discriminate.
  - injection H as ->. exists [], ws. split; reflexivity.
  - destruct (IH n w w' H) as (l1 & l2 & -> & Hs).
    exists (x :: l1), l2. simpl. rewrite Hs. split; reflexivity.
Qed.

Lemma setWorker_length (ws : list worker) : forall n w,
  List.length (setWorker n w ws) = List.length ws.
Proof.
  induction ws as [|x ws IH]; intros [|n] w; simpl; auto.
Qed.

Lemma awaited_app (l1 l2 : list worker) :
  awaited (l1 ++ l2) = awaited l1 ++ awaited l2.
Proof. apply flat_map_app. Qed.

Lemma claim_index (idx : nat) :
  idx <= List.length items ->
  idx <= fst (claim idx) <= List.length items
  /\ (forall i p, snd (claim idx) = Awaiting i p ->
        i = idx /\ fst (claim idx) = S idx
        /\ exists x, nth_error items i = Some x /\ p = handler x)
  /\ (snd (claim idx) = Exited -> fst (claim idx) = idx /\ idx = List.length items).
Proof.
  intros Hle. unfold claim.
  destruct (nth_error items idx) as [x|] eqn:Hx; simpl.
  - assert (idx < List.length items) by (apply nth_error_Some; congruence).
    split; [lia|]. split.
    + intros i p Hw. injection Hw as <- <-. repeat split. eauto.
    + discriminate.
  - apply nth_error_None in Hx. split; [lia|]. split.
    + discriminate.
    + intros _. split; [reflexivity|lia].
Qed.

Lemma launch_spec (n : nat) : forall idx,
  idx <= List.length items ->
  let '(idx', ws) := launch n idx in
  List.length ws = n /\ idx <= idx' <= List.length items
  /\ awaited ws = seq idx (idx' - idx)
  /\ Forall pending ws
  /\ (In Exited ws -> idx' = List.length items).
Proof.
  induction n as [|n IH]; intros idx Hle; simpl.
  - rewrite Nat.sub_diag. repeat split; try lia; auto; try (intros []); try contradiction.
  - destruct (claim_index idx Hle) as (Hb & Haw & Hex).
    destruct (claim idx) as [idx1 w] eqn:Hc. simpl in *.
    specialize (IH idx1 ltac:(lia)).
    destruct (launch n idx1) as [idx2 ws]. destruct IH as (Hlen & Hb2 & Hseq & Hp & Hexit).
    split; [simpl; lia|]. split; [lia|].
    destruct w as [i p|].
    + destruct (Haw i p eq_refl) as (-> & -> & x & Hx & ->).
      split; [|split].
      * simpl. fold (awaited ws). rewrite Hseq.
        replace (idx2 - idx) with (S (idx2 - S idx)) by lia. reflexivity.
      * constructor; [|assumption]. exists x. split; auto.
      * intros [Hin|Hin]; [discriminate|auto].
    + destruct (Hex eq_refl) as (-> & ->).
      split; [|split].
      * simpl. fold (awaited ws). rewrite Hseq. reflexivity.
      * constructor; [exact I|assumption].
      * intros _. lia.
Qed.

Lemma invariant_start : invariant start [].
Proof.
  unfold start.
  pose proof (launch_spec concurrency 0 ltac:(lia)) as H.
  destruct (launch concurrency 0) as [idx ws].
  destruct H as (Hlen & Hb & Hseq & Hp & Hex).
  constructor; simpl; auto; try lia.
  rewrite Hseq, Nat.sub_0_r. reflexivity.
Qed.

Lemma invariant_step (st st' : pool) (done : list nat) :
  invariant st done -> step st st' -> exists done', invariant st' done'.
Proof.
  intros [Hw Hi Hr Hc Hp He] Hstep. destruct Hstep as [st n i e k a Hn | st n i r Hn].
  - exists done.
    destruct (nth_error_setWorker _ _ _ (Awaiting i (k a)) Hn) as (l1 & l2 & Hws & Hset).
    constructor; simpl; rewrite ?Hset; rewrite Hws in *.
    + rewrite <- Hw. rewrite !length_app. reflexivity.
    + assumption.
    + assumption.
    + rewrite awaited_app in *. exact Hc.
    + apply Forall_app in Hp as [Hp1 Hp2]. apply Forall_app. split; [assumption|].
      apply Forall_cons_iff in Hp2 as [Hhd Htl]. constructor; [|assumption].
      destruct Hhd as (x & Hx & Hret). exists x. split; [assumption|].
      intros r Hr'. apply Hret. econstructor. exact Hr'.
    + intros Hin. apply He. apply in_app_or in Hin as [Hin|[Hin|Hin]];
        apply in_or_app; [left; assumption|discriminate|right; right; assumption].
  - exists (done ++ [i]).
    destruct (nth_error_setWorker _ _ _ (snd (claim (index st))) Hn) as (l1 & l2 & Hws & Hset).
    destruct (claim_index (index st) Hi) as (Hb & Haw & Hex).
    rewrite Hws in *. apply Forall_app in Hp as [Hp1 Hp2].
    apply Forall_cons_iff in Hp2 as [Hhd Htl].
    destruct Hhd as (x & Hx & Hret).
    rewrite awaited_app in Hc. simpl in Hc. fold (awaited l2) in Hc.
    constructor; simpl; rewrite ?Hset.
    + rewrite <- Hw. rewrite !length_app. reflexivity.
    + lia.
    + apply Forall2_app; [assumption|]. constructor; [|constructor].
      exists x. split; [assumption|]. apply Hret. constructor.
    + rewrite awaited_app. simpl. fold (awaited l2).
      destruct (snd (claim (index st))) as [j q|] eqn:Hcl.
      * destruct (Haw j q eq_refl) as (-> & -> & _).
        rewrite seq_S. simpl. rewrite <- Hc.
        rewrite <- !app_assoc. apply Permutation_app_head. simpl.
        etransitivity; [|apply Permutation_middle].
        constructor. apply Permutation_app_head. apply Permutation_cons_append.
      * destruct (Hex eq_refl) as (-> & _). rewrite <- Hc.
        rewrite <- !app_assoc. apply Permutation_app_head. simpl.
        apply Permutation_middle.
    + apply Forall_app. split; [assumption|]. constructor; [|assumption].
      destruct (snd (claim (index st))) as [j q|] eqn:Hcl; [|exact I].
      destruct (Haw j q eq_refl) as (-> & _ & y & Hy & ->).
      exists y. split; auto.
    + intros Hin.
      destruct (snd (claim (index st))) as [j q|] eqn:Hcl.
      * assert (Hold : In Exited (l1 ++ Awaiting i (Ret r) :: l2)).
        { apply in_app_or in Hin as [Hin|[Hin|Hin]];
            apply in_or_app; [left; assumption|discriminate|right; right; assumption]. }
        specialize (He Hold). destruct (Haw j q eq_refl) as (-> & Hs & y & Hy & _).
        assert (index st < List.length items)
          by (apply nth_error_Some; congruence).
        lia.
      * destruct (Hex eq_refl) as (-> & Hlen). exact Hlen.
Qed.

Lemma reachable_invariant (st : pool) :
  reachable st -> exists done, invariant st done.
Proof.
  induction 1 as [|st st' _ [done IH] Hstep].
  - exists []. apply invariant_start.
  - eapply invariant_step; eassumption.
Qed.


Lemma awaited_settled (ws : list worker) :
  (forall w, In w ws -> w = Exited) -> awaited ws = [].
Proof.
  induction ws as [|w ws IH]; intros H; [reflexivity|].
  simpl. rewrite (H w (or_introl eq_refl)). simpl. apply IH.
  intros w' Hin. apply H. right. assumption.
Qed.

Lemma settled_results (st : pool) :
  1 <= concurrency -> reachable st -> settled st ->
  exists done,
    Permutation done (seq 0 (List.length items))
    /\ Forall2 answers done (results st).
Proof.
  intros Hc Hreach Hset. destruct (reachable_invariant st Hreach) as [done Hinv].
  destruct Hinv as [Hw Hi Hr Hcl Hp He].
  exists done. split; [|assumption].
  rewrite (awaited_settled _ Hset), app_nil_r in Hcl.
  rewrite <- He; [assumption|].
  destruct (workers st) as [|w ws] eqn:Hws; [simpl in Hw; lia|].
  left. apply (Hset w). rewrite Hws. left. reflexivity.
Qed.

Lemma wsAcc_Exited (ws : list worker) : wsAcc ws -> wsAcc (Exited :: ws).
Proof.
  induction 1 as [ws _ IHa _ IHr]. constructor.
  - intros [|n] i e k a Hn; simpl in Hn; [discriminate|]. simpl.
    destruct ws; [destruct n; discriminate|]. apply IHa. assumption.
  - intros [|n] i r Hn; simpl in Hn; [discriminate|]. simpl.
    destruct ws; [destruct n; discriminate|]. eapply IHr; eassumption.
Qed.

Lemma worker_after (i : nat) (p : proc Ans R) (i' : nat) (e' : E)
  (k' : Ans e' -> proc Ans R) (a : Ans e') :
  Awaiting i p = Awaiting i' (Await e' k') -> i = i' /\ after p (k' a).
Proof.
  intros H.
  change (match Awaiting i p with
          | Awaiting j q => j = i' /\ after q (k' a)
          | Exited => True
          end).
  rewrite H. split; [reflexivity|]. exists a. reflexivity.
Qed.

Lemma wsAcc_cons (p : proc Ans R) : forall i ws,
  wsAcc ws -> wsAcc (Awaiting i p :: ws).
Proof.
  induction p as [r|e k IHk]; intros i ws Hws.
  - induction Hws as [ws Ha IHa Hr IHr]. constructor.
    + intros [|n] i' e' k' a Hn; simpl in Hn; [discriminate|]. simpl.
      destruct ws; [destruct n; discriminate|]. apply IHa. assumption.
    + intros [|n] i' r' Hn; simpl in Hn.
      * simpl. apply wsAcc_Exited. constructor; assumption.
      * simpl. destruct ws; [destruct n; discriminate|]. eapply IHr; eassumption.
  - induction Hws as [ws Ha IHa Hr IHr]. constructor.
    + intros [|n] i' e' k' a Hn; simpl in Hn.
      * simpl.
        destruct (worker_after i (Await e k) i' e' k' a) as [<- [a0 ->]];
          [congruence|].
        apply IHk. constructor; assumption.
      * simpl. destruct ws; [destruct n; discriminate|]. apply IHa. assumption.
    + intros [|n] i' r' Hn; simpl in Hn; [discriminate|]. simpl.
      destruct ws; [destruct n; discriminate|]. eapply IHr; eassumption.
Qed.

Lemma wsAcc_all (ws : list worker) : wsAcc ws.
Proof.
  induction ws as [|[i p|] ws IH].
  - constructor; intros [|n]; discriminate.
  - apply wsAcc_cons. assumption.
  - apply wsAcc_Exited. assumption.
Qed.

Lemma halts_from (k : nat) : forall st,
  List.length items - index st <= k -> halts st.
Proof.
  induction k as [|k IH].
  - intros [idx res ws] Hk. simpl in Hk.
    revert res. induction (wsAcc_all ws) as [ws _ IHa _ IHr]. intros res.
    constructor. intros st' Hstep.
    inversion Hstep as [st n i e k a Hn | st n i r Hn]; subst; simpl in *.
    + apply IHa. assumption.
    + unfold claim.
      destruct (nth_error items idx) eqn:Hx.
      * exfalso. assert (idx < List.length items) by (apply nth_error_Some; congruence). lia.
      * simpl. eapply IHr. eassumption.
  - intros [idx res ws] Hk. simpl in Hk.
    revert res. induction (wsAcc_all ws) as [ws _ IHa _ IHr]. intros res.
    constructor. intros st' Hstep.
    inversion Hstep as [st n i e k' a Hn | st n i r Hn]; subst; simpl in *.
    + apply IHa. assumption.
    + unfold claim.
      destruct (nth_error items idx) eqn:Hx.
      * simpl. apply IH. simpl. lia.
      * simpl. eapply IHr. eassumption.
Qed.

Lemma halts_start : halts start.
Proof. apply (halts_from (List.length items)). lia. Qed.

(** Progress: a state that is not settled can take a step, as long as
    operations are answered. *)
Lemma progress (answer : forall e : E, Ans e) (st : pool) :
  settled st \/ exists st', step st st'.
Proof.
  unfold settled.
  assert (H : (forall w, In w (workers st) -> w = Exited)
              \/ exists n i p, nth_error (workers st) n = Some (Awaiting i p)).
  { induction (workers st) as [|[i p|] ws IH].
    - left. intros w [].
    - right. exists 0, i, p. reflexivity.
    - destruct IH as [IH|(n & i & p & Hn)].
      + left. intros w [<-|Hin]; auto.
      + right. exists (S n), i, p. assumption. }
  destruct H as [H|(n & i & [r|e k] & Hn)]; [left; assumption| |]; right.
  - eexists. eapply step_resume. eassumption.
  - eexists. eapply step_answer with (a := answer e). eassumption.
Qed.

Lemma inFlight_le (st : pool) :
  inFlight st <= List.length (workers st).
Proof. unfold inFlight. apply filter_length_le. Qed.

End PoolFacts.

(** ** Collecting the signatures *)

Section CollectFacts.

Variables TOTAL BATCH_SIZE : nat.
Variable getSignatures : nat -> string -> nat -> list string.


Lemma last_nonempty {A : Type} (l : list A) : forall (a d d' : A),
  last (a :: l) d = last (a :: l) d'.
Proof.
  induction l as [|b l IH]; intros a d d'; [reflexivity|].
  change (last (b :: l) d = last (b :: l) d'). apply IH.
Qed.

Lemma last_app_default {A : Type} (l1 l2 : list A) (d : A) :
  last (l1 ++ l2) d = last l2 (last l1 d).
Proof.
  revert d. induction l1 as [|x l1 IH]; intros d; [reflexivity|].
  destruct l1 as [|y l1].
  - destruct l2 as [|a l2]; [reflexivity|].
    change (last (a :: l2) d = last (a :: l2) x). apply last_nonempty.
  - change (last ((y :: l1) ++ l2) d = last l2 (last (y :: l1) d)). apply IH.
Qed.

Lemma collect_collected (k : nat) (before : string) (fetched0 : list string) :
  collected TOTAL BATCH_SIZE getSignatures k before fetched0
    (collect TOTAL BATCH_SIZE getSignatures k before fetched0).
Proof.
  funelim (collect TOTAL BATCH_SIZE getSignatures k before fetched0).
  - (* the loop condition fails *)
    unfold collected. cbn [pagesOf List.concat].
    rewrite app_nil_r. split; [|split; [|split; [|split]]].
    + reflexivity.
    + intros [|j] b l'; discriminate.
    + intros [|j] page; discriminate.
    + left. lia.
    + auto.
  - (* the source answers with no signature *)
    unfold collected. cbn [pagesOf]. rewrite Heq.
    cbn [List.concat app]. rewrite app_nil_r. split; [|split; [|split; [|split]]].
    + reflexivity.
    + intros [|j] b l' Hj; [|destruct j; discriminate].
      cbn [firstn List.concat last]. rewrite app_nil_r.
      cbn [nth_error] in Hj. injection Hj as <- <-. auto.
    + intros [|j] page Hp Hlt; simpl in Hlt; lia.
    + right. exists []. reflexivity.
    + auto.
  - (* a page of signatures *)
    destruct (collect TOTAL BATCH_SIZE getSignatures (S k)
                (last (s :: sigs) before) (fetchedSignatures ++ s :: sigs))
      as [fetched calls].
    unfold collected in *. cbn [pagesOf]. rewrite Heq.
    destruct H as (Hf & Hb & Hc & Hd & He).
    split; [|split; [|split; [|split]]].
    + rewrite Hf. cbn [List.concat]. rewrite <- app_assoc. reflexivity.
    + intros [|j] b l' Hj.
      * cbn [firstn List.concat last]. rewrite app_nil_r.
        cbn [nth_error] in Hj. injection Hj as <- <-. auto.
      * cbn [nth_error] in Hj. specialize (Hb j b l' Hj). cbv zeta in Hb.
        cbn [firstn List.concat]. rewrite last_app_default.
        rewrite <- app_assoc in Hb. exact Hb.
    + intros [|j] page Hp Hlt.
      * cbn [nth_error] in Hp. injection Hp as <-. discriminate.
      * cbn [nth_error] in Hp. apply (Hc j page Hp). simpl in Hlt. lia.
    + destruct Hd as [Hd|[pre Hd]]; [left; assumption|].
      right. exists ((s :: sigs) :: pre). rewrite Hd. reflexivity.
    + intros Hon Hle. apply He.
      * intros j b l' Hj. replace (S k + j) with (k + S j) by lia.
        apply Hon. exact Hj.
      * specialize (Hon 0 _ _ eq_refl). rewrite Nat.add_0_r, Heq in Hon.
        rewrite length_app. lia.
Qed.

End CollectFacts.

(** ** The batches *)

Lemma insertSorted_perm {A : Type} (cmp : A -> A -> JS.number) (x : A) (l : list A) :
  Permutation (insertSorted cmp x l) (x :: l).
Proof.
  induction l as [|y l IH]; simpl; [reflexivity|].
  destruct (JS.lt (cmp y x) (JS.Int 0)); [|reflexivity].
  rewrite IH. apply perm_swap.
Qed.

Lemma sort_perm {A : Type} (cmp : A -> A -> JS.number) (l : list A) :
  Permutation (sort cmp l) l.
Proof.
  induction l as [|x l IH]; simpl; [reflexivity|].
  unfold sort in *. simpl. rewrite insertSorted_perm. constructor. assumption.
Qed.

Lemma filter_perm {A : Type} (f : A -> bool) (l l' : list A) :
  Permutation l l' -> Permutation (filter f l) (filter f l').
Proof.
  induction 1 as [|x l l' _ IH|x y l|l l' l'' _ IH1 _ IH2]; simpl.
  - reflexivity.
  - destruct (f x); [constructor|]; assumption.
  - destruct (f x), (f y); try reflexivity. apply perm_swap.
  - etransitivity; eassumption.
Qed.

Lemma resolvedOnly_app (l1 l2 : list ExtractedResult) :
  resolvedOnly (l1 ++ l2) = resolvedOnly l1 ++ resolvedOnly l2.
Proof.
  induction l1 as [|[tx| |] l1 IH]; simpl; rewrite ?IH; reflexivity.
Qed.

Lemma pumpCAsOf_perm (parsed : list ExtractedResult) :
  Permutation (pumpCAsOf parsed)
    (filter isPump (filter hasTimestamp (resolvedOnly parsed))).
Proof. apply filter_perm. apply sort_perm. Qed.

Lemma flat_map_pumpCAsOf (batches : list (list ExtractedResult)) :
  Permutation (flat_map pumpCAsOf batches) (matching batches).
Proof.
  unfold matching. induction batches as [|parsed batches IH]; simpl; [reflexivity|].
  rewrite resolvedOnly_app, !filter_app.
  apply Permutation_app; [apply pumpCAsOf_perm | exact IH].
Qed.

Lemma processBatch_oldest (i tb : nat) (t : totals) (parsed : list ExtractedResult) :
  oldestPumpToken (fst (processBatch i tb t parsed))
  = fold_left updateOldest (pumpCAsOf parsed) (oldestPumpToken t).
Proof. reflexivity. Qed.

Lemma batchLoop_oldest (batches : list (list ExtractedResult)) : forall i tb t,
  oldestPumpToken (fst (batchLoop i tb t batches))
  = fold_left updateOldest (flat_map pumpCAsOf batches) (oldestPumpToken t).
Proof.
  induction batches as [|parsed batches IH]; intros i tb t; [reflexivity|].
  cbn [batchLoop flat_map].
  destruct (processBatch i tb t parsed) as [t' out] eqn:Hp.
  specialize (IH (S i) tb t').
  destruct (batchLoop (S i) tb t' batches) as [t'' out'].
  cbn [fst] in *. rewrite IH, fold_left_app. f_equal.
  change t' with (fst (t', out)). rewrite <- Hp. apply processBatch_oldest.
Qed.

Lemma parse_truthy (ts : string) (ms : Z) :
  Date.parse ts = JS.Int ms -> JS.truthy ts = true.
Proof. destruct ts; [discriminate|reflexivity]. Qed.

Lemma stampedAt_fun (tx : Extracted) (a b : Z) :
  stampedAt tx a -> stampedAt tx b -> a = b.
Proof.
  intros (ts & H1 & H2) (ts' & H1' & H2'). congruence.
Qed.

Lemma fold_updateOldest (l : list Extracted) : forall (seen : list Extracted) acc,
  (forall tx, In tx l -> exists ms, stampedAt tx ms) ->
  match acc with
  | Some o => oldestOf seen o
  | None => seen = []
  end ->
  match fold_left updateOldest l acc with
  | Some o => oldestOf (seen ++ l) o
  | None => seen ++ l = []
  end.
Proof.
  induction l as [|tx l IH]; intros seen acc Hl Hacc.
  - simpl. rewrite app_nil_r. assumption.
  - cbn [fold_left].
    replace (seen ++ tx :: l) with ((seen ++ [tx]) ++ l)
      by (rewrite <- app_assoc; reflexivity).
    apply IH; [intros; apply Hl; right; assumption|].
    destruct (Hl tx (or_introl eq_refl)) as (ms & ts & Hts & Hparse).
    unfold updateOldest. rewrite Hts, (parse_truthy ts ms Hparse).
    destruct acc as [o|].
    + destruct Hacc as (tx0 & ms0 & Hin & Haddr & Hstamp & Hp0 & Hmin).
      rewrite Hparse, Hp0. cbn [JS.lt].
      destruct (ms <? ms0)%Z eqn:Hlt.
      * apply Z.ltb_lt in Hlt.
        exists tx, ms. cbn [pt_tokenAddress pt_timestamp].
        repeat split; auto.
        -- apply in_or_app. right. left. reflexivity.
        -- intros tx' Hin'. apply in_app_or in Hin' as [Hin'|[<-|[]]].
           ++ destruct (Hmin tx' Hin') as (ms' & Hst & Hle).
              exists ms'. split; [assumption|lia].
           ++ exists ms. split; [exists ts; auto|lia].
      * apply Z.ltb_ge in Hlt.
        exists tx0, ms0. repeat split; auto.
        -- apply in_or_app. left. assumption.
        -- intros tx' Hin'. apply in_app_or in Hin' as [Hin'|[<-|[]]].
           ++ apply (Hmin tx' Hin').
           ++ exists ms. split; [exists ts; auto|lia].
    + subst seen. exists tx, ms. cbn [pt_tokenAddress pt_timestamp app].
      repeat split; auto.
      * left. reflexivity.
      * intros tx' [<-|[]]. exists ms. split; [exists ts; auto|lia].
Qed.

Lemma oldestOf_perm (l l' : list Extracted) (o : PumpToken) :
  Permutation l l' -> oldestOf l o -> oldestOf l' o.
Proof.
  intros Hp (tx & ms & Hin & Ha & Hs & Hparse & Hmin).
  exists tx, ms. repeat split; auto.
  - eapply Permutation_in; eassumption.
  - intros tx' Hin'. apply Hmin. eapply Permutation_in; [symmetry|]; eassumption.
Qed.

Lemma batchLoop_oldest_spec (batches : list (list ExtractedResult)) (i tb : nat) :
  (forall tx, In tx (matching batches) -> exists ms, stampedAt tx ms) ->
  match oldestPumpToken (fst (batchLoop i tb initialTotals batches)) with
  | Some o => oldestOf (matching batches) o
  | None => matching batches = []
  end.
Proof.
  intros Hwf. rewrite batchLoop_oldest. cbn [oldestPumpToken initialTotals].
  pose proof (flat_map_pumpCAsOf batches) as Hperm.
  pose proof (fold_updateOldest (flat_map pumpCAsOf batches) [] None) as H.
  cbn [app] in H.
  destruct (fold_left updateOldest (flat_map pumpCAsOf batches) None) as [o|].
  - eapply oldestOf_perm; [exact Hperm|]. apply H; [|reflexivity].
    intros tx Hin. apply Hwf. eapply Permutation_in; eassumption.
  - assert (Hnil : flat_map pumpCAsOf batches = []).
    { apply H; [|reflexivity].
      intros tx Hin. apply Hwf. eapply Permutation_in; eassumption. }
    rewrite Hnil in Hperm. apply Permutation_nil in Hperm. assumption.
Qed.

Lemma In_resolvedOnly (parsed : list ExtractedResult) (tx : Extracted) :
  In tx (resolvedOnly parsed) <-> In (Resolved tx) parsed.
Proof.
  induction parsed as [|[x| |] parsed IH]; simpl.
  - tauto.
  - rewrite IH. split; intros [H|H]; auto; left; congruence.
  - rewrite IH. split; [auto|]. intros [H|H]; [discriminate|assumption].
  - rewrite IH. split; [auto|]. intros [H|H]; [discriminate|assumption].
Qed.

Lemma In_matching (batches : list (list ExtractedResult)) (tx : Extracted) :
  In tx (matching batches) <-> matchingRecord batches tx.
Proof.
  unfold matching, matchingRecord, isPump, hasTimestamp.
  rewrite !filter_In, In_resolvedOnly, in_concat.
  split.
  - intros [[(parsed & Hb & Hp) Hts] Hpump].
    repeat split; eauto.
    destruct (timestamp tx) as [ts|]; [eauto|discriminate].
  - intros ((parsed & Hb & Hp) & (ts & Hts) & Hpump).
    rewrite Hts. repeat split; eauto.
Qed.

(** ** The decoder on short and on well-formed payloads *)

Lemma startsWith_truthy (s p : string) :
  JS.truthy p = true -> JS.startsWith s p = true -> JS.truthy s = true.
Proof.
  unfold JS.startsWith. destruct p as [|c p]; [discriminate|].
  destruct s; [discriminate|reflexivity].
Qed.

Lemma adjustOffset_nonneg (offset : JS.number) (len : Z) :
  (0 <= len -> 0 <= JS.adjustOffset offset len)%Z.
Proof.
  intros Hlen. unfold JS.adjustOffset. destruct offset as [z|]; [|lia].
  destruct (z =? 0)%Z; [lia|].
  destruct (z <? 0)%Z eqn:Hneg; [lia|]. apply Z.ltb_ge in Hneg.
  destruct (z <? len)%Z; lia.
Qed.

Lemma slice_NaN_end (data : list byte) (start : JS.number) :
  JS.slice data start JS.NaN = [].
Proof.
  unfold JS.slice. cbn [JS.adjustOffset].
  pose proof (adjustOffset_nonneg start (Z.of_nat (List.length data)) ltac:(lia)) as H.
  destruct (JS.adjustOffset start (Z.of_nat (List.length data)) <? 0)%Z eqn:Hlt.
  - apply Z.ltb_lt in Hlt. lia.
  - reflexivity.
Qed.

Lemma get_past_end (data : list byte) (z : Z) :
  (Z.of_nat (List.length data) <= z)%Z -> JS.get data (JS.Int z) = None.
Proof.
  intros H. unfold JS.get. destruct (z <? 0)%Z; [reflexivity|].
  apply nth_error_None. lia.
Qed.

(** A buffer of eight bytes or fewer: the first length byte is read
    past the end, the offset becomes [NaN], and every field is
    empty. *)
Lemma decodeBuffer_short (decoded : list byte) :
  List.length decoded <= 8 ->
  decodeBuffer decoded
  = {| name := []; symbol := []; uri := [];
       mintAddress := ""; bondingCurve := ""; user := "" |}.
Proof.
  intros H. unfold decodeBuffer, readLengthPrefixedString. cbv zeta.
  cbn [JS.add fst snd]. change (0 + 8)%Z with 8%Z.
  rewrite (get_past_end decoded 8) by lia.
  cbn [JS.ToNumber JS.add JS.get fst snd]. rewrite !slice_NaN_end.
  reflexivity.
Qed.

(** C2, the failing inputs.  A payload whose buffer ends inside the
    [user] key is decoded to an event with a twelve-byte key as [user],
    and one whose buffer ends 16 bytes into the mint key to an event
    with half a key as mint address, which [extractTransactionInfo]
    returns as a resolved record; the result is [null] in neither case.
    A buffer that ends in front of the mint key gives an empty mint
    address, and that transaction is skipped. *)
Theorem processMintLog_truncated_payload :
  (processMintLog (Sample.logsOf Sample.payloadCut)
   = Some {| name := [84; 111; 107; 65]%N; symbol := [84; 65]%N; uri := [117]%N;
             mintAddress := Sample.addressA;
             bondingCurve := "4wBqpZM9xaSheZzJSMawUKKwhdpChKbZ5eu5ky4Vigw";
             user := "dGMijwWRA33CkiHZ" |}
   /\ List.length (Base64.decode Sample.payloadCut)
      = 8 + (4 + 4) + (4 + 2) + (4 + 1) + 32 + 32 + 12)
  /\ (List.length (Base64.decode Sample.payloadHalfMint)
      = 8 + (4 + 4) + (4 + 2) + (4 + 14) + 16
      /\ option_map mintAddress (processMintLog (Sample.logsOf Sample.payloadHalfMint))
         = Some "CVPHXWPXFBhsjYEaNjN48r"
      /\ run (extractTransactionInfo "sigA" 1)
           (Sample.world (fun _ =>
              Normal (Some (Sample.txOf Sample.payloadHalfMint (Some 1700000000%Z))))) 0
         = (Resolved {| signature := "sigA"; tokenAddress := "CVPHXWPXFBhsjYEaNjN48r";
                        timestamp := Some "2023-11-14T22:13:20.000Z" |},
            [getParsedTransaction "sigA"]))
  /\ (List.length (Base64.decode Sample.payloadNoMint) = 8 + (4 + 4) + (4 + 2) + (4 + 14)
      /\ option_map mintAddress (processMintLog (Sample.logsOf Sample.payloadNoMint))
         = Some ""
      /\ run (extractTransactionInfo "sigA" 1)
           (Sample.world (fun _ =>
              Normal (Some (Sample.txOf Sample.payloadNoMint (Some 1700000000%Z))))) 0
         = (Skipped, [getParsedTransaction "sigA"])).
Proof. repeat split; vm_compute; reflexivity. Qed.

(** C3 (as amended).  A buffer built after the seven-field layout is
    decoded to the strings and keys it was built from, when the UTF-8
    bytes of each string are fewer than 256 and no string begins with
    U+FEFF. *)
Theorem decodeMint_layout (data : string) (lead : list byte)
  (name symbol uri : text) (mint bondingCurve user : list byte) :
  Base64.decode data = layout lead name symbol uri mint bondingCurve user ->
  List.length lead = 8 ->
  Forall Utf8.scalar name -> Forall Utf8.scalar symbol -> Forall Utf8.scalar uri ->
  List.length (Utf8.encode name) < 256 ->
  List.length (Utf8.encode symbol) < 256 ->
  List.length (Utf8.encode uri) < 256 ->
  hd_error name <> Some Utf8.BOM ->
  hd_error symbol <> Some Utf8.BOM ->
  hd_error uri <> Some Utf8.BOM ->
  List.length mint = 32 -> List.length bondingCurve = 32 -> List.length user = 32 ->
  decodeMint data
  = Normal {| name := name; symbol := symbol; uri := uri;
              mintAddress := Bs58.encode mint;
              bondingCurve := Bs58.encode bondingCurve;
              user := Bs58.encode user |}.
Proof.
  intros Hdata Hlead Hn Hs Hu Hln Hls Hlu Bn Bs Bu Hm Hb Hus.
  unfold decodeMint. rewrite Hdata. unfold layout.
  rewrite decodeBuffer_layout by assumption.
  rewrite !Utf8Facts.decode_encode by assumption.
  reflexivity.
Qed.

(** C3, the claim as stated fails: the payload is built after the
    layout from the name U+FEFF "T", and the decoded name is "T". *)
Lemma decodeMint_drops_byte_order_mark :
  Base64.decode Sample.payloadBOM
  = layout Sample.lead [Utf8.BOM; 84%N] [83%N] [117%N] Sample.key Sample.key Sample.key
  /\ option_map name (processMintLog (Sample.logsOf Sample.payloadBOM))
     = Some [84%N].
Proof. split; vm_compute; reflexivity. Qed.

Lemma decodeMint_layout_witness :
  Base64.decode Sample.payloadA
  = layout Sample.lead Sample.nameA Sample.symbolA Sample.uriA
      Sample.mintA Sample.key Sample.userA
  /\ decodeMint Sample.payloadA
     = Normal {| name := Sample.nameA; symbol := Sample.symbolA;
                 uri := Sample.uriA;
                 mintAddress := Bs58.encode Sample.mintA;
                 bondingCurve := Bs58.encode Sample.key;
                 user := Bs58.encode Sample.userA |}.
Proof.
  split; [vm_compute; reflexivity|].
  apply (decodeMint_layout Sample.payloadA Sample.lead Sample.nameA Sample.symbolA
           Sample.uriA Sample.mintA Sample.key Sample.userA);
    lazymatch goal with
    | |- Forall _ _ => repeat constructor; unfold Utf8.scalar; lia
    | |- _ <> _ => discriminate
    | |- _ < _ => vm_compute; lia
    | |- _ => vm_compute; reflexivity
    end.
Defined.

(** C5.  A call makes one, two or three attempts, with a pause of
    100 ms between two attempts and nothing else; an attempt whose
    answer has no log messages, or whose call raised, is followed by
    another one as long as fewer than three were made; three failed
    attempts give [null]; two failed attempts and a third that gives
    a result give that result. *)
Theorem extractTransactionInfo_retry_budget (signature : string)
  (env : nat -> forall e, rpc_answer e) :
  let a k := env (2 * k) (getParsedTransaction signature) in
  let r := fst (run (extractTransactionInfo signature 1) env 0) in
  let trace := snd (run (extractTransactionInfo signature 1) env 0) in
  (exists n, 1 <= n <= 3 /\ trace = attempts signature n)
  /\ (missing (a 0) -> 2 <= List.length (filter isFetch trace))
  /\ (missing (a 0) -> missing (a 1) -> 3 <= List.length (filter isFetch trace))
  /\ (attemptResult signature (a 0) = None -> attemptResult signature (a 1) = None ->
      attemptResult signature (a 2) = None ->
      r = Null /\ List.length (filter isFetch trace) = 3)
  /\ (forall r', attemptResult signature (a 0) = None ->
      attemptResult signature (a 1) = None ->
      attemptResult signature (a 2) = Some r' ->
      r = r' /\ List.length (filter isFetch trace) = 3).
Proof.
  cbv zeta. rewrite run_extractTransactionInfo.
  destruct (attemptResult signature (env (2 * 0) (getParsedTransaction signature)))
    as [r0|] eqn:H0;
  [|destruct (attemptResult signature (env (2 * 1) (getParsedTransaction signature)))
    as [r1|] eqn:H1;
   [|destruct (attemptResult signature (env (2 * 2) (getParsedTransaction signature)))
    as [r2|] eqn:H2]]; cbn [fst snd].
  - split; [exists 1; split; [lia|reflexivity]|].
    repeat split; try discriminate;
      intros Hm; apply (missing_attemptResult signature) in Hm; congruence.
  - split; [exists 2; split; [lia|reflexivity]|].
    repeat split; try discriminate; try (simpl; lia).
    intros _ Hm. apply (missing_attemptResult signature) in Hm. congruence.
  - split; [exists 3; split; [lia|reflexivity]|].
    repeat split; try discriminate; try (simpl; lia).
    congruence.
  - split; [exists 3; split; [lia|reflexivity]|].
    repeat split; try discriminate; simpl; lia.
Qed.

(** A node that never answers with log messages: three attempts, two
    pauses, [null]. *)
Example extractTransactionInfo_always_failing :
  run (extractTransactionInfo "sigA" 1)
    (Sample.world (fun n => if Nat.even (n / 2) then Throw else Normal None)) 0
  = (Null,
     [getParsedTransaction "sigA"; setTimeout 100;
      getParsedTransaction "sigA"; setTimeout 100;
      getParsedTransaction "sigA"]).
Proof. vm_compute. reflexivity. Qed.

(** Two failures, then the transaction. *)
Example extractTransactionInfo_third_attempt :
  run (extractTransactionInfo "sigA" 1)
    (Sample.world (fun n =>
       if (n <? 4)%nat then Throw
       else Normal (Some (Sample.txOf Sample.payloadA (Some 1700000000%Z))))) 0
  = (Resolved {| signature := "sigA"; tokenAddress := Sample.addressA;
                 timestamp := Some "2023-11-14T22:13:20.000Z" |},
     [getParsedTransaction "sigA"; setTimeout 100;
      getParsedTransaction "sigA"; setTimeout 100;
      getParsedTransaction "sigA"]).
Proof. vm_compute. reflexivity. Qed.

(** C8, the failing input.  A transaction whose execution time is 0
    (the epoch) is fetched at the first attempt and decodes to an
    event, and the resolved record has no time stamp, where the claim
    asks for "1970-01-01T00:00:00.000Z"; the text is what the
    conversion gives for 0. *)
Theorem extractTransactionInfo_blockTime_zero :
  run (extractTransactionInfo "sigA" 1)
    (Sample.world (fun _ => Normal (Some (Sample.txOf Sample.payloadA (Some 0%Z))))) 0
  = (Resolved {| signature := "sigA"; tokenAddress := Sample.addressA;
                 timestamp := None |},
     [getParsedTransaction "sigA"])
  /\ Date.toISOString (0 * 1000) = Normal "1970-01-01T00:00:00.000Z".
Proof. split; vm_compute; reflexivity. Qed.

(** The time stamp of a resolved record in the other cases: absent
    when the node gave no execution time, the text of the time value
    otherwise. *)
Lemma resolve_blockTime (sg : string) (tx : ParsedTransactionWithMeta)
  (logs : list string) (r : Extracted) :
  resolve sg tx logs = Normal (Resolved r) ->
  blockTime tx <> Some 0%Z ->
  match blockTime tx with
  | Some t => Date.toISOString (t * 1000) = Normal (Date.format (t * 1000))
              /\ timestamp r = Some (Date.format (t * 1000))
  | None => timestamp r = None
  end.
Proof.
  intros Hr Hz. destruct (resolve_timestamp _ _ _ _ Hr) as (_ & _ & H).
  destruct (blockTime tx) as [t|]; [|assumption].
  destruct (t =? 0)%Z eqn:Ht.
  - apply Z.eqb_eq in Ht. subst t. contradiction Hz. reflexivity.
  - destruct H as [Hv H]. unfold Date.toISOString. rewrite Hv. auto.
Qed.

Section PoolClaims.

Context {E : Type} {Ans : E -> Type} {T R : Type}.
Variable items : list T.
Variable handler : T -> proc Ans R.
Variable concurrency : nat.

Lemma launch_Exited (n : nat) : forall idx m,
  List.length items <= idx + m -> m < n ->
  nth_error (snd (launch items handler n idx)) m = Some Exited.
Proof.
  induction n as [|n IH]; intros idx m Hm Hn; [lia|].
  cbn [launch]. unfold claim at 1.
  destruct (nth_error items idx) as [x|] eqn:Hx.
  - assert (idx < List.length items) by (apply nth_error_Some; congruence).
    specialize (IH (S idx)).
    destruct (launch items handler n (S idx)) as [idx' ws]. cbn [snd] in *.
    destruct m as [|m]; [lia|]. cbn [nth_error]. apply IH; lia.
  - apply nth_error_None in Hx. specialize (IH idx).
    destruct (launch items handler n idx) as [idx' ws]. cbn [snd] in *.
    destruct m as [|m]; [reflexivity|]. cbn [nth_error]. apply IH; lia.
Qed.

Lemma start_workers :
  workers (start items handler concurrency)
  = snd (launch items handler concurrency 0).
Proof.
  unfold start. destruct (launch items handler concurrency 0). reflexivity.
Qed.

(** C4.  With at least one worker, every execution of
    [withConcurrency] ends, it ends only when all workers have
    returned, and [results] then holds one value per item: there is a
    list [done] of the indices in the order of their results which is
    a permutation of 0, ..., [items.length - 1], each result being a
    value of the handler on the item at its index.  A worker beyond
    the number of items has returned at the start. *)
Theorem withConcurrency_one_result_per_item (answer : forall e : E, Ans e) :
  1 <= concurrency ->
  halts items handler (start items handler concurrency)
  /\ (forall n, List.length items <= n < concurrency ->
        nth_error (workers (start items handler concurrency)) n = Some Exited)
  /\ forall st, reachable items handler concurrency st ->
       (settled st \/ exists st', step items handler st st')
       /\ (settled st ->
           List.length (results st) = List.length items
           /\ exists done,
                Permutation done (seq 0 (List.length items))
                /\ Forall2 (answers items handler) done (results st)).
Proof.
  intros Hc. split; [apply halts_start|]. split.
  - intros n [Hn1 Hn2]. rewrite start_workers. apply launch_Exited; lia.
  - intros st Hst. split; [apply progress; assumption|].
    intros Hset.
    destruct (settled_results items handler concurrency st Hc Hst Hset)
      as (done & Hperm & Hall).
    split; [|eauto].
    rewrite <- (Forall2_length Hall), (Permutation_length Hperm).
    apply length_seq.
Qed.

Lemma inFlight_bounded (st : pool) :
  reachable items handler concurrency st ->
  inFlight st <= concurrency /\ List.length (workers st) = concurrency.
Proof.
  intros Hst. destruct (reachable_invariant items handler concurrency st Hst)
    as [done Hinv].
  pose proof (inv_workers _ _ _ _ _ Hinv) as Hw.
  split; [|assumption]. rewrite <- Hw. apply inFlight_le.
Qed.

End PoolClaims.

Lemma fetching_awaiting {R : Type} (ws : list (@worker rpc rpc_answer R)) :
  List.length (filter isFetching ws) <= List.length (filter isAwaiting ws).
Proof.
  induction ws as [|[i [r|[s|ms] k]|] ws IH]; simpl; lia.
Qed.

(** C9.  In every state of a call of [withConcurrency], the calls of
    the node that are in flight are at most the handler calls that
    have not settled, and these are at most [concurrency]: the pool
    holds [concurrency] workers and each awaits one call at a time.
    Without a setting, [CONCURRENCY] is 25. *)
Theorem withConcurrency_inFlight_bounded {T R : Type} (items : list T)
  (handler : T -> proc rpc_answer R) (concurrency : nat)
  (st : @pool rpc rpc_answer R) :
  reachable items handler concurrency st ->
  fetchesInFlight st <= inFlight st
  /\ inFlight st <= concurrency
  /\ List.length (workers st) = concurrency
  /\ Config.CONCURRENCY None = 25.
Proof.
  intros Hst. destruct (inFlight_bounded items handler concurrency st Hst) as [H1 H2].
  split; [apply fetching_awaiting|]. auto.
Qed.

Section NoWorker.
Context {E : Type} {Ans : E -> Type} {T R : Type}.
Variable items : list T.
Variable handler : T -> proc Ans R.

(** X20.  Without a worker nothing is claimed: the call returns at
    once, with no result, whatever the items. *)
Lemma withConcurrency_without_worker (st : pool) :
  reachable items handler 0 st ->
  st = start items handler 0 /\ settled st /\ results st = [].
Proof.
  intros H. induction H as [|st st' Hr IH Hs].
  - repeat split. intros w Hw. destruct Hw.
  - destruct IH as (-> & _ & _). inversion Hs; subst;
      match goal with H : nth_error _ _ = Some _ |- _ =>
        cbn in H; destruct n; discriminate H end.
Qed.
End NoWorker.

Section CollectClaims.

Variables TOTAL BATCH_SIZE : nat.
Variable getSignatures : nat -> string -> nat -> list string.

Lemma pagesOf_length (calls : list (string * nat)) : forall k,
  List.length (pagesOf getSignatures k calls) = List.length calls.
Proof.
  induction calls as [|[b l] calls IH]; intros k; simpl; auto.
Qed.

Lemma firstn_S_nth_error {A : Type} (l : list A) : forall j x,
  nth_error l j = Some x -> firstn (S j) l = firstn j l ++ [x].
Proof.
  induction l as [|y l IH]; intros [|j] x H; try discriminate.
  - injection H as ->. reflexivity.
  - cbn [nth_error] in H. cbn [firstn]. rewrite (IH j x H) at 1. reflexivity.
Qed.

Lemma firstn_snoc {A : Type} (pre : list A) (x : A) :
  firstn (List.length pre) (pre ++ [x]) = pre.
Proof.
  rewrite firstn_app, Nat.sub_diag, firstn_all. cbn [firstn]. apply app_nil_r.
Qed.

(** C6.  The loop asks for [min(BATCH_SIZE, TOTAL - collected)]
    signatures at each call, as long as fewer than [TOTAL] are
    collected; the first call uses the start cursor and every later
    call the last signature of the page before it; it stops when
    [TOTAL] is reached or a page comes back empty.  With a source that
    gives at most what is asked for, the list never exceeds [TOTAL]; it
    holds exactly [TOTAL] signatures when no page was empty, and the
    signatures received so far when the source ran out. *)
Theorem collect_pagination (before : string) :
  let fetched := fst (collect TOTAL BATCH_SIZE getSignatures 0 before []) in
  let calls := snd (collect TOTAL BATCH_SIZE getSignatures 0 before []) in
  let pages := pagesOf getSignatures 0 calls in
  let collectedBefore j := List.length (List.concat (firstn j pages)) in
  fetched = List.concat pages
  /\ (forall j b l, nth_error calls j = Some (b, l) ->
        collectedBefore j < TOTAL
        /\ l = Nat.min BATCH_SIZE (TOTAL - collectedBefore j))
  /\ (forall b l, nth_error calls 0 = Some (b, l) -> b = before)
  /\ (forall j b l page,
        nth_error calls (S j) = Some (b, l) -> nth_error pages j = Some page ->
        page <> [] /\ b = last page before)
  /\ (TOTAL <= List.length fetched \/ exists pre, pages = pre ++ [[]])
  /\ ((forall k b l, List.length (getSignatures k b l) <= l) ->
      List.length fetched <= TOTAL)
  /\ ((forall k b l, List.length (getSignatures k b l) <= l) ->
      (forall page, In page pages -> page <> []) ->
      List.length fetched = TOTAL)
  /\ (forall pre, pages = pre ++ [[]] ->
      fetched = List.concat pre /\ List.length fetched < TOTAL).
Proof.
  cbv zeta.
  pose proof (collect_collected TOTAL BATCH_SIZE getSignatures 0 before []) as H.
  destruct (collect TOTAL BATCH_SIZE getSignatures 0 before []) as [fetched calls].
  unfold collected in H. cbn [fst snd app] in *.
  destruct H as (Hf & Hb & Hc & Hd & He).
  pose proof (pagesOf_length calls 0) as Hlen.
  set (pages := pagesOf getSignatures 0 calls) in *.
  split; [assumption|]. split; [|split; [|split; [|split; [|split; [|split]]]]].
  - intros j b l Hj. destruct (Hb j b l Hj) as (H1 & H2 & _). auto.
  - intros b l Hj. destruct (Hb 0 b l Hj) as (_ & _ & H3). exact H3.
  - intros j b l page Hj Hp.
    assert (Hne : page <> []).
    { apply (Hc j page Hp). rewrite Hlen.
      apply nth_error_Some. congruence. }
    split; [assumption|].
    destruct (Hb (S j) b l Hj) as (_ & _ & H3).
    rewrite (firstn_S_nth_error pages j page Hp), concat_app in H3.
    cbn [List.concat] in H3. rewrite app_nil_r, last_app_default in H3.
    destruct page as [|s page]; [contradiction|].
    rewrite H3. apply last_nonempty.
  - assumption.
  - intros Hon. apply He; [|simpl; lia]. intros j b l _. apply Hon.
  - intros Hon Hne. apply Nat.le_antisymm.
    + apply He; [|simpl; lia]. intros j b l _. apply Hon.
    + destruct Hd as [Hd|[pre Hd]]; [assumption|].
      exfalso. apply (Hne []); [|reflexivity].
      rewrite Hd. apply in_or_app. right. left. reflexivity.
  - intros pre Hpre. rewrite Hf, Hpre, concat_app. cbn [List.concat].
    rewrite !app_nil_r. split; [reflexivity|].
    assert (Hcall : exists b l, nth_error calls (List.length pre) = Some (b, l)).
    { destruct (nth_error calls (List.length pre)) as [[b l]|] eqn:Hn; [eauto|].
      apply nth_error_None in Hn. rewrite <- Hlen, Hpre, length_app in Hn.
      simpl in Hn. lia. }
    destruct Hcall as (b & l & Hn).
    destruct (Hb _ _ _ Hn) as (H1 & _).
    rewrite Hpre, firstn_snoc in H1. exact H1.
Qed.

End CollectClaims.

(** A source of five signatures, asked for four by pages of two. *)
Example collect_reaches_target :
  collect 4 2
    (fun k _ _ => nth k [["s1"; "s2"]; ["s3"; "s4"]; ["s5"]] []) 0 "start" []
  = (["s1"; "s2"; "s3"; "s4"], [("start", 2); ("s2", 2)]).
Proof. vm_compute. reflexivity. Qed.

(** A source that runs out after three signatures. *)
Example collect_source_exhausted :
  collect 10 2
    (fun k _ _ => nth k [["s1"; "s2"]; ["s3"]] []) 0 "start" []
  = (["s1"; "s2"; "s3"], [("start", 2); ("s2", 2); ("s3", 2)]).
Proof. vm_compute. reflexivity. Qed.

Section SingleItem.

Context {E : Type} {Ans : E -> Type} {T R : Type}.
Variable handler : T -> proc Ans R.
Variable x : T.

Lemma single_item_from (p : proc Ans R) (r : R) :
  returns p r ->
  forall st, reachable [x] handler 1 st ->
    index st = 1 -> results st = [] -> workers st = [Awaiting 0 p] ->
    exists st', reachable [x] handler 1 st' /\ settled st' /\ results st' = [r].
Proof.
  induction 1 as [r|e k a r _ IH]; intros st Hst Hi Hr Hw.
  - eexists. split; [|split].
    + eapply reachable_step; [exact Hst|].
      apply (step_resume [x] handler st 0 0 r). rewrite Hw. reflexivity.
    + intros w. cbn [workers]. rewrite Hw, Hi. cbn. intros [<-|[]]. reflexivity.
    + cbn [results]. rewrite Hr. reflexivity.
  - apply (IH {| index := index st; results := results st;
                 workers := setWorker 0 (Awaiting 0 (k a)) (workers st) |}).
    + eapply reachable_step; [exact Hst|].
      apply (step_answer [x] handler st 0 0 e k a). rewrite Hw. reflexivity.
    + assumption.
    + assumption.
    + cbn [workers]. rewrite Hw. reflexivity.
Qed.

(** With one item and one worker, every value of the handler is a
    value of the call. *)
Lemma single_item_run (r : R) :
  returns (handler x) r ->
  exists st, reachable [x] handler 1 st /\ settled st /\ results st = [r].
Proof.
  intros H. apply (single_item_from (handler x) r H (start [x] handler 1)).
  - constructor.
  - reflexivity.
  - reflexivity.
  - reflexivity.
Qed.

End SingleItem.

Lemma truthy_app (s : string) (c : ascii) (s' : string) :
  JS.truthy (String.append s (String c s')) = true.
Proof. destruct s; reflexivity. Qed.

Lemma Forall2_Forall_right {A B : Type} (P : A -> B -> Prop) (Q : B -> Prop)
  (l : list A) (l' : list B) :
  (forall a b, P a b -> Q b) -> Forall2 P l l' -> Forall Q l'.
Proof.
  intros H. induction 1; constructor; eauto.
Qed.

Section MainClaims.

Variables TOTAL BATCH_SIZE CONCURRENCY : nat.

Lemma withConcurrencyReturns_wellStamped (sigs : list string)
  (parsed : list ExtractedResult) :
  withConcurrencyReturns CONCURRENCY sigs parsed -> Forall wellStamped parsed.
Proof.
  intros (st & Hst & _ & <-).
  destruct (reachable_invariant _ _ _ st Hst) as [done Hinv].
  pose proof (inv_results _ _ _ _ _ Hinv) as Hres.
  eapply Forall2_Forall_right; [|exact Hres].
  intros i r (s & _ & Hret).
  apply (returns_wellStamped s 3 1 r); [lia|assumption].
Qed.

Lemma batchesFrom_wellStamped (fetched : list string)
  (batches : list (list ExtractedResult)) : forall i,
  batchesFrom BATCH_SIZE CONCURRENCY fetched i batches ->
  Forall (Forall wellStamped) batches.
Proof.
  induction batches as [|parsed batches IH]; intros i H; constructor.
  - destruct H as [H _]. eapply withConcurrencyReturns_wellStamped. exact H.
  - destruct H as [_ H]. apply (IH (S i)). exact H.
Qed.

Lemma wellStamped_stampedAt (batches : list (list ExtractedResult)) (tx : Extracted) :
  Forall (Forall wellStamped) batches -> matchingRecord batches tx ->
  exists ms, stampedAt tx ms.
Proof.
  intros Hwf ((parsed & Hb & Hp) & (ts & Hts) & _).
  rewrite Forall_forall in Hwf. specialize (Hwf parsed Hb).
  rewrite Forall_forall in Hwf. specialize (Hwf (Resolved tx) Hp).
  simpl in Hwf. rewrite Hts in Hwf. destruct Hwf as (ms & Hv & ->).
  exists ms, (Date.format ms). split; [assumption|].
  apply DateFacts.parse_format. assumption.
Qed.

(** C1.  After the last batch, [main] prints either the oldest pump
    token or that none was found.  The token printed is the address
    and time stamp of a record of some batch that is resolved with a
    time stamp and whose address ends in "pump", and no such record of
    any batch has an earlier time; "none found" is printed only when
    no batch holds such a record.  During the run the current oldest
    token gives way only to a strictly earlier one. *)
Theorem main_reports_oldest_pump_token
  (getSignatures : nat -> string -> nat -> list string) (before : string)
  (batches : list (list ExtractedResult)) (out : list output) :
  mainRun TOTAL BATCH_SIZE CONCURRENCY getSignatures before batches out ->
  ((exists prefix tx ts ms,
       out = prefix ++ [FirstPumpToken (tokenAddress tx) ts]
       /\ matchingRecord batches tx
       /\ timestamp tx = Some ts /\ Date.parse ts = JS.Int ms
       /\ forall tx', matchingRecord batches tx' ->
            exists ms', stampedAt tx' ms' /\ (ms <= ms')%Z)
   \/ (exists prefix,
         out = prefix ++ [NoPumpTokenFound]
         /\ forall tx, ~ matchingRecord batches tx))
  /\ (forall o tx ts ms mo,
        timestamp tx = Some ts -> Date.parse ts = JS.Int ms ->
        Date.parse (pt_timestamp o) = JS.Int mo ->
        updateOldest (Some o) tx
        = if (ms <? mo)%Z
          then Some {| pt_tokenAddress := tokenAddress tx; pt_timestamp := ts |}
          else Some o).
Proof.
  intros (Hlen & Hfrom & Hout). split.
  - set (fetched := fst (collect TOTAL BATCH_SIZE getSignatures 0 before [])) in *.
    set (tb := totalBatchesOf BATCH_SIZE fetched) in *.
    pose proof (batchesFrom_wellStamped fetched batches 0 Hfrom) as Hwf.
    pose proof (batchLoop_oldest_spec batches 0 tb) as Hspec.
    destruct (batchLoop 0 tb initialTotals batches) as [t loopOut].
    cbn [fst] in Hspec. subst out. unfold finalReport.
    assert (Hst : forall tx, In tx (matching batches) -> exists ms, stampedAt tx ms).
    { intros tx Hin. apply In_matching in Hin.
      eapply wellStamped_stampedAt; eassumption. }
    specialize (Hspec Hst).
    destruct (oldestPumpToken t) as [o|].
    + left. destruct Hspec as (tx & ms & Hin & Ha & Hts & Hp & Hmin).
      exists (loopOut ++ [Summary (totalPumpCount t) (totalValid t);
                          SkippedTotal (totalSkipped t)]), tx, (pt_timestamp o), ms.
      rewrite Ha. split; [rewrite <- !app_assoc; reflexivity|].
      split; [apply In_matching; assumption|].
      split; [assumption|]. split; [assumption|].
      intros tx' Hm. apply Hmin. apply In_matching. assumption.
    + right.
      exists (loopOut ++ [Summary (totalPumpCount t) (totalValid t);
                          SkippedTotal (totalSkipped t)]).
      split; [rewrite <- !app_assoc; reflexivity|].
      intros tx Hm. apply In_matching in Hm. rewrite Hspec in Hm. contradiction.
  - intros o tx ts ms mo Hts Hp Hpo. unfold updateOldest.
    rewrite Hts, (parse_truthy ts ms Hp), Hp, Hpo. reflexivity.
Qed.

End MainClaims.

(** C7 (as amended).  When the matching records of two batches are
    three records with times [T2 < T1 < T3], the oldest pump token
    after the two batches carries the time stamp of the record at
    [T2], the earliest of the three, however the records are spread
    over the batches and in whatever order a batch holds them. *)
Theorem oldest_of_three_is_earliest (b1 b2 : list ExtractedResult)
  (r1 r2 r3 : Extracted) (T1 T2 T3 : Z) :
  Permutation (matching [b1; b2]) [r1; r2; r3] ->
  stampedAt r1 T1 -> stampedAt r2 T2 -> stampedAt r3 T3 ->
  (T2 < T1 < T3)%Z ->
  option_map pt_timestamp
    (oldestPumpToken (fst (batchLoop 0 2 initialTotals [b1; b2])))
  = timestamp r2.
Proof.
  intros Hperm H1 H2 H3 Hlt.
  assert (Hin : forall tx, In tx (matching [b1; b2]) -> tx = r1 \/ tx = r2 \/ tx = r3).
  { intros tx Hin. apply (Permutation_in _ Hperm) in Hin.
    destruct Hin as [<-|[<-|[<-|[]]]]; auto. }
  assert (Hst : forall tx, In tx (matching [b1; b2]) -> exists ms, stampedAt tx ms).
  { intros tx Hi. destruct (Hin tx Hi) as [->|[->| ->]]; eauto. }
  pose proof (batchLoop_oldest_spec [b1; b2] 0 2 Hst) as Hspec.
  assert (Hr2 : In r2 (matching [b1; b2])).
  { apply (Permutation_in _ (Permutation_sym Hperm)). right. left. reflexivity. }
  destruct (oldestPumpToken (fst (batchLoop 0 2 initialTotals [b1; b2]))) as [o|].
  - destruct Hspec as (tx & ms & Hi & _ & Hts & Hp & Hmin).
    destruct (Hmin r2 Hr2) as (ms2 & Hs2 & Hle).
    assert (ms2 = T2) by (eapply stampedAt_fun; eassumption). subst ms2.
    assert (Htx : stampedAt tx ms) by (exists (pt_timestamp o); auto).
    cbn [option_map].
    destruct (Hin tx Hi) as [->|[->| ->]].
    + assert (ms = T1) by (eapply stampedAt_fun; eassumption). lia.
    + symmetry. assumption.
    + assert (ms = T3) by (eapply stampedAt_fun; eassumption). lia.
  - rewrite Hspec in Hr2. contradiction.
Qed.

(** C10.  A resolved record without a time stamp leaves no trace:
    with it or without it in a batch, the loop over the batches ends
    with the same totals and the same oldest pump token, and prints
    and writes the same. *)
Theorem record_without_timestamp_disappears (i totalBatches : nat) (t : totals)
  (before after : list (list ExtractedResult)) (l1 l2 : list ExtractedResult)
  (sg address : string) :
  batchLoop i totalBatches t
    (before
     ++ (l1 ++ Resolved {| signature := sg; tokenAddress := address;
                           timestamp := None |} :: l2)
     :: after)
  = batchLoop i totalBatches t (before ++ (l1 ++ l2) :: after).
Proof.
  revert i t. induction before as [|parsed before IH]; intros i t.
  - cbn [app batchLoop].
    assert (Hp : forall parsed parsed',
              validMintsOf parsed = validMintsOf parsed' ->
              filter isSkipped parsed = filter isSkipped parsed' ->
              processBatch i totalBatches t parsed = processBatch i totalBatches t parsed').
    { intros parsed parsed' Hv Hs. unfold processBatch. rewrite Hv, Hs. reflexivity. }
    rewrite (Hp _ (l1 ++ l2)); [reflexivity| |].
    + unfold validMintsOf. rewrite !resolvedOnly_app. cbn [resolvedOnly].
      rewrite !filter_app. reflexivity.
    + rewrite !filter_app. reflexivity.
  - cbn [app batchLoop].
    destruct (processBatch i totalBatches t parsed) as [t' out].
    rewrite IH. reflexivity.
Qed.

(** ** The batch written to the sink *)

Lemma byTime_stamped (a b : Extracted) (ta tb : Z) :
  stampedAt a ta -> stampedAt b tb -> byTime a b = JS.Int (ta - tb).
Proof.
  intros (sa & Ha & Pa) (sb & Hb & Pb). unfold byTime, getTime.
  rewrite Ha, Hb, Pa, Pb. reflexivity.
Qed.

Lemma insertSorted_sorted (x : Extracted) (l : list Extracted) :
  (exists t, stampedAt x t) ->
  Forall (fun y => exists t, stampedAt y t) l ->
  StronglySorted notLater l ->
  StronglySorted notLater (insertSorted byTime x l).
Proof.
  intros [tx Hx] Hl Hs. induction Hs as [|y l Hs IH Hy]; simpl.
  - constructor; constructor.
  - apply Forall_cons_iff in Hl as [[ty Hty] Hl].
    rewrite (byTime_stamped y x ty tx Hty Hx). cbn [JS.lt].
    destruct (ty - tx <? 0)%Z eqn:Hlt.
    + apply Z.ltb_lt in Hlt. constructor; [apply IH; assumption|].
      apply (Permutation_Forall (Permutation_sym (insertSorted_perm byTime x l))).
      constructor; [|assumption]. exists ty, tx. repeat split; auto. lia.
    + apply Z.ltb_ge in Hlt. constructor; [constructor; assumption|].
      constructor; [exists tx, ty; repeat split; auto; lia|].
      rewrite Forall_forall in Hy, Hl |- *. intros z Hz.
      destruct (Hy z Hz) as (ty' & tz & Hy' & Hz' & Hle).
      assert (ty' = ty) by (eapply stampedAt_fun; eassumption). subst ty'.
      exists tx, tz. repeat split; auto. lia.
Qed.

Lemma sort_byTime_sorted (l : list Extracted) :
  Forall (fun y => exists t, stampedAt y t) l ->
  StronglySorted notLater (sort byTime l).
Proof.
  induction 1 as [|x l Hx Hl IH]; [constructor|].
  unfold sort in *. cbn [fold_right]. apply insertSorted_sorted; auto.
  apply (Permutation_Forall (Permutation_sym (sort_perm byTime l))). assumption.
Qed.

(** X21.  The batch written to the file: the resolved records of the
    batch that carry a time stamp, in the order of their times. *)
Theorem validMints_sorted (sigs : list string) (concurrency : nat)
  (parsed : list ExtractedResult) :
  withConcurrencyReturns concurrency sigs parsed ->
  StronglySorted notLater (validMintsOf parsed)
  /\ Permutation (validMintsOf parsed) (filter hasTimestamp (resolvedOnly parsed)).
Proof.
  intros H. split; [|apply sort_perm].
  apply sort_byTime_sorted. apply Forall_forall. intros tx Hin.
  apply filter_In in Hin as [Hin Hts]. apply In_resolvedOnly in Hin.
  pose proof (withConcurrencyReturns_wellStamped concurrency sigs parsed H) as Hwf.
  rewrite Forall_forall in Hwf. specialize (Hwf _ Hin). simpl in Hwf.
  unfold hasTimestamp in Hts. destruct (timestamp tx) as [ts|] eqn:E; [|discriminate].
  destruct Hwf as (ms & Hv & ->). exists ms, (Date.format ms).
  split; [assumption|apply DateFacts.parse_format; assumption].
Qed.

(** ** The claims on sample runs *)

(** An attempt that gives a result at once. *)
Lemma returns_first_attempt (sg : string)
  (answer : completion (option ParsedTransactionWithMeta)) (r : ExtractedResult) :
  attemptResult sg answer = Some r -> returns (extractTransactionInfo sg 1) r.
Proof.
  intros H. rewrite extractTransactionInfo_step. unfold attemptOnce.
  apply (returns_Await (getParsedTransaction sg) _ answer). unfold attemptResult in H.
  destruct answer as [tx|]; [|discriminate].
  destruct (logMessagesOf tx) as [logs|]; [|discriminate].
  destruct tx as [t|]; [|discriminate].
  destruct (resolve sg t logs) as [r'|]; [|discriminate].
  injection H as ->. constructor.
Qed.

Lemma sample_batch (sg payload : string) (seconds : Z) (r : ExtractedResult) :
  attemptResult sg (Normal (Some (Sample.txOf payload (Some seconds)))) = Some r ->
  withConcurrencyReturns 1 [sg] [r].
Proof.
  intros H. apply (single_item_run (fun s => extractTransactionInfo s 1) sg r).
  eapply returns_first_attempt. exact H.
Qed.

Lemma sample_mainRun :
  mainRun 2 1 1 Sample.twoSignatures "start"
    [[Resolved Sample.recordA]; [Resolved Sample.recordB]] Sample.twoBatchesOutput.
Proof.
  unfold mainRun.
  replace (fst (collect 2 1 Sample.twoSignatures 0 "start" [])) with ["sigA"; "sigB"]
    by (vm_compute; reflexivity).
  split; [reflexivity|]. split.
  - cbn [batchesFrom]. split; [|split; [|exact I]].
    + apply (sample_batch "sigA" Sample.payloadA 1700000100). vm_compute. reflexivity.
    + apply (sample_batch "sigB" Sample.payloadB 1700000000). vm_compute. reflexivity.
  - vm_compute. reflexivity.
Qed.

Lemma main_reports_oldest_pump_token_witness :
  mainRun 2 1 1 Sample.twoSignatures "start"
    [[Resolved Sample.recordA]; [Resolved Sample.recordB]] Sample.twoBatchesOutput
  /\ exists prefix tx ts ms,
       Sample.twoBatchesOutput = prefix ++ [FirstPumpToken (tokenAddress tx) ts]
       /\ matchingRecord [[Resolved Sample.recordA]; [Resolved Sample.recordB]] tx
       /\ timestamp tx = Some ts /\ Date.parse ts = JS.Int ms.
Proof.
  split; [exact sample_mainRun|].
  destruct (main_reports_oldest_pump_token 2 1 1 Sample.twoSignatures "start"
              [[Resolved Sample.recordA]; [Resolved Sample.recordB]]
              Sample.twoBatchesOutput sample_mainRun)
    as [[(prefix & tx & ts & ms & H1 & H2 & H3 & H4 & _)|(prefix & H & _)] _].
  - exists prefix, tx, ts, ms. auto.
  - exfalso. apply (f_equal (fun l => last l NoPumpTokenFound)) in H.
    rewrite last_app_default in H. discriminate H.
Defined.

Lemma sample_stamps :
  stampedAt Sample.recordA 1700000100000
  /\ stampedAt Sample.recordB 1700000000000
  /\ stampedAt Sample.recordC 1700000200000.
Proof.
  repeat split; eexists; (split; [reflexivity|vm_compute; reflexivity]).
Qed.

Lemma sample_matching :
  Permutation (matching [Sample.batch1; Sample.batch2])
    [Sample.recordA; Sample.recordB; Sample.recordC].
Proof.
  replace (matching [Sample.batch1; Sample.batch2])
    with [Sample.recordA; Sample.recordC; Sample.recordB]
    by (vm_compute; reflexivity).
  constructor. apply perm_swap.
Qed.

(** C7, the claim as stated fails: with the times [T2 < T1 < T3] of
    [recordB], [recordA] and [recordC], spread over two batches, the
    oldest pump token has the time stamp of [recordB], at [T2], and
    not the one of [recordA], at [T1]. *)
Lemma oldest_of_three_is_not_the_middle_one :
  (stampedAt Sample.recordA 1700000100000
   /\ stampedAt Sample.recordB 1700000000000
   /\ stampedAt Sample.recordC 1700000200000)
  /\ option_map pt_timestamp
       (oldestPumpToken
          (fst (batchLoop 0 2 initialTotals [Sample.batch1; Sample.batch2])))
     = timestamp Sample.recordB
  /\ option_map pt_timestamp
       (oldestPumpToken
          (fst (batchLoop 0 2 initialTotals [Sample.batch1; Sample.batch2])))
     <> timestamp Sample.recordA.
Proof.
  split; [exact sample_stamps|]. split; [vm_compute; reflexivity|].
  vm_compute. discriminate.
Qed.

Lemma oldest_of_three_is_earliest_witness :
  Permutation (matching [Sample.batch1; Sample.batch2])
    [Sample.recordA; Sample.recordB; Sample.recordC]
  /\ (1700000000000 < 1700000100000 < 1700000200000)%Z
  /\ option_map pt_timestamp
       (oldestPumpToken
          (fst (batchLoop 0 2 initialTotals [Sample.batch1; Sample.batch2])))
     = timestamp Sample.recordB.
Proof.
  split; [exact sample_matching|]. split; [lia|].
  destruct sample_stamps as (HA & HB & HC).
  apply (oldest_of_three_is_earliest Sample.batch1 Sample.batch2
           Sample.recordA Sample.recordB Sample.recordC
           1700000100000 1700000000000 1700000200000
           sample_matching HA HB HC).
  lia.
Defined.

Lemma withConcurrency_one_result_per_item_witness :
  1 <= 3
  /\ halts ["sigA"; "sigB"] (fun s => extractTransactionInfo s 1)
       (start ["sigA"; "sigB"] (fun s => extractTransactionInfo s 1) 3)
  /\ nth_error
       (workers (start ["sigA"; "sigB"] (fun s => extractTransactionInfo s 1) 3)) 2
     = Some Exited.
Proof.
  split; [lia|].
  destruct (withConcurrency_one_result_per_item ["sigA"; "sigB"]
              (fun s => extractTransactionInfo s 1) 3 Sample.noTransaction
              ltac:(lia))
    as (Hhalts & Hextra & _).
  split; [exact Hhalts|]. apply Hextra. simpl. lia.
Defined.

Lemma withConcurrency_inFlight_bounded_witness :
  reachable ["sigA"; "sigB"] (fun s => extractTransactionInfo s 1) 3
    (start ["sigA"; "sigB"] (fun s => extractTransactionInfo s 1) 3)
  /\ inFlight (start ["sigA"; "sigB"] (fun s => extractTransactionInfo s 1) 3) <= 3.
Proof.
  split; [constructor|].
  apply (withConcurrency_inFlight_bounded ["sigA"; "sigB"]
           (fun s => extractTransactionInfo s 1) 3).
  constructor.
Defined.

(** ** [processMintLog]: which line is decoded *)

Lemma substring_all (s : string) : String.substring 0 (String.length s) s = s.
Proof. induction s as [|c s IH]; simpl; [reflexivity|]. rewrite IH. reflexivity. Qed.

(** Removing the label of a data line leaves its payload. *)
Lemma replace_label (payload : string) :
  JS.replace (String.append "Program data: " payload) "Program data: " "" = payload.
Proof.
  cbn. replace (String.prefix "" payload) with true by (destruct payload; reflexivity).
  rewrite Nat.sub_0_r. apply substring_all.
Qed.

(** One turn of the loop of [processMintLog]. *)
Lemma processMintLog_turn (line : string) (rest : list string) :
  processMintLog (line :: rest)
  = match rest with
    | nextLine :: _ =>
        if String.eqb line programSuccessLine && JS.startsWith nextLine dataPrefix
        then Some (decodeBuffer
                     (Base64.decode (JS.trim (JS.replace nextLine "Program data: " ""))))
        else processMintLog rest
    | [] => None
    end.
Proof.
  cbn [processMintLog]. destruct rest as [|nextLine rest].
  - destruct (String.eqb line programSuccessLine); reflexivity.
  - destruct (String.eqb line programSuccessLine); [|reflexivity].
    cbn [andb]. destruct (JS.startsWith nextLine dataPrefix) eqn:Hs.
    + rewrite (startsWith_truthy nextLine dataPrefix eq_refl Hs). reflexivity.
    + rewrite andb_false_r. reflexivity.
Qed.

Lemma mintPairAt_head (line nextLine : string) (rest : list string) :
  (String.eqb line programSuccessLine && JS.startsWith nextLine dataPrefix) = true
  <-> mintPairAt (line :: nextLine :: rest) 0 nextLine.
Proof.
  unfold mintPairAt. cbn [nth_error]. rewrite andb_true_iff, String.eqb_eq.
  split.
  - intros [-> H]. auto.
  - intros (H & _ & H'). injection H as ->. auto.
Qed.

Lemma mintPairAt_tail (line : string) (rest : list string) (i : nat) (l : string) :
  mintPairAt (line :: rest) (S i) l <-> mintPairAt rest i l.
Proof. unfold mintPairAt. cbn [nth_error]. tauto. Qed.

(** X1.  [processMintLog] answers [null] exactly when no success line is
    directly followed by a data line. *)
Theorem processMintLog_null_iff_no_pair (logs : list string) :
  processMintLog logs = None <-> forall i line, ~ mintPairAt logs i line.
Proof.
  induction logs as [|line rest IH].
  - split; [|reflexivity]. intros _ i l (H & _). destruct i; discriminate H.
  - rewrite processMintLog_turn. destruct rest as [|nextLine rest].
    + split; [|reflexivity]. intros _ i l (_ & H & _).
      destruct i; discriminate H.
    + destruct (String.eqb line programSuccessLine && JS.startsWith nextLine dataPrefix)
        eqn:Hhead.
      * split; [discriminate|]. intros H. exfalso.
        apply (H 0 nextLine). apply mintPairAt_head. exact Hhead.
      * rewrite IH. split.
        -- intros H [|i] l Hp.
           ++ assert (l = nextLine) as -> by (destruct Hp as (_ & Hn & _); cbn [nth_error] in Hn; congruence).
              apply (proj2 (mintPairAt_head _ _ _)) in Hp. congruence.
           ++ apply (H i l). apply (proj1 (mintPairAt_tail _ _ _ _)) in Hp. exact Hp.
        -- intros H i l Hp. apply (H (S i) l). apply mintPairAt_tail. exact Hp.
Qed.

(** X2.  The line that is decoded is the data line of the first pair, and
    what is decoded is the text after the label, trimmed. *)
Theorem processMintLog_first_pair (logs : list string) (i : nat) (payload : string) :
  mintPairAt logs i (String.append "Program data: " payload) ->
  (forall j line, j < i -> ~ mintPairAt logs j line) ->
  processMintLog logs = Some (decodeBuffer (Base64.decode (JS.trim payload))).
Proof.
  revert i. induction logs as [|line rest IH]; intros i Hp Hfirst.
  - destruct Hp as (H & _). destruct i; discriminate H.
  - rewrite processMintLog_turn. destruct rest as [|nextLine rest].
    + destruct Hp as (_ & H & _). destruct i; discriminate H.
    + destruct i as [|i].
      * assert (nextLine = String.append "Program data: " payload) as ->
          by (destruct Hp as (_ & Hn & _); cbn [nth_error] in Hn; congruence).
        apply (proj2 (mintPairAt_head _ _ _)) in Hp. rewrite Hp, replace_label. reflexivity.
      * destruct (String.eqb line programSuccessLine && JS.startsWith nextLine dataPrefix)
          eqn:Hhead.
        -- exfalso. apply (Hfirst 0 nextLine); [lia|].
           apply mintPairAt_head. exact Hhead.
        -- apply (IH i).
           ++ apply (proj1 (mintPairAt_tail _ _ _ _)) in Hp. exact Hp.
           ++ intros j l Hj Hq. apply (Hfirst (S j) l); [lia|].
              apply mintPairAt_tail. exact Hq.
Qed.

(** ** [readLengthPrefixedString]: what is read, and from where *)

Lemma adjustOffset_min (k len : nat) :
  JS.adjustOffset (JS.Int (Z.of_nat k)) (Z.of_nat len) = Z.of_nat (Nat.min k len).
Proof.
  unfold JS.adjustOffset.
  destruct (Z.of_nat k =? 0)%Z eqn:H0; [apply Z.eqb_eq in H0; lia|].
  destruct (Z.of_nat k <? 0)%Z eqn:H1; [apply Z.ltb_lt in H1; lia|].
  destruct (Z.of_nat k <? Z.of_nat len)%Z eqn:H2;
    [apply Z.ltb_lt in H2|apply Z.ltb_ge in H2]; lia.
Qed.

(** A slice between two offsets that are not negative: the bytes from
    [s] on, at most [n] of them. *)
Lemma slice_from (data : list byte) (s n : nat) :
  JS.slice data (JS.Int (Z.of_nat s)) (JS.Int (Z.of_nat (s + n)))
  = firstn n (skipn s data).
Proof.
  unfold JS.slice. rewrite !adjustOffset_min.
  set (len := List.length data).
  destruct (Z.of_nat (Nat.min s len) <? Z.of_nat (Nat.min (s + n) len))%Z eqn:Hlt.
  - apply Z.ltb_lt in Hlt. rewrite Nat2Z.id.
    assert (Hs : s < len) by lia.
    replace (Nat.min s len) with s by lia.
    replace (Z.to_nat (Z.of_nat (Nat.min (s + n) len) - Z.of_nat s))
      with (Nat.min n (len - s)) by lia.
    destruct (Nat.le_ge_cases n (len - s)) as [Hn|Hn].
    + rewrite Nat.min_l by assumption. reflexivity.
    + rewrite Nat.min_r by assumption.
      rewrite !firstn_all2; [reflexivity| |]; rewrite length_skipn; fold len; lia.
  - apply Z.ltb_ge in Hlt. cbn [Z.to_nat firstn].
    destruct (Nat.le_gt_cases len s) as [Hs|Hs].
    + rewrite skipn_all2 by (fold len; lia). destruct n; reflexivity.
    + assert (n = 0) by lia. subst n. reflexivity.
Qed.

Lemma get_nat (data : list byte) (k : nat) :
  JS.get data (JS.Int (Z.of_nat k)) = nth_error data k.
Proof.
  unfold JS.get. destruct (Z.of_nat k <? 0)%Z eqn:H; [apply Z.ltb_lt in H; lia|].
  rewrite Nat2Z.id. reflexivity.
Qed.

Lemma readLengthPrefixedString_NaN (data : list byte) :
  readLengthPrefixedString data JS.NaN = ([], JS.NaN).
Proof.
  unfold readLengthPrefixedString. cbn [JS.get JS.ToNumber JS.add].
  rewrite slice_NaN_end. reflexivity.
Qed.

(** The byte at [k] is the length of the string, which begins four
    bytes further on. *)
Lemma read_inside (data : list byte) (k : nat) (b : byte) :
  nth_error data k = Some b ->
  readLengthPrefixedString data (JS.Int (Z.of_nat k))
  = (Utf8.decode (firstn (N.to_nat (Byte.to_N b)) (skipn (k + 4) data)),
     JS.Int (Z.of_nat (k + 4 + N.to_nat (Byte.to_N b)))).
Proof.
  intros Hb. unfold readLengthPrefixedString. rewrite get_nat, Hb.
  cbn [JS.ToNumber JS.add].
  replace (Z.of_nat k + 4)%Z with (Z.of_nat (k + 4)) by lia.
  replace (Z.of_nat (k + 4) + Z.of_N (Byte.to_N b))%Z
    with (Z.of_nat (k + 4 + N.to_nat (Byte.to_N b))) by lia.
  rewrite slice_from. reflexivity.
Qed.

(** No byte at [k]: the length is [undefined]. *)
Lemma read_outside (data : list byte) (k : nat) :
  nth_error data k = None ->
  readLengthPrefixedString data (JS.Int (Z.of_nat k)) = ([], JS.NaN).
Proof.
  intros Hb. unfold readLengthPrefixedString. rewrite get_nat, Hb.
  cbn [JS.ToNumber JS.add]. rewrite slice_NaN_end. reflexivity.
Qed.

(** X3.  The string read at an offset [k] of the buffer.  Only the first
    byte of the length field counts, the three bytes after it are
    stepped over whatever they hold; the string is cut where the buffer
    ends, but the offset moves on by the whole declared length; at the
    end of the buffer, or past it, the string is empty and the offset
    is lost. *)
Theorem readLengthPrefixedString_at (data : list byte) (k : nat) :
  readLengthPrefixedString data (JS.Int (Z.of_nat k))
  = match nth_error data k with
    | Some b =>
        let length := N.to_nat (Byte.to_N b) in
        (Utf8.decode (firstn length (skipn (k + 4) data)),
         JS.Int (Z.of_nat (k + 4 + length)))
    | None => ([], JS.NaN)
    end.
Proof.
  destruct (nth_error data k) as [b|] eqn:Hb.
  - cbv zeta. apply read_inside. exact Hb.
  - apply read_outside. exact Hb.
Qed.

Lemma to_N_byte_of_N_mod (n : N) : Byte.to_N (byte_of_N n) = (n mod 256)%N.
Proof.
  assert (H : byte_of_N n = byte_of_N (n mod 256))
    by (unfold byte_of_N; rewrite N.Div0.mod_mod; reflexivity).
  rewrite H. apply to_N_byte_of_N. apply N.mod_lt. discriminate.
Qed.

(** X22.  A string of 256 bytes or more is not read whole: of a string
    of [L] bytes written behind its four-byte length, the first
    [L mod 256] bytes are decoded, and the next field is looked for
    right behind them, inside the string. *)
Theorem readLengthPrefixedString_long (pre bytes post : list byte) :
  readLengthPrefixedString (pre ++ lengthPrefixed bytes ++ post)
    (JS.Int (Z.of_nat (List.length pre)))
  = (Utf8.decode (firstn (List.length bytes mod 256) bytes),
     JS.Int (Z.of_nat (List.length pre + 4 + List.length bytes mod 256))).
Proof.
  set (L := List.length bytes).
  assert (Hmod : N.to_nat (Byte.to_N (byte_of_N (N.of_nat L))) = L mod 256).
  { rewrite to_N_byte_of_N_mod. change 256%N with (N.of_nat 256).
    rewrite <- Nat2N.inj_mod. apply Nat2N.id. }
  assert (Hle : L mod 256 <= L) by (apply Nat.Div0.mod_le).
  rewrite (read_inside _ _ (byte_of_N (N.of_nat L))).
  - rewrite Hmod. f_equal. f_equal.
    unfold lengthPrefixed, u32le.
    replace (pre ++ _) with
      ((pre ++ [byte_of_N (N.of_nat L); byte_of_N (N.of_nat L / 256);
                byte_of_N (N.of_nat L / 65536); byte_of_N (N.of_nat L / 16777216)])
       ++ bytes ++ post)
      by (rewrite <- !app_assoc; reflexivity).
    rewrite skipn_app, skipn_all2 by (rewrite length_app; simpl; lia).
    rewrite length_app. cbn [List.length].
    replace (List.length pre + 4 - (List.length pre + 4)) with 0 by lia.
    cbn [skipn app]. rewrite firstn_app. fold L.
    replace (L mod 256 - L) with 0 by lia. cbn [firstn]. apply app_nil_r.
  - unfold lengthPrefixed, u32le. cbn [app]. fold L.
    rewrite nth_error_app2 by lia. rewrite Nat.sub_diag. reflexivity.
Qed.

(** ** [decodeMint] does not look at the leading bytes *)

Section Lead.

Variables lead lead' rest : list byte.
Hypothesis Hlead : List.length lead = 8.
Hypothesis Hlead' : List.length lead' = 8.

Lemma skipn_lead (l : list byte) (k : nat) :
  List.length l = 8 -> skipn (8 + k) (l ++ rest) = skipn k rest.
Proof.
  intros H. rewrite skipn_app, H.
  rewrite skipn_all2 by lia. replace (8 + k - 8) with k by lia. reflexivity.
Qed.

Lemma nth_error_lead (l : list byte) (k : nat) :
  List.length l = 8 -> nth_error (l ++ rest) (8 + k) = nth_error rest k.
Proof.
  intros H. rewrite nth_error_app2 by lia. f_equal. lia.
Qed.

Lemma read_behindLead (offset : JS.number) :
  behindLead offset ->
  readLengthPrefixedString (lead ++ rest) offset
  = readLengthPrefixedString (lead' ++ rest) offset
  /\ behindLead (snd (readLengthPrefixedString (lead ++ rest) offset)).
Proof.
  intros [->|[k ->]].
  - rewrite !readLengthPrefixedString_NaN. split; [reflexivity|left; reflexivity].
  - destruct (nth_error rest k) as [b|] eqn:Hb.
    + rewrite (read_inside (lead ++ rest) (8 + k) b)
        by (rewrite nth_error_lead; assumption).
      rewrite (read_inside (lead' ++ rest) (8 + k) b)
        by (rewrite nth_error_lead; assumption).
      replace (8 + k + 4) with (8 + (k + 4)) by lia.
      rewrite !skipn_lead by assumption.
      split; [reflexivity|]. right. cbn [snd].
      exists (k + 4 + N.to_nat (Byte.to_N b)). f_equal; lia.
    + rewrite !read_outside by (rewrite nth_error_lead; assumption).
      split; [reflexivity|left; reflexivity].
Qed.

Lemma slice_behindLead (offset : JS.number) :
  behindLead offset ->
  JS.slice (lead ++ rest) offset (JS.add offset (JS.Int 32))
  = JS.slice (lead' ++ rest) offset (JS.add offset (JS.Int 32))
  /\ behindLead (JS.add offset (JS.Int 32)).
Proof.
  intros [->|[k ->]].
  - cbn [JS.add]. rewrite !slice_NaN_end. split; [reflexivity|left; reflexivity].
  - cbn [JS.add].
    replace (Z.of_nat (8 + k) + 32)%Z with (Z.of_nat (8 + k + 32)) by lia.
    rewrite !slice_from, !skipn_lead by assumption.
    split; [reflexivity|]. right. exists (k + 32). f_equal; lia.
Qed.

End Lead.

(** X4.  The eight leading bytes are stepped over and never compared with
    anything: two buffers that differ only there decode to the same
    event. *)
Theorem decodeBuffer_ignores_lead (lead lead' rest : list byte) :
  List.length lead = 8 -> List.length lead' = 8 ->
  decodeBuffer (lead ++ rest) = decodeBuffer (lead' ++ rest).
Proof.
  intros H H'. unfold decodeBuffer. cbv zeta.
  change (JS.add (JS.Int 0) (JS.Int 8)) with (JS.Int (Z.of_nat (8 + 0))).
  assert (H0 : behindLead (JS.Int (Z.of_nat (8 + 0)))) by (right; exists 0; reflexivity).
  destruct (read_behindLead lead lead' rest H H' _ H0) as [E1 B1]. rewrite <- E1.
  destruct (read_behindLead lead lead' rest H H' _ B1) as [E2 B2]. rewrite <- E2.
  destruct (read_behindLead lead lead' rest H H' _ B2) as [E3 B3]. rewrite <- E3.
  destruct (slice_behindLead lead lead' rest H H' _ B3) as [E4 B4]. rewrite <- E4.
  destruct (slice_behindLead lead lead' rest H H' _ B4) as [E5 B5]. rewrite <- E5.
  destruct (slice_behindLead lead lead' rest H H' _ B5) as [E6 _]. rewrite <- E6.
  reflexivity.
Qed.

(** ** Bytes behind the last key *)

Lemma decodeBuffer_fields (lead nb sb ub mint bondingCurve user extra : list byte) :
  List.length lead = 8 ->
  List.length nb < 256 -> List.length sb < 256 -> List.length ub < 256 ->
  List.length mint = 32 -> List.length bondingCurve = 32 -> List.length user = 32 ->
  decodeBuffer (lead ++ lengthPrefixed nb ++ lengthPrefixed sb ++ lengthPrefixed ub
                ++ mint ++ bondingCurve ++ user ++ extra)
  = {| name := Utf8.decode nb; symbol := Utf8.decode sb; uri := Utf8.decode ub;
       mintAddress := Bs58.encode mint; bondingCurve := Bs58.encode bondingCurve;
       user := Bs58.encode user |}.
Proof.
  intros Hlead Hn Hs Hu Hm Hb Hus.
  set (data := lead ++ _).
  set (q2 := lead ++ lengthPrefixed nb).
  set (q3 := q2 ++ lengthPrefixed sb).
  set (q4 := q3 ++ lengthPrefixed ub).
  set (q5 := q4 ++ mint).
  set (q6 := q5 ++ bondingCurve).
  assert (E2 : data = q2 ++ lengthPrefixed sb ++
                 (lengthPrefixed ub ++ mint ++ bondingCurve ++ user ++ extra))
    by (unfold data, q2; rewrite <- !app_assoc; reflexivity).
  assert (E3 : data = q3 ++ lengthPrefixed ub ++ (mint ++ bondingCurve ++ user ++ extra))
    by (unfold data, q3, q2; rewrite <- !app_assoc; reflexivity).
  assert (E4 : data = q4 ++ mint ++ (bondingCurve ++ user ++ extra))
    by (unfold data, q4, q3, q2; rewrite <- !app_assoc; reflexivity).
  assert (E5 : data = q5 ++ bondingCurve ++ (user ++ extra))
    by (unfold data, q5, q4, q3, q2; rewrite <- !app_assoc; reflexivity).
  assert (E6 : data = q6 ++ user ++ extra)
    by (unfold data, q6, q5, q4, q3, q2; rewrite <- !app_assoc; reflexivity).
  assert (N5 : JS.add (JS.Int (Z.of_nat (List.length q4))) (JS.Int (Z.of_nat 32))
               = JS.Int (Z.of_nat (List.length q5)))
    by (unfold q5; rewrite length_app, Hm; cbn [JS.add]; f_equal; lia).
  assert (N6 : JS.add (JS.Int (Z.of_nat (List.length q5))) (JS.Int (Z.of_nat 32))
               = JS.Int (Z.of_nat (List.length q6)))
    by (unfold q6; rewrite length_app, Hb; cbn [JS.add]; f_equal; lia).
  unfold decodeBuffer. cbv zeta.
  change (JS.add (JS.Int 0) (JS.Int 8)) with (JS.Int (Z.of_nat 8)).
  rewrite <- Hlead.
  rewrite (read_at data lead nb _ eq_refl Hn). cbn [fst snd]. fold q2.
  rewrite (read_at data q2 sb _ E2 Hs). cbn [fst snd]. fold q3.
  rewrite (read_at data q3 ub _ E3 Hu). cbn [fst snd]. fold q4.
  change (JS.Int 32) with (JS.Int (Z.of_nat 32)).
  rewrite (slice_at data q4 mint _ 32 E4 Hm).
  rewrite N5.
  rewrite (slice_at data q5 bondingCurve _ 32 E5 Hb).
  rewrite N6.
  rewrite (slice_at data q6 user _ 32 E6 Hus).
  reflexivity.
Qed.

(** X5.  What follows the third key is never read: a buffer that holds
    the seven fields decodes to the same event with and without bytes
    behind them. *)
Theorem decodeBuffer_ignores_trailing
  (lead nb sb ub mint bondingCurve user extra : list byte) :
  List.length lead = 8 ->
  List.length nb < 256 -> List.length sb < 256 -> List.length ub < 256 ->
  List.length mint = 32 -> List.length bondingCurve = 32 -> List.length user = 32 ->
  decodeBuffer (lead ++ lengthPrefixed nb ++ lengthPrefixed sb ++ lengthPrefixed ub
                ++ mint ++ bondingCurve ++ user ++ extra)
  = decodeBuffer (lead ++ lengthPrefixed nb ++ lengthPrefixed sb ++ lengthPrefixed ub
                  ++ mint ++ bondingCurve ++ user).
Proof.
  intros Hlead Hn Hs Hu Hm Hb Hus.
  rewrite decodeBuffer_fields by assumption.
  rewrite <- (app_nil_r user) at 2.
  rewrite decodeBuffer_fields by assumption. reflexivity.
Qed.

(** ** [extractTransactionInfo]: the three kinds of outcome *)

Lemma attemptResult_Resolved (sg : string)
  (answer : completion (option ParsedTransactionWithMeta)) (tx : Extracted) :
  attemptResult sg answer = Some (Resolved tx) ->
  exists t logs m,
    answer = Normal (Some t) /\ logMessagesOf (Some t) = Some logs
    /\ processMintLog logs = Some m
    /\ signature tx = sg /\ tokenAddress tx = mintAddress m
    /\ JS.truthy (mintAddress m) = true
    /\ timestamp tx = timestampOf (blockTime t).
Proof.
  unfold attemptResult. destruct answer as [[t|]|]; try discriminate.
  destruct (logMessagesOf (Some t)) as [logs|] eqn:Hl; [|discriminate].
  destruct (resolve sg t logs) as [r|] eqn:Hr; [|discriminate].
  intros H. injection H as ->.
  destruct (resolve_timestamp _ _ _ _ Hr) as (Hs & (m & Hm & Ha & Ht) & Hts).
  exists t, logs, m. repeat split; auto.
  unfold timestampOf. destruct (blockTime t) as [bt|]; [|assumption].
  destruct (bt =? 0)%Z; [assumption|]. apply Hts.
Qed.

(** X6.  A resolved record carries the signature that was asked for, the
    mint address, which is not empty, decoded from the log messages of
    one of the at most three answers, and the time stamp of the
    execution time of that answer. *)
Theorem extractTransactionInfo_resolved_record (sg : string)
  (env : nat -> forall e, rpc_answer e) (tx : Extracted) :
  fst (run (extractTransactionInfo sg 1) env 0) = Resolved tx ->
  exists k t logs m,
    k < 3 /\ env (2 * k) (getParsedTransaction sg) = Normal (Some t)
    /\ logMessagesOf (Some t) = Some logs
    /\ processMintLog logs = Some m
    /\ signature tx = sg /\ tokenAddress tx = mintAddress m
    /\ JS.truthy (mintAddress m) = true
    /\ timestamp tx = timestampOf (blockTime t).
Proof.
  rewrite run_extractTransactionInfo.
  destruct (attemptResult sg (env (2 * 0) (getParsedTransaction sg))) as [r0|] eqn:H0.
  { cbn [fst]. intros ->. destruct (attemptResult_Resolved _ _ _ H0) as (t & logs & m & H).
    exists 0, t, logs, m. split; [lia|exact H]. }
  destruct (attemptResult sg (env (2 * 1) (getParsedTransaction sg))) as [r1|] eqn:H1.
  { cbn [fst]. intros ->. destruct (attemptResult_Resolved _ _ _ H1) as (t & logs & m & H).
    exists 1, t, logs, m. split; [lia|exact H]. }
  destruct (attemptResult sg (env (2 * 2) (getParsedTransaction sg))) as [r2|] eqn:H2.
  { cbn [fst]. intros ->. destruct (attemptResult_Resolved _ _ _ H2) as (t & logs & m & H).
    exists 2, t, logs, m. split; [lia|exact H]. }
  discriminate.
Qed.

(** X7.  A transaction whose log messages hold no mint event, or an event
    whose mint address is empty, is skipped at the first answer: no
    pause and no second call follow. *)
Theorem extractTransactionInfo_skipped_at_once (sg : string)
  (env : nat -> forall e, rpc_answer e) (t : ParsedTransactionWithMeta)
  (logs : list string) :
  env 0 (getParsedTransaction sg) = Normal (Some t) ->
  logMessagesOf (Some t) = Some logs ->
  (forall m, processMintLog logs = Some m -> mintAddress m = "") ->
  match blockTime t with
  | Some bt => Date.valid (bt * 1000) = true
  | None => True
  end ->
  run (extractTransactionInfo sg 1) env 0 = (Skipped, [getParsedTransaction sg]).
Proof.
  intros He Hl Hm Hbt. rewrite run_extractTransactionInfo.
  change (2 * 0) with 0. unfold attemptResult at 1. rewrite He, Hl.
  unfold resolve, Date.toISOString.
  destruct (blockTime t) as [bt|].
  - destruct (bt =? 0)%Z.
    + destruct (processMintLog logs) as [m|]; [|reflexivity].
      rewrite (Hm m eq_refl). reflexivity.
    + rewrite Hbt.
      destruct (processMintLog logs) as [m|]; [|reflexivity].
      rewrite (Hm m eq_refl). reflexivity.
  - destruct (processMintLog logs) as [m|]; [|reflexivity].
    rewrite (Hm m eq_refl). reflexivity.
Qed.

Lemma attemptResult_out_of_range (sg : string) (t : ParsedTransactionWithMeta)
  (logs : list string) (bt : Z) :
  logMessagesOf (Some t) = Some logs -> blockTime t = Some bt ->
  Date.valid (bt * 1000) = false ->
  attemptResult sg (Normal (Some t)) = None.
Proof.
  intros Hl Hb Hv. unfold attemptResult. rewrite Hl.
  unfold resolve, Date.toISOString. rewrite Hb.
  destruct (bt =? 0)%Z eqn:H0.
  - apply Z.eqb_eq in H0. subst bt. discriminate Hv.
  - rewrite Hv. reflexivity.
Qed.

(** X8.  An execution time beyond the range of [Date] makes [toISOString]
    raise; the error is caught like an error of the call, so the
    transaction is asked for again, and three such answers give [null]
    although each of them carried log messages. *)
Theorem extractTransactionInfo_blockTime_out_of_range (sg : string)
  (env : nat -> forall e, rpc_answer e) :
  (forall k, k < 3 ->
     exists t logs bt,
       env (2 * k) (getParsedTransaction sg) = Normal (Some t)
       /\ logMessagesOf (Some t) = Some logs
       /\ blockTime t = Some bt /\ Date.valid (bt * 1000) = false) ->
  run (extractTransactionInfo sg 1) env 0
  = (Null,
     [getParsedTransaction sg; setTimeout 100;
      getParsedTransaction sg; setTimeout 100;
      getParsedTransaction sg]).
Proof.
  intros H. rewrite run_extractTransactionInfo.
  destruct (H 0 ltac:(lia)) as (t0 & l0 & b0 & E0 & L0 & B0 & V0).
  destruct (H 1 ltac:(lia)) as (t1 & l1 & b1 & E1 & L1 & B1 & V1).
  destruct (H 2 ltac:(lia)) as (t2 & l2 & b2 & E2 & L2 & B2 & V2).
  rewrite E0, E1, E2.
  rewrite (attemptResult_out_of_range sg t0 l0 b0 L0 B0 V0).
  rewrite (attemptResult_out_of_range sg t1 l1 b1 L1 B1 V1).
  rewrite (attemptResult_out_of_range sg t2 l2 b2 L2 B2 V2).
  reflexivity.
Qed.

(** ** [withConcurrency]: one worker, and the account of the indices *)

Section PoolOrder.

Context {E : Type} {Ans : E -> Type} {T R : Type}.
Variable items : list T.
Variable handler : T -> proc Ans R.

Local Abbreviation inOrder := (inOrder items handler).

Lemma inOrder_start : inOrder (start items handler 1).
Proof.
  unfold inOrder, start. cbn [launch]. unfold claim.
  destruct items as [|x l]; cbn.
  - split; [reflexivity|constructor].
  - split; [reflexivity|]. split; [|constructor]. exists x. auto.
Qed.

Lemma inOrder_step (st st' : pool) :
  inOrder st -> step items handler st st' -> inOrder st'.
Proof.
  unfold inOrder. intros Hinv Hstep.
  destruct Hstep as [st n i e k a Hn | st n i r Hn].
  - destruct (workers st) as [|[j p|] [|w ws]] eqn:Hw; try contradiction.
    + destruct n as [|n]; [|destruct n; discriminate Hn].
      cbn in Hn. injection Hn as -> ->. cbn.
      destruct Hinv as (Hi & (x & Hx & Hret) & Hres).
      split; [assumption|]. split; [|assumption].
      exists x. split; [assumption|]. intros r Hr. apply Hret.
      econstructor. exact Hr.
    + destruct n as [|n]; [discriminate Hn|destruct n; discriminate Hn].
  - destruct (workers st) as [|[j p|] [|w ws]] eqn:Hw; try contradiction.
    + destruct n as [|n]; [|destruct n; discriminate Hn].
      cbn in Hn. injection Hn as -> ->.
      destruct Hinv as (Hi & (x & Hx & Hret) & Hres).
      assert (Hnew : Forall2 (fun x r => returns (handler x) r) (firstn (S i) items) (results st ++ [r])).
      { rewrite (firstn_S_nth_error items i x Hx).
        apply Forall2_app; [assumption|]. constructor; [|constructor].
        apply Hret. constructor. }
      cbn [index results workers setWorker]. rewrite Hi. unfold claim.
      destruct (nth_error items (S i)) as [y|] eqn:Hy; cbn [fst snd].
      * split; [reflexivity|]. split; [|assumption]. exists y. auto.
      * apply nth_error_None in Hy.
        assert (i < List.length items) by (apply nth_error_Some; congruence).
        split; [lia|]. rewrite firstn_all2 in Hnew by lia. assumption.
    + destruct n as [|n]; [discriminate Hn|destruct n; discriminate Hn].
Qed.

Lemma reachable_inOrder (st : pool) :
  reachable items handler 1 st -> inOrder st.
Proof.
  induction 1 as [|st st' _ IH Hstep].
  - apply inOrder_start.
  - eapply inOrder_step; eassumption.
Qed.

(** X9.  With one worker the items are handled one after the other, and
    the results come in the order of the items. *)
Theorem withConcurrency_one_worker_in_order (st : pool) :
  reachable items handler 1 st -> settled st ->
  Forall2 (fun x r => returns (handler x) r) items (results st).
Proof.
  intros Hreach Hset. pose proof (reachable_inOrder st Hreach) as Hinv.
  unfold inOrder in Hinv. unfold settled in Hset.
  destruct (workers st) as [|[j p|] [|w ws]]; try contradiction.
  - specialize (Hset (Awaiting j p) (or_introl eq_refl)). discriminate Hset.
  - apply Hinv.
Qed.

Variable concurrency : nat.

Lemma awaited_length (ws : list (@worker E Ans R)) :
  List.length (awaited ws) = List.length (filter isAwaiting ws).
Proof.
  induction ws as [|[i p|] ws IH]; simpl; auto.
Qed.

(** X10.  At every moment of a call, the indices taken so far are the
    results pushed and the handler calls that have not settled; the
    index never passes the end of [items], and a worker has returned
    only when every item was taken. *)
Theorem withConcurrency_index_account (st : pool) :
  reachable items handler concurrency st ->
  index st = List.length (results st) + inFlight st
  /\ index st <= List.length items
  /\ (In Exited (workers st) -> index st = List.length items).
Proof.
  intros Hreach. destruct (reachable_invariant _ _ _ st Hreach) as [done Hinv].
  destruct Hinv as [Hw Hi Hr Hc Hp He].
  split; [|split; assumption].
  apply Permutation_length in Hc. rewrite length_app, length_seq in Hc.
  rewrite <- Hc. unfold inFlight. rewrite awaited_length.
  rewrite (Forall2_length Hr). reflexivity.
Qed.

End PoolOrder.

(** ** Results come in the order in which the handlers settle *)

Section CompletionOrder.

Context {E : Type} {Ans : E -> Type} {T R : Type}.
Variable handler : T -> proc Ans R.
Variables x y : T.

(** X11.  The results are in the order of completion, not in the order of
    the items: with two workers, when the handler of the first item
    waits for an answer and the handler of the second item returns at
    once, the result of the second item comes first. *)
Theorem withConcurrency_completion_order (e : E) (k : Ans e -> proc Ans R)
  (a : Ans e) (rx ry : R) :
  handler x = Await e k -> k a = Ret rx -> handler y = Ret ry ->
  exists st, reachable [x; y] handler 2 st /\ settled st /\ results st = [ry; rx].
Proof.
  intros Hx Hk Hy.
  set (s0 := start [x; y] handler 2).
  assert (R0 : reachable [x; y] handler 2 s0) by constructor.
  assert (W0 : workers s0 = [Awaiting 0 (Await e k); Awaiting 1 (Ret ry)])
    by (cbn; rewrite Hx, Hy; reflexivity).
  assert (N1 : nth_error (workers s0) 1 = Some (Awaiting 1 (Ret ry)))
    by (rewrite W0; reflexivity).
  pose proof (reachable_step _ _ _ _ _ R0 (step_resume [x; y] handler s0 1 1 ry N1)) as R1.
  set (s1 := {| index := _ |}) in R1.
  assert (W1 : workers s1 = [Awaiting 0 (Await e k); Exited])
    by (unfold s1; cbn [workers]; rewrite W0; reflexivity).
  assert (N2 : nth_error (workers s1) 0 = Some (Awaiting 0 (Await e k)))
    by (rewrite W1; reflexivity).
  pose proof (reachable_step _ _ _ _ _ R1 (step_answer [x; y] handler s1 0 0 e k a N2)) as R2.
  set (s2 := {| index := _ |}) in R2.
  assert (W2 : workers s2 = [Awaiting 0 (Ret rx); Exited])
    by (unfold s2; cbn [workers]; rewrite W1, Hk; reflexivity).
  assert (N3 : nth_error (workers s2) 0 = Some (Awaiting 0 (Ret rx)))
    by (rewrite W2; reflexivity).
  pose proof (reachable_step _ _ _ _ _ R2 (step_resume [x; y] handler s2 0 0 rx N3)) as R3.
  set (s3 := {| index := _ |}) in R3.
  exists s3. split; [exact R3|]. split.
  - intros w. unfold s3. cbn [workers]. rewrite W2. cbn.
    intros [<-|[<-|[]]]; reflexivity.
  - reflexivity.
Qed.

End CompletionOrder.

(** ** Runs with one worker *)

Section OneWorkerRuns.

Context {E : Type} {Ans : E -> Type} {T R : Type}.
Variable items : list T.
Variable handler : T -> proc Ans R.

Lemma skipn_cons_nth_error {A : Type} (l : list A) : forall n x rest,
  skipn n l = x :: rest -> nth_error l n = Some x /\ skipn (S n) l = rest.
Proof.
  induction l as [|y l IH]; intros [|n] x rest H; simpl in H; try discriminate.
  - injection H as -> ->. split; reflexivity.
  - apply IH. exact H.
Qed.

Lemma skipn_nil_nth_error {A : Type} (l : list A) : forall n,
  skipn n l = [] -> nth_error l n = None.
Proof.
  induction l as [|y l IH]; intros [|n] H; simpl in H; try discriminate; try reflexivity.
  apply IH. exact H.
Qed.

(** From a state in which the worker awaits the handler of item [i]:
    the handler settles with [r], and the items behind [i] are handled
    in turn. *)
Lemma one_worker_from (rs : list R) : forall i p r st,
  returns p r ->
  reachable items handler 1 st ->
  workers st = [Awaiting i p] -> index st = S i ->
  Forall2 (fun x v => returns (handler x) v) (skipn (S i) items) rs ->
  exists st', reachable items handler 1 st' /\ settled st'
              /\ results st' = results st ++ r :: rs.
Proof.
  induction rs as [|r' rs IH]; intros i p r st Hret;
    revert st; induction Hret as [r|e k a r _ IHret]; intros st Hst Hw Hi Hrest.
  - (* the last item returns *)
    remember (skipn (S i) items) as tail eqn:Hnil.
    destruct tail as [|y tail]; [|inversion Hrest].
    symmetry in Hnil. apply skipn_nil_nth_error in Hnil.
    eexists. split; [|split].
    + eapply reachable_step; [exact Hst|].
      apply (step_resume items handler st 0 i r). rewrite Hw. reflexivity.
    + intros w. cbn [workers]. rewrite Hw, Hi. unfold claim. rewrite Hnil.
      cbn. intros [<-|[]]. reflexivity.
    + reflexivity.
  - apply (IHret {| index := index st; results := results st;
                    workers := setWorker 0 (Awaiting i (k a)) (workers st) |}).
    + eapply reachable_step; [exact Hst|].
      apply (step_answer items handler st 0 i e k a). rewrite Hw. reflexivity.
    + cbn [workers]. rewrite Hw. reflexivity.
    + exact Hi.
    + exact Hrest.
  - (* an item returns and the next one is taken *)
    remember (skipn (S i) items) as tail eqn:Hskip.
    destruct tail as [|y tail]; [inversion Hrest|].
    apply Forall2_cons_iff in Hrest as [Hy Hrs].
    symmetry in Hskip. apply skipn_cons_nth_error in Hskip as [Hnth Hskip].
    destruct (IH (S i) (handler y) r'
                {| index := fst (claim items handler (index st));
                   results := results st ++ [r];
                   workers := setWorker 0 (snd (claim items handler (index st)))
                                (workers st) |} Hy) as (st' & H1 & H2 & H3).
    + eapply reachable_step; [exact Hst|].
      apply (step_resume items handler st 0 i r). rewrite Hw. reflexivity.
    + cbn [workers]. rewrite Hw, Hi. unfold claim. rewrite Hnth. reflexivity.
    + cbn [index]. rewrite Hi. unfold claim. rewrite Hnth. reflexivity.
    + rewrite Hskip. exact Hrs.
    + exists st'. split; [exact H1|]. split; [exact H2|].
      rewrite H3. cbn [results]. rewrite <- app_assoc. reflexivity.
  - apply (IHret {| index := index st; results := results st;
                    workers := setWorker 0 (Awaiting i (k a)) (workers st) |}).
    + eapply reachable_step; [exact Hst|].
      apply (step_answer items handler st 0 i e k a). rewrite Hw. reflexivity.
    + cbn [workers]. rewrite Hw. reflexivity.
    + exact Hi.
    + exact Hrest.
Qed.

(** With one worker, every list of values of the handler on the items,
    in their order, is a result of the call. *)
Lemma one_worker_run (rs : list R) :
  Forall2 (fun x v => returns (handler x) v) items rs ->
  exists st, reachable items handler 1 st /\ settled st /\ results st = rs.
Proof.
  intros H. inversion H as [Hi Hr | x r rest rs' Hx Hrest Hi Hr].
  - rewrite Hi. exists (start items handler 1). split; [constructor|].
    unfold start. rewrite <- Hi. split; [|reflexivity].
    intros w [<-|[]]. reflexivity.
  - rewrite Hi.
    destruct (one_worker_from rs' 0 (handler x) r (start items handler 1) Hx)
      as (st' & H1 & H2 & H3).
    + constructor.
    + unfold start. rewrite <- Hi. reflexivity.
    + unfold start. rewrite <- Hi. reflexivity.
    + rewrite <- Hi. exact Hrest.
    + exists st'. split; [exact H1|]. split; [exact H2|].
      rewrite H3. unfold start. rewrite <- Hi. reflexivity.
Qed.

End OneWorkerRuns.

(** ** Pages that are always full *)

Section FullPages.

Variables TOTAL BATCH_SIZE : nat.
Variable getSignatures : nat -> string -> nat -> list string.
Hypothesis positive : 0 < BATCH_SIZE.
Hypothesis full : forall k b l, List.length (getSignatures k b l) = l.

(** The number of pages of [BATCH_SIZE] that hold [n] signatures. *)
Lemma pages_zero : (0 + BATCH_SIZE - 1) / BATCH_SIZE = 0.
Proof. apply Nat.div_small. lia. Qed.

Lemma pages_succ (n : nat) :
  0 < n ->
  (n + BATCH_SIZE - 1) / BATCH_SIZE
  = S ((n - Nat.min BATCH_SIZE n + BATCH_SIZE - 1) / BATCH_SIZE).
Proof.
  intros Hn. destruct (Nat.le_gt_cases n BATCH_SIZE) as [Hle|Hgt].
  - rewrite Nat.min_r by assumption. rewrite Nat.sub_diag, pages_zero.
    assert (H : n + BATCH_SIZE - 1 = (n - 1) + 1 * BATCH_SIZE) by lia.
    rewrite H, Nat.div_add by lia. rewrite Nat.div_small by lia. reflexivity.
  - rewrite Nat.min_l by lia.
    assert (H : n + BATCH_SIZE - 1 = (n - BATCH_SIZE + BATCH_SIZE - 1) + 1 * BATCH_SIZE)
      by lia.
    rewrite H, Nat.div_add by lia. lia.
Qed.

Lemma collect_full (k : nat) (before : string) (fetched0 : list string) :
  List.length fetched0 <= TOTAL ->
  let remaining := TOTAL - List.length fetched0 in
  let result := collect TOTAL BATCH_SIZE getSignatures k before fetched0 in
  List.length (fst result) = TOTAL
  /\ List.length (snd result) = (remaining + BATCH_SIZE - 1) / BATCH_SIZE
  /\ forall j b l, nth_error (snd result) j = Some (b, l) ->
       l = Nat.min BATCH_SIZE (remaining - j * BATCH_SIZE).
Proof.
  cbv zeta.
  funelim (collect TOTAL BATCH_SIZE getSignatures k before fetched0); intros Hle.
  - cbn [fst snd List.length].
    replace (TOTAL - List.length fetchedSignatures) with 0 by lia.
    rewrite pages_zero. split; [lia|]. split; [reflexivity|].
    intros [|j] b l'; discriminate.
  - exfalso. apply (f_equal (@List.length string)) in Heq. rewrite full in Heq.
    cbn [List.length] in Heq. lia.
  - apply (f_equal (@List.length string)) in Heq. rewrite full in Heq.
    assert (Hpage : List.length (fetchedSignatures ++ s :: sigs)
                    = List.length fetchedSignatures
                      + Nat.min BATCH_SIZE (TOTAL - List.length fetchedSignatures))
      by (rewrite length_app, Heq; reflexivity).
    specialize (H ltac:(lia)).
    destruct (collect TOTAL BATCH_SIZE getSignatures (S k)
                (last (s :: sigs) before) (fetchedSignatures ++ s :: sigs))
      as [fetched calls].
    cbn [fst snd List.length] in *. destruct H as (Hf & Hc & Hl).
    rewrite Hpage in Hc, Hl.
    set (r := TOTAL - List.length fetchedSignatures) in *.
    replace (TOTAL - (List.length fetchedSignatures + Nat.min BATCH_SIZE r))
      with (r - Nat.min BATCH_SIZE r) in Hc, Hl by lia.
    split; [assumption|]. split.
    + rewrite Hc. symmetry. apply pages_succ. lia.
    + intros [|j] b l' Hj; cbn [nth_error] in Hj.
      * injection Hj as <- <-. cbn [Nat.mul]. rewrite Nat.sub_0_r. reflexivity.
      * rewrite (Hl j b l' Hj).
        destruct (Nat.le_gt_cases r BATCH_SIZE) as [Hr|Hr].
        -- rewrite (Nat.min_r BATCH_SIZE r) by assumption.
           replace (r - r - j * BATCH_SIZE) with 0 by lia.
           replace (r - S j * BATCH_SIZE) with 0 by nia. reflexivity.
        -- rewrite (Nat.min_l BATCH_SIZE r) by lia.
           replace (r - S j * BATCH_SIZE) with (r - BATCH_SIZE - j * BATCH_SIZE) by nia.
           reflexivity.
Qed.

End FullPages.

(** X12.  When the source fills every page, the loop makes
    [ceil(TOTAL / BATCH_SIZE)] requests, the [j]-th of them for
    [min(BATCH_SIZE, TOTAL - j * BATCH_SIZE)] signatures, and collects
    exactly [TOTAL] signatures. *)
Theorem collect_full_pages (TOTAL BATCH_SIZE : nat)
  (getSignatures : nat -> string -> nat -> list string) (before : string) :
  0 < BATCH_SIZE ->
  (forall k b l, List.length (getSignatures k b l) = l) ->
  let result := collect TOTAL BATCH_SIZE getSignatures 0 before [] in
  List.length (fst result) = TOTAL
  /\ List.length (snd result) = (TOTAL + BATCH_SIZE - 1) / BATCH_SIZE
  /\ forall j b l, nth_error (snd result) j = Some (b, l) ->
       l = Nat.min BATCH_SIZE (TOTAL - j * BATCH_SIZE).
Proof.
  intros Hpos Hfull.
  pose proof (collect_full TOTAL BATCH_SIZE getSignatures Hpos Hfull 0 before []) as H.
  cbn [List.length] in H. rewrite Nat.sub_0_r in H. apply H. lia.
Qed.

(** ** The slices of [fetchedSignatures] *)

Section Slices.

Variable BATCH_SIZE : nat.
Hypothesis positive : 0 < BATCH_SIZE.

Lemma totalBatchesOf_nil : totalBatchesOf BATCH_SIZE [] = 0.
Proof. unfold totalBatchesOf. apply Nat.div_small. simpl. lia. Qed.

Lemma totalBatchesOf_step (l : list string) :
  l <> [] ->
  totalBatchesOf BATCH_SIZE l = S (totalBatchesOf BATCH_SIZE (skipn BATCH_SIZE l)).
Proof.
  intros Hl. unfold totalBatchesOf. rewrite length_skipn.
  assert (Hn : 0 < List.length l) by (destruct l; [contradiction|simpl; lia]).
  set (n := List.length l) in *.
  destruct (Nat.le_gt_cases n BATCH_SIZE) as [Hle|Hgt].
  - replace (n - BATCH_SIZE) with 0 by lia.
    replace (n + BATCH_SIZE - 1) with ((n - 1) + 1 * BATCH_SIZE) by lia.
    rewrite Nat.div_add by lia. rewrite !Nat.div_small by lia. reflexivity.
  - replace (n + BATCH_SIZE - 1) with ((n - BATCH_SIZE + BATCH_SIZE - 1) + 1 * BATCH_SIZE)
      by lia.
    rewrite Nat.div_add by lia. lia.
Qed.

Lemma batchSigs_S (l : list string) (i : nat) :
  batchSigs BATCH_SIZE l (S i) = batchSigs BATCH_SIZE (skipn BATCH_SIZE l) i.
Proof.
  unfold batchSigs. rewrite skipn_skipn.
  replace (i * BATCH_SIZE + BATCH_SIZE) with (S i * BATCH_SIZE) by lia. reflexivity.
Qed.

Lemma slices_concat (n : nat) : forall l,
  totalBatchesOf BATCH_SIZE l = n ->
  List.concat (map (batchSigs BATCH_SIZE l) (seq 0 n)) = l.
Proof.
  induction n as [|n IH]; intros l Hn.
  - destruct l as [|x l]; [reflexivity|].
    rewrite totalBatchesOf_step in Hn by discriminate. discriminate.
  - destruct l as [|x l]; [rewrite totalBatchesOf_nil in Hn; discriminate|].
    rewrite totalBatchesOf_step in Hn by discriminate. injection Hn as Hn.
    cbn [seq map List.concat]. rewrite <- seq_shift, map_map.
    rewrite (map_ext _ (batchSigs BATCH_SIZE (skipn BATCH_SIZE (x :: l))))
      by (intros i; apply batchSigs_S).
    rewrite (IH _ Hn). unfold batchSigs. cbn [Nat.mul skipn].
    apply firstn_skipn.
Qed.

Lemma slices_length (n : nat) : forall l i,
  totalBatchesOf BATCH_SIZE l = n -> i < n ->
  0 < List.length (batchSigs BATCH_SIZE l i) <= BATCH_SIZE
  /\ (S i < n -> List.length (batchSigs BATCH_SIZE l i) = BATCH_SIZE).
Proof.
  induction n as [|n IH]; intros l i Hn Hi; [lia|].
  destruct l as [|x l]; [rewrite totalBatchesOf_nil in Hn; discriminate|].
  rewrite totalBatchesOf_step in Hn by discriminate. injection Hn as Hn.
  destruct i as [|i].
  - unfold batchSigs. cbn [Nat.mul skipn]. rewrite length_firstn.
    split; [simpl List.length; lia|].
    intros Hlt. destruct (skipn BATCH_SIZE (x :: l)) as [|y l'] eqn:Hs.
    + rewrite totalBatchesOf_nil in Hn. lia.
    + assert (Hlen : List.length (skipn BATCH_SIZE (x :: l)) = S (List.length l'))
        by (rewrite Hs; reflexivity).
      rewrite length_skipn in Hlen. lia.
  - rewrite batchSigs_S. destruct (IH _ i Hn ltac:(lia)) as [H1 H2].
    split; [assumption|]. intros Hlt. apply H2. lia.
Qed.

End Slices.

(** X13.  The slices cut [fetchedSignatures] into consecutive pieces: put
    end to end they give the list back, none of them is empty, and all
    but the last hold [BATCH_SIZE] signatures. *)
Theorem batchSigs_partition (BATCH_SIZE : nat) (fetchedSignatures : list string) :
  0 < BATCH_SIZE ->
  let totalBatches := totalBatchesOf BATCH_SIZE fetchedSignatures in
  List.concat (map (batchSigs BATCH_SIZE fetchedSignatures) (seq 0 totalBatches))
  = fetchedSignatures
  /\ forall i, i < totalBatches ->
       0 < List.length (batchSigs BATCH_SIZE fetchedSignatures i) <= BATCH_SIZE
       /\ (S i < totalBatches ->
           List.length (batchSigs BATCH_SIZE fetchedSignatures i) = BATCH_SIZE).
Proof.
  intros Hpos. cbv zeta. split.
  - apply slices_concat; [assumption|reflexivity].
  - intros i Hi. eapply slices_length; eauto.
Qed.

(** ** A source without signatures *)

Lemma collect_no_signature (TOTAL BATCH_SIZE : nat)
  (getSignatures : nat -> string -> nat -> list string) (before : string) :
  getSignatures 0 before (Nat.min BATCH_SIZE TOTAL) = [] ->
  fst (collect TOTAL BATCH_SIZE getSignatures 0 before []) = [].
Proof.
  intros Hnone.
  funelim (collect TOTAL BATCH_SIZE getSignatures 0 before []); try reflexivity.
  cbn [List.length] in Heq. rewrite Nat.sub_0_r, Hnone in Heq. discriminate.
Qed.

(** X14.  When the first request brings no signature, no batch is
    processed and no file is written; the run prints the totals, all
    zero, and that no pump token was found. *)
Theorem main_without_signatures (TOTAL BATCH_SIZE CONCURRENCY : nat)
  (getSignatures : nat -> string -> nat -> list string) (before : string)
  (batches : list (list ExtractedResult)) (out : list output) :
  getSignatures 0 before (Nat.min BATCH_SIZE TOTAL) = [] ->
  mainRun TOTAL BATCH_SIZE CONCURRENCY getSignatures before batches out ->
  batches = [] /\ out = [Summary 0 0; SkippedTotal 0; NoPumpTokenFound].
Proof.
  intros Hnone (Hlen & _ & Hout).
  rewrite (collect_no_signature _ _ _ _ Hnone) in Hlen, Hout.
  assert (Hz : totalBatchesOf BATCH_SIZE [] = 0).
  { unfold totalBatchesOf. cbn [List.length Nat.add].
    destruct BATCH_SIZE as [|b]; [reflexivity|]. apply Nat.div_small. lia. }
  rewrite Hz in Hlen, Hout. destruct batches; [|discriminate].
  split; [reflexivity|]. exact Hout.
Qed.

(** ** The totals and the files *)

Lemma batchLoop_totals (batches : list (list ExtractedResult)) : forall i tb t,
  let t' := fst (batchLoop i tb t batches) in
  totalPumpCount t' = totalPumpCount t + List.length (matching batches)
  /\ totalValid t'
     = totalValid t
       + List.length (filter hasTimestamp (resolvedOnly (List.concat batches)))
  /\ totalSkipped t' = totalSkipped t + List.length (filter isSkipped (List.concat batches)).
Proof.
  induction batches as [|parsed batches IH]; intros i tb t; cbv zeta.
  - cbn. repeat split; lia.
  - cbn [batchLoop].
    destruct (processBatch i tb t parsed) as [t1 out] eqn:Hp.
    specialize (IH (S i) tb t1). cbv zeta in IH.
    destruct (batchLoop (S i) tb t1 batches) as [t2 out']. cbn [fst] in *.
    destruct IH as (Hpump & Hvalid & Hskip).
    unfold processBatch in Hp. injection Hp as <- _.
    cbn [totalPumpCount totalValid totalSkipped] in *.
    unfold matching in *. cbn [List.concat].
    rewrite resolvedOnly_app, !filter_app, !length_app.
    pose proof (Permutation_length (pumpCAsOf_perm parsed)) as L1.
    unfold pumpCAsOf in L1.
    assert (L2 : List.length (validMintsOf parsed)
                 = List.length (filter hasTimestamp (resolvedOnly parsed)))
      by (apply Permutation_length, sort_perm).
    rewrite Hpump, Hvalid, Hskip, L1, L2.
    repeat split; lia.
Qed.

Lemma resolvedOnly_length (parsed : list ExtractedResult) :
  List.length (resolvedOnly parsed) + List.length (filter isSkipped parsed)
  <= List.length parsed.
Proof.
  induction parsed as [|[tx| |] parsed IH]; simpl; lia.
Qed.

(** X15.  The totals of the last lines.  The valid transactions are the
    resolved records with a time stamp, the pump tokens those of them
    whose address ends in "pump", the skipped ones the outcomes
    [{ skipped: true }]; an outcome [null] and a resolved record
    without a time stamp are in none of the three, so the sum of valid
    and skipped can stay below the number of signatures. *)
Theorem finalReport_totals (batches : list (list ExtractedResult)) (i tb : nat) :
  let results := List.concat batches in
  let valid := filter hasTimestamp (resolvedOnly results) in
  let pump := filter isPump valid in
  let skipped := filter isSkipped results in
  firstn 2 (finalReport (fst (batchLoop i tb initialTotals batches)))
  = [Summary (List.length pump) (List.length valid); SkippedTotal (List.length skipped)]
  /\ List.length pump <= List.length valid
  /\ List.length valid + List.length skipped <= List.length results.
Proof.
  cbv zeta. destruct (batchLoop_totals batches i tb initialTotals) as (Hp & Hv & Hs).
  unfold finalReport. cbn [firstn app]. rewrite Hp, Hv, Hs.
  cbn [initialTotals totalPumpCount totalValid totalSkipped Nat.add].
  split; [reflexivity|]. split.
  - apply filter_length_le.
  - pose proof (resolvedOnly_length (List.concat batches)).
    pose proof (filter_length_le hasTimestamp (resolvedOnly (List.concat batches))).
    lia.
Qed.

Lemma processBatch_writes (i tb : nat) (t : totals) (parsed : list ExtractedResult) :
  filter isWrite (snd (processBatch i tb t parsed))
  = [WriteBatchFile (i + 1) (validMintsOf parsed)].
Proof.
  unfold processBatch. cbn [snd]. rewrite !filter_app.
  destruct (hd_error (filter isPump (validMintsOf parsed)));
    destruct (0 <? List.length (filter isSkipped parsed))%nat; reflexivity.
Qed.

(** X16.  Every turn of the loop writes one file, numbered from 1 in the
    order of the batches, and the file holds the valid records of its
    batch, also when there is none. *)
Theorem batchLoop_writes (batches : list (list ExtractedResult)) : forall i tb t,
  filter isWrite (snd (batchLoop i tb t batches))
  = map (fun p => WriteBatchFile (fst p + 1) (validMintsOf (snd p)))
        (combine (seq i (List.length batches)) batches).
Proof.
  induction batches as [|parsed batches IH]; intros i tb t; [reflexivity|].
  cbn [batchLoop].
  pose proof (processBatch_writes i tb t parsed) as Hw.
  destruct (processBatch i tb t parsed) as [t1 out].
  specialize (IH (S i) tb t1).
  destruct (batchLoop (S i) tb t1 batches) as [t2 out'].
  cbn [snd fst] in *. rewrite filter_app, Hw, IH. reflexivity.
Qed.

(** ** The oldest pump token of one batch *)








(** ** One outcome for every signature *)

Lemma withConcurrencyReturns_length (concurrency : nat) (sigs : list string)
  (parsed : list ExtractedResult) :
  1 <= concurrency -> withConcurrencyReturns concurrency sigs parsed ->
  List.length parsed = List.length sigs.
Proof.
  intros Hc (st & Hreach & Hset & <-).
  destruct (settled_results _ _ _ st Hc Hreach Hset) as (done & Hperm & Hres).
  rewrite <- (Forall2_length Hres), (Permutation_length Hperm). apply length_seq.
Qed.

Lemma batchesFrom_lengths (BATCH_SIZE CONCURRENCY : nat) (fetched : list string)
  (batches : list (list ExtractedResult)) : forall i,
  1 <= CONCURRENCY ->
  batchesFrom BATCH_SIZE CONCURRENCY fetched i batches ->
  map (@List.length ExtractedResult) batches
  = map (fun k => List.length (batchSigs BATCH_SIZE fetched k))
        (seq i (List.length batches)).
Proof.
  induction batches as [|parsed batches IH]; intros i Hc H; [reflexivity|].
  destruct H as [H1 H2]. cbn [map seq List.length]. f_equal.
  - apply (withConcurrencyReturns_length CONCURRENCY); assumption.
  - apply IH; assumption.
Qed.

Lemma no_worker_results {E : Type} {Ans : E -> Type} {T R : Type} (items : list T)
  (handler : T -> proc Ans R) (st : pool) :
  reachable items handler 0 st -> results st = [].
Proof.
  intros H. assert (Hst : st = start items handler 0).
  { induction H as [|st st' _ IH Hs]; [reflexivity|]. subst st.
    inversion Hs; subst;
      match goal with H : nth_error _ ?n = Some _ |- _ =>
        cbn in H; destruct n; discriminate H end. }
  rewrite Hst. reflexivity.
Qed.

Lemma batchesFrom_no_worker (BATCH_SIZE : nat) (fetched : list string)
  (batches : list (list ExtractedResult)) : forall i,
  batchesFrom BATCH_SIZE 0 fetched i batches -> List.concat batches = [].
Proof.
  induction batches as [|parsed batches IH]; intros i H; [reflexivity|].
  destruct H as [(st & Hreach & _ & <-) H]. cbn [List.concat].
  rewrite (no_worker_results _ _ st Hreach). apply (IH (S i)). exact H.
Qed.

(** The workers [main] starts for some settings: 25 for a missing
    setting and for 0, the count itself for a count, and none for -1
    and for 1/2, which [||] keeps. *)
Example CONCURRENCY_settings :
  Config.CONCURRENCY None = 25
  /\ Config.CONCURRENCY (Some (Qmake 0 1)) = 25
  /\ Config.CONCURRENCY (Some (Qmake 12 1)) = 12
  /\ Config.CONCURRENCY (Some (Qmake (-1) 1)) = 0
  /\ Config.CONCURRENCY (Some (Qmake 1 2)) = 0.
Proof. repeat split; reflexivity. Qed.

(** X18.  A run of [main] whose pool has at least one worker has one
    outcome for every signature it collected: each batch has as many
    outcomes as its slice has signatures, and all batches together as
    many as signatures were collected.  A run whose pool has no worker
    has no outcome at all. *)
Theorem main_one_outcome_per_signature (TOTAL BATCH_SIZE CONCURRENCY : nat)
  (getSignatures : nat -> string -> nat -> list string) (before : string)
  (batches : list (list ExtractedResult)) (out : list output) :
  0 < BATCH_SIZE ->
  mainRun TOTAL BATCH_SIZE CONCURRENCY getSignatures before batches out ->
  let fetchedSignatures :=
    fst (collect TOTAL BATCH_SIZE getSignatures 0 before []) in
  (1 <= CONCURRENCY ->
   List.length (List.concat batches) = List.length fetchedSignatures
   /\ forall i parsed, nth_error batches i = Some parsed ->
        List.length parsed = List.length (batchSigs BATCH_SIZE fetchedSignatures i))
  /\ (CONCURRENCY = 0 -> List.concat batches = []).
Proof.
  intros Hpos. unfold mainRun. cbv zeta.
  set (fetched := fst (collect _ _ _ _ _ _)).
  intros (Hlen & Hfrom & _). split.
  - intros Hc.
    pose proof (batchesFrom_lengths _ _ _ _ 0 Hc Hfrom) as Hmap. split.
    + rewrite length_concat, Hmap, Hlen.
      rewrite <- (map_map (batchSigs BATCH_SIZE fetched) (@List.length string)).
      rewrite <- length_concat.
      rewrite (slices_concat BATCH_SIZE Hpos _ fetched eq_refl). reflexivity.
    + intros i parsed Hi.
      apply (f_equal (fun l => nth_error l i)) in Hmap.
      rewrite nth_error_map, Hi in Hmap. cbn [option_map] in Hmap.
      rewrite nth_error_map in Hmap.
      assert (Hlt : i < List.length batches) by (apply nth_error_Some; congruence).
      rewrite nth_error_seq in Hmap.
      apply Nat.ltb_lt in Hlt. rewrite Hlt in Hmap.
      cbn [option_map Nat.add] in Hmap. congruence.
  - intros ->. apply (batchesFrom_no_worker _ _ _ 0 Hfrom).
Qed.

(** ** The suffix test *)

Lemma substring_append_right (pre p : string) :
  String.substring (String.length pre) (String.length p) (String.append pre p) = p.
Proof.
  induction pre as [|c pre IH]; cbn [String.length String.append String.substring].
  - induction p as [|c p IH]; cbn; [reflexivity|]. rewrite IH. reflexivity.
  - exact IH.
Qed.

Lemma substring_split (s : string) : forall n,
  n <= String.length s ->
  s = String.append (String.substring 0 n s)
        (String.substring n (String.length s - n) s).
Proof.
  induction s as [|c s IH]; intros [|n] Hn; cbn in *; try lia.
  - reflexivity.
  - f_equal. clear. induction s as [|c s IH]; cbn; [reflexivity|]. rewrite <- IH. reflexivity.
  - f_equal. apply IH. lia.
Qed.

Lemma length_append (a b : string) :
  String.length (String.append a b) = String.length a + String.length b.
Proof. induction a as [|c a IH]; cbn; [reflexivity|]. rewrite IH. reflexivity. Qed.

(** X19.  [s.endsWith(p)] holds exactly of the texts that are some text
    followed by [p]; so a record counts as a pump token when its
    address is some text followed by "pump", in these letters. *)
Theorem isPump_iff_suffix (tx : Extracted) :
  isPump tx = true <-> exists pre, tokenAddress tx = String.append pre "pump".
Proof.
  unfold isPump, JS.endsWith. set (s := tokenAddress tx).
  change (String.length "pump") with 4. split.
  - intros H. apply andb_prop in H as [Hle Heq].
    apply Nat.leb_le in Hle. apply String.eqb_eq in Heq.
    exists (String.substring 0 (String.length s - 4) s).
    pose proof (substring_split s (String.length s - 4) ltac:(lia)) as Hsplit.
    replace (String.length s - (String.length s - 4)) with 4 in Hsplit by lia.
    rewrite Heq in Hsplit. exact Hsplit.
  - intros [pre ->]. rewrite length_append. cbn [String.length].
    apply andb_true_intro. split; [apply Nat.leb_le; lia|].
    replace (String.length pre + 4 - 4) with (String.length pre) by lia.
    apply String.eqb_eq.
    apply (substring_append_right pre "pump").
Qed.

(** ** [withConcurrency]: how many handlers run *)

Section PoolLoad.

Context {E : Type} {Ans : E -> Type} {T R : Type}.
Variable items : list T.
Variable handler : T -> proc Ans R.
Variable concurrency : nat.

Lemma launch_load (n : nat) : forall idx,
  idx <= List.length items ->
  fst (launch items handler n idx) = Nat.min (idx + n) (List.length items)
  /\ List.length (filter isAwaiting (snd (launch items handler n idx)))
     = Nat.min (idx + n) (List.length items) - idx.
Proof.
  induction n as [|n IH]; intros idx Hle.
  - cbn [launch fst snd filter List.length]. lia.
  - cbn [launch]. destruct (claim items handler idx) as [idx1 w] eqn:Hc.
    unfold claim in Hc.
    destruct (nth_error items idx) as [x|] eqn:Hx; injection Hc as <- <-.
    + assert (idx < List.length items) by (apply nth_error_Some; congruence).
      destruct (IH (S idx) ltac:(lia)) as [H1 H2].
      destruct (launch items handler n (S idx)) as [idx' ws].
      cbn [fst snd filter isAwaiting List.length] in *. lia.
    + apply nth_error_None in Hx.
      destruct (IH idx Hle) as [H1 H2].
      destruct (launch items handler n idx) as [idx' ws].
      cbn [fst snd filter isAwaiting List.length] in *. lia.
Qed.

(** X23.  At its start a call has taken [min(concurrency, items.length)]
    items and has as many handler calls in flight, before any of them
    has settled; with at least as many workers as items every item is
    in flight at once. *)
Theorem withConcurrency_initial_load :
  let st := start items handler concurrency in
  index st = Nat.min concurrency (List.length items)
  /\ inFlight st = Nat.min concurrency (List.length items)
  /\ results st = [].
Proof.
  cbv zeta. unfold start, inFlight.
  destruct (launch_load concurrency 0 ltac:(lia)) as [H1 H2].
  destruct (launch items handler concurrency 0) as [idx ws].
  cbn [fst snd index workers results Nat.add] in *.
  rewrite Nat.sub_0_r in H2. auto.
Qed.

Lemma all_awaiting (ws : list (@worker E Ans R)) :
  ~ In Exited ws -> List.length (filter isAwaiting ws) = List.length ws.
Proof.
  induction ws as [|[i p|] ws IH]; intros H; simpl.
  - reflexivity.
  - f_equal. apply IH. intros Hin. apply H. right. assumption.
  - exfalso. apply H. left. reflexivity.
Qed.

(** X24.  The pool stays full as long as items are left: while [index] is
    below [items.length], no worker has returned and exactly
    [concurrency] handler calls are in flight. *)
Theorem withConcurrency_pool_full (st : pool) :
  reachable items handler concurrency st ->
  index st < List.length items ->
  inFlight st = concurrency /\ ~ In Exited (workers st).
Proof.
  intros Hreach Hlt.
  destruct (reachable_invariant _ _ _ st Hreach) as [done Hinv].
  destruct Hinv as [Hw Hi Hr Hc Hp He].
  assert (Hno : ~ In Exited (workers st)) by (intros Hin; specialize (He Hin); lia).
  split; [|exact Hno]. unfold inFlight. rewrite all_awaiting by exact Hno. exact Hw.
Qed.

End PoolLoad.

(** ** The order of the outcomes and the oldest pump token *)

Lemma resolvedOnly_perm (l l' : list ExtractedResult) :
  Permutation l l' -> Permutation (resolvedOnly l) (resolvedOnly l').
Proof.
  induction 1 as [|x l l' _ IH|x y l|l l' l'' _ IH1 _ IH2].
  - reflexivity.
  - destruct x as [tx| |]; simpl; [constructor|..]; assumption.
  - destruct x as [tx| |], y as [ty| |]; simpl; try reflexivity. apply perm_swap.
  - etransitivity; eassumption.
Qed.

Lemma concat_perm {A : Type} (ls ls' : list (list A)) :
  Forall2 (@Permutation A) ls ls' -> Permutation (List.concat ls) (List.concat ls').
Proof.
  induction 1 as [|l l' ls ls' Hl _ IH]; simpl; [reflexivity|].
  apply Permutation_app; assumption.
Qed.

Lemma matching_perm (batches batches' : list (list ExtractedResult)) :
  Forall2 (@Permutation ExtractedResult) batches batches' ->
  Permutation (matching batches) (matching batches').
Proof.
  intros H. unfold matching. do 2 apply filter_perm.
  apply resolvedOnly_perm. apply concat_perm. exact H.
Qed.

Lemma oldestOf_time (l : list Extracted) (o o' : PumpToken) :
  oldestOf l o -> oldestOf l o' ->
  Date.parse (pt_timestamp o) = Date.parse (pt_timestamp o').
Proof.
  intros (tx & ms & Hin & _ & Hts & Hp & Hmin) (tx' & ms' & Hin' & _ & Hts' & Hp' & Hmin').
  destruct (Hmin tx' Hin') as (m1 & (s1 & Hs1 & Hp1) & Hle1).
  destruct (Hmin' tx Hin) as (m2 & (s2 & Hs2 & Hp2) & Hle2).
  rewrite Hts' in Hs1. injection Hs1 as <-.
  rewrite Hts in Hs2. injection Hs2 as <-.
  rewrite Hp' in Hp1. injection Hp1 as <-.
  rewrite Hp in Hp2. injection Hp2 as <-.
  rewrite Hp, Hp'. f_equal. lia.
Qed.

(** X25.  The order in which the outcomes of a batch arrive does not
    change the time of the oldest pump token of the run: two runs whose
    batches hold the same outcomes, in whatever order, end with oldest
    pump tokens of the same time (when several pump tokens share the
    earliest time, which of them is named can depend on the order). *)
Theorem oldest_time_order_independent (batches batches' : list (list ExtractedResult))
  (i tb : nat) :
  Forall (Forall wellStamped) batches ->
  Forall2 (@Permutation ExtractedResult) batches batches' ->
  oldestTime (fst (batchLoop i tb initialTotals batches))
  = oldestTime (fst (batchLoop i tb initialTotals batches')).
Proof.
  intros Hwf Hperm.
  pose proof (matching_perm _ _ Hperm) as Hm.
  assert (Hst : forall tx, In tx (matching batches) -> exists ms, stampedAt tx ms).
  { intros tx Hin. apply In_matching in Hin.
    eapply wellStamped_stampedAt; eassumption. }
  assert (Hst' : forall tx, In tx (matching batches') -> exists ms, stampedAt tx ms).
  { intros tx Hin. apply Hst. eapply Permutation_in; [symmetry; exact Hm|exact Hin]. }
  pose proof (batchLoop_oldest_spec batches i tb Hst) as H.
  pose proof (batchLoop_oldest_spec batches' i tb Hst') as H'.
  unfold oldestTime.
  destruct (oldestPumpToken (fst (batchLoop i tb initialTotals batches))) as [o|];
    destruct (oldestPumpToken (fst (batchLoop i tb initialTotals batches'))) as [o'|];
    cbn [option_map].
  - f_equal. apply (oldestOf_time (matching batches')); [|assumption].
    eapply oldestOf_perm; eassumption.
  - exfalso. rewrite H' in Hm. apply Permutation_sym, Permutation_nil in Hm.
    destruct H as (tx & _ & Hin & _). rewrite Hm in Hin. contradiction.
  - exfalso. rewrite H in Hm. apply Permutation_nil in Hm.
    destruct H' as (tx & _ & Hin & _). rewrite Hm in Hin. contradiction.
  - reflexivity.
Qed.

(** ** The further properties on sample inputs *)

Lemma processMintLog_first_pair_witness :
  mintPairAt (Sample.logsOf Sample.payloadA) 1
    (String.append "Program data: " Sample.payloadA)
  /\ option_map mintAddress (processMintLog (Sample.logsOf Sample.payloadA))
     = Some Sample.addressA.
Proof.
  assert (Hp : mintPairAt (Sample.logsOf Sample.payloadA) 1
                 (String.append "Program data: " Sample.payloadA))
    by (repeat split; vm_compute; reflexivity).
  split; [exact Hp|].
  rewrite (processMintLog_first_pair _ 1 Sample.payloadA Hp).
  - vm_compute. reflexivity.
  - intros [|j] line Hj (H & _); [discriminate H|lia].
Defined.

Lemma decodeBuffer_ignores_lead_witness :
  List.length Sample.lead = 8
  /\ decodeBuffer (Sample.lead ++ Sample.key) = decodeBuffer (repeat x00 8 ++ Sample.key).
Proof.
  split; [reflexivity|].
  apply (decodeBuffer_ignores_lead Sample.lead (repeat x00 8) Sample.key); reflexivity.
Defined.

Lemma decodeBuffer_ignores_trailing_witness :
  List.length Sample.mintA = 32
  /\ decodeBuffer (Sample.lead ++ lengthPrefixed [x54] ++ lengthPrefixed []
                   ++ lengthPrefixed [] ++ Sample.mintA ++ Sample.key ++ Sample.userA
                   ++ [xff; xff])
     = decodeBuffer (Sample.lead ++ lengthPrefixed [x54] ++ lengthPrefixed []
                     ++ lengthPrefixed [] ++ Sample.mintA ++ Sample.key ++ Sample.userA).
Proof.
  split; [reflexivity|].
  apply (decodeBuffer_ignores_trailing Sample.lead [x54] [] [] Sample.mintA Sample.key
           Sample.userA [xff; xff]); first [reflexivity | simpl; lia].
Defined.

Lemma extractTransactionInfo_resolved_record_witness :
  fst (run (extractTransactionInfo "sigB" 1) (Sample.always 1700000000) 0)
  = Resolved {| signature := "sigB"; tokenAddress := Sample.addressA;
                timestamp := Some "2023-11-14T22:13:20.000Z" |}
  /\ exists k t logs m,
       k < 3
       /\ Sample.always 1700000000 (2 * k) (getParsedTransaction "sigB") = Normal (Some t)
       /\ logMessagesOf (Some t) = Some logs
       /\ processMintLog logs = Some m
       /\ mintAddress m = Sample.addressA.
Proof.
  assert (H : fst (run (extractTransactionInfo "sigB" 1) (Sample.always 1700000000) 0)
              = Resolved {| signature := "sigB"; tokenAddress := Sample.addressA;
                            timestamp := Some "2023-11-14T22:13:20.000Z" |})
    by (vm_compute; reflexivity).
  split; [exact H|].
  destruct (extractTransactionInfo_resolved_record _ _ _ H)
    as (k & t & logs & m & Hk & He & Hl & Hm & _ & Ha & _).
  exists k, t, logs, m. cbn [tokenAddress] in Ha. auto.
Defined.

Lemma extractTransactionInfo_skipped_at_once_witness :
  processMintLog Sample.otherLogs = None
  /\ run (extractTransactionInfo "sigT" 1)
       (Sample.world (fun _ => Normal (Some Sample.transfer))) 0
     = (Skipped, [getParsedTransaction "sigT"]).
Proof.
  split; [reflexivity|].
  apply (extractTransactionInfo_skipped_at_once "sigT" _ Sample.transfer Sample.otherLogs).
  - reflexivity.
  - reflexivity.
  - intros m H. vm_compute in H. discriminate H.
  - vm_compute. reflexivity.
Defined.

Lemma extractTransactionInfo_blockTime_out_of_range_witness :
  Date.valid (10000000000000 * 1000) = false
  /\ run (extractTransactionInfo "sigA" 1) (Sample.always 10000000000000) 0
     = (Null,
        [getParsedTransaction "sigA"; setTimeout 100;
         getParsedTransaction "sigA"; setTimeout 100;
         getParsedTransaction "sigA"]).
Proof.
  split; [reflexivity|].
  apply (extractTransactionInfo_blockTime_out_of_range "sigA"
           (Sample.always 10000000000000)).
  intros k Hk.
  exists (Sample.txOf Sample.payloadA (Some 10000000000000%Z)),
         (Sample.logsOf Sample.payloadA), 10000000000000%Z.
  repeat split; reflexivity.
Defined.

Lemma withConcurrency_index_account_witness :
  reachable ["sigA"; "sigB"; "sigC"] (fun s => extractTransactionInfo s 1) 2
    (start ["sigA"; "sigB"; "sigC"] (fun s => extractTransactionInfo s 1) 2)
  /\ index (start ["sigA"; "sigB"; "sigC"] (fun s => extractTransactionInfo s 1) 2)
     = 0 + 2.
Proof.
  split; [constructor|].
  apply (withConcurrency_index_account ["sigA"; "sigB"; "sigC"]
           (fun s => extractTransactionInfo s 1) 2).
  constructor.
Defined.

Lemma withConcurrency_without_worker_witness :
  reachable ["sigA"; "sigB"] (fun s => extractTransactionInfo s 1) 0
    (start ["sigA"; "sigB"] (fun s => extractTransactionInfo s 1) 0)
  /\ results (start ["sigA"; "sigB"] (fun s => extractTransactionInfo s 1) 0) = [].
Proof.
  split; [constructor|].
  apply (withConcurrency_without_worker ["sigA"; "sigB"]
           (fun s => extractTransactionInfo s 1)).
  constructor.
Defined.

Lemma withConcurrency_completion_order_witness :
  Sample.waitFirst false = Ret 1
  /\ exists st,
       reachable [true; false] Sample.waitFirst 2 st /\ settled st
       /\ results st = [1; 0].
Proof.
  split; [reflexivity|].
  apply (withConcurrency_completion_order Sample.waitFirst true false
           (setTimeout 100) (fun _ => Ret 0) tt 0 1); reflexivity.
Defined.

Lemma collect_full_pages_witness :
  (forall k b l, List.length (Sample.fullSource k b l) = l)
  /\ List.length (fst (collect 5 2 Sample.fullSource 0 "start" [])) = 5
  /\ List.length (snd (collect 5 2 Sample.fullSource 0 "start" [])) = 3.
Proof.
  assert (Hfull : forall k b l, List.length (Sample.fullSource k b l) = l)
    by (intros; apply repeat_length).
  split; [exact Hfull|].
  destruct (collect_full_pages 5 2 Sample.fullSource "start" ltac:(lia) Hfull)
    as (H1 & H2 & _).
  split; [exact H1|exact H2].
Defined.

Lemma batchSigs_partition_witness :
  0 < 2
  /\ List.concat (map (batchSigs 2 ["a"; "b"; "c"; "d"; "e"])
                    (seq 0 (totalBatchesOf 2 ["a"; "b"; "c"; "d"; "e"])))
     = ["a"; "b"; "c"; "d"; "e"].
Proof.
  split; [lia|].
  apply (batchSigs_partition 2 ["a"; "b"; "c"; "d"; "e"]). lia.
Defined.

Lemma main_empty_source :
  main None Sample.emptySource [] Sample.emptyOutput.
Proof.
  unfold main, mainRun.
  rewrite (collect_no_signature Config.TOTAL Config.BATCH_SIZE Sample.emptySource
             Config.START_BEFORE_SIGNATURE eq_refl).
  split; [reflexivity|]. split; [exact I|reflexivity].
Qed.

Lemma main_without_signatures_witness :
  main None Sample.emptySource [] Sample.emptyOutput
  /\ Sample.emptyOutput = [Summary 0 0; SkippedTotal 0; NoPumpTokenFound].
Proof.
  split; [exact main_empty_source|].
  apply (main_without_signatures Config.TOTAL Config.BATCH_SIZE (Config.CONCURRENCY None)
           Sample.emptySource Config.START_BEFORE_SIGNATURE [] Sample.emptyOutput
           eq_refl main_empty_source).
Defined.

Lemma withConcurrency_pool_full_witness :
  index (start ["sigA"; "sigB"; "sigC"] (fun s => extractTransactionInfo s 1) 2) < 3
  /\ inFlight (start ["sigA"; "sigB"; "sigC"] (fun s => extractTransactionInfo s 1) 2)
     = 2.
Proof.
  assert (H : index (start ["sigA"; "sigB"; "sigC"]
                       (fun s => extractTransactionInfo s 1) 2) < 3)
    by (cbn; lia).
  split; [exact H|].
  apply (withConcurrency_pool_full ["sigA"; "sigB"; "sigC"]
           (fun s => extractTransactionInfo s 1) 2 _ (reachable_start _ _ _) H).
Defined.

Lemma sample_wellStamped :
  Forall (Forall wellStamped) [Sample.batch1; Sample.batch2].
Proof.
  repeat constructor.
  - exists 1700000100000%Z. split; vm_compute; reflexivity.
  - exists 1700000200000%Z. split; vm_compute; reflexivity.
  - exists 1700000000000%Z. split; vm_compute; reflexivity.
Qed.

Lemma oldest_time_order_independent_witness :
  Forall2 (@Permutation ExtractedResult) [Sample.batch1; Sample.batch2]
    [[Resolved Sample.recordA]; [Resolved Sample.recordB; Skipped; Resolved Sample.recordC]]
  /\ oldestTime (fst (batchLoop 0 2 initialTotals [Sample.batch1; Sample.batch2]))
     = oldestTime
         (fst (batchLoop 0 2 initialTotals
                 [[Resolved Sample.recordA];
                  [Resolved Sample.recordB; Skipped; Resolved Sample.recordC]])).
Proof.
  assert (H : Forall2 (@Permutation ExtractedResult) [Sample.batch1; Sample.batch2]
                [[Resolved Sample.recordA];
                 [Resolved Sample.recordB; Skipped; Resolved Sample.recordC]]).
  { constructor; [reflexivity|]. constructor; [|constructor].
    unfold Sample.batch2.
    apply (perm_trans (l' := [Resolved Sample.recordC; Resolved Sample.recordB; Skipped])).
    - constructor. apply perm_swap.
    - apply (perm_trans (l' := [Resolved Sample.recordB; Resolved Sample.recordC; Skipped])).
      + apply perm_swap.
      + constructor. apply perm_swap. }
  split; [exact H|].
  apply (oldest_time_order_independent _ _ 0 2 sample_wellStamped H).
Defined.

Lemma sample_three_outcomes :
  withConcurrencyReturns 1 Sample.threeSigs Sample.threeOutcomes.
Proof.
  apply (one_worker_run Sample.threeSigs (fun s => extractTransactionInfo s 1)).
  repeat constructor.
  - apply (returns_first_attempt "sigA"
             (Normal (Some (Sample.txOf Sample.payloadA (Some 1700000100%Z))))).
    vm_compute. reflexivity.
  - apply (returns_first_attempt "sigT" (Normal (Some Sample.transfer))).
    vm_compute. reflexivity.
  - apply (returns_first_attempt "sigB"
             (Normal (Some (Sample.txOf Sample.payloadB (Some 1700000000%Z))))).
    vm_compute. reflexivity.
Qed.

Lemma withConcurrency_one_worker_in_order_witness :
  exists st,
    reachable Sample.threeSigs (fun s => extractTransactionInfo s 1) 1 st
    /\ settled st
    /\ results st = [Resolved Sample.recordA; Skipped; Resolved Sample.recordB]
    /\ Forall2 (fun x r => returns (extractTransactionInfo x 1) r)
         ["sigA"; "sigT"; "sigB"] (results st).
Proof.
  destruct sample_three_outcomes as (st & Hr & Hs & He).
  exists st. split; [exact Hr|]. split; [exact Hs|]. split; [exact He|].
  apply (withConcurrency_one_worker_in_order Sample.threeSigs
           (fun s => extractTransactionInfo s 1) st Hr Hs).
Defined.

Lemma validMints_sorted_witness :
  withConcurrencyReturns 1 Sample.threeSigs Sample.threeOutcomes
  /\ validMintsOf Sample.threeOutcomes = [Sample.recordB; Sample.recordA]
  /\ StronglySorted notLater (validMintsOf Sample.threeOutcomes)
  /\ Permutation (validMintsOf Sample.threeOutcomes)
       (filter hasTimestamp (resolvedOnly Sample.threeOutcomes)).
Proof.
  split; [exact sample_three_outcomes|]. split; [vm_compute; reflexivity|].
  apply (validMints_sorted Sample.threeSigs 1 Sample.threeOutcomes
           sample_three_outcomes).
Defined.


Lemma sample_three_run :
  mainRun 3 2 1 Sample.threeSignatures "start"
    [[Resolved Sample.recordA; Skipped]; [Resolved Sample.recordB]]
    (snd (batchLoop 0 2 initialTotals
            [[Resolved Sample.recordA; Skipped]; [Resolved Sample.recordB]])
     ++ finalReport
          (fst (batchLoop 0 2 initialTotals
                  [[Resolved Sample.recordA; Skipped]; [Resolved Sample.recordB]]))).
Proof.
  unfold mainRun.
  replace (fst (collect 3 2 Sample.threeSignatures 0 "start" []))
    with ["sigA"; "sigT"; "sigB"] by (vm_compute; reflexivity).
  split; [reflexivity|]. split.
  - cbn [batchesFrom]. split; [|split; [|exact I]].
    + apply (one_worker_run ["sigA"; "sigT"] (fun s => extractTransactionInfo s 1)).
      repeat constructor.
      * apply (returns_first_attempt "sigA"
                 (Normal (Some (Sample.txOf Sample.payloadA (Some 1700000100%Z))))).
        vm_compute. reflexivity.
      * apply (returns_first_attempt "sigT" (Normal (Some Sample.transfer))).
        vm_compute. reflexivity.
    + apply (one_worker_run ["sigB"] (fun s => extractTransactionInfo s 1)).
      repeat constructor.
      apply (returns_first_attempt "sigB"
               (Normal (Some (Sample.txOf Sample.payloadB (Some 1700000000%Z))))).
      vm_compute. reflexivity.
  - destruct (batchLoop 0 _ _ _). reflexivity.
Qed.

Lemma main_one_outcome_per_signature_witness :
  mainRun 3 2 1 Sample.threeSignatures "start"
    [[Resolved Sample.recordA; Skipped]; [Resolved Sample.recordB]]
    (snd (batchLoop 0 2 initialTotals
            [[Resolved Sample.recordA; Skipped]; [Resolved Sample.recordB]])
     ++ finalReport
          (fst (batchLoop 0 2 initialTotals
                  [[Resolved Sample.recordA; Skipped]; [Resolved Sample.recordB]])))
  /\ fst (collect 3 2 Sample.threeSignatures 0 "start" []) = ["sigA"; "sigT"; "sigB"]
  /\ List.length
       (List.concat [[Resolved Sample.recordA; Skipped]; [Resolved Sample.recordB]])
     = List.length (fst (collect 3 2 Sample.threeSignatures 0 "start" [])).
Proof.
  split; [exact sample_three_run|]. split; [vm_compute; reflexivity|].
  destruct (main_one_outcome_per_signature 3 2 1 Sample.threeSignatures "start" _ _
              ltac:(lia) sample_three_run) as [H _].
  apply H. lia.
Defined.
